(** * 3d-shape: the geometric construction code of the three visualizations

    Shallow embedding of
    - [src/shared/visualizations/tetrahedron_visualization.js]
      ([createRegularTetrahedron], [createMultipleTetrahedrons]),
    - [src/mathematics/visualizations/rectangular_prism_visualization.js]
      ([createRectangularPrismWithCubes]),
    - [src/diamond_visualization.js]
      ([createDiamondStructure], [createAtom], [createBonds], [createBond]).

    Conventions of the embedding.
    - A JavaScript number is a mathematical real ([R]); loop counters and grid
      dimensions, which the code only ever uses at integer values, are [Z] and
      enter arithmetic through [IZR].  Rounding error, overflow and underflow
      of IEEE doubles are outside the model.
    - The constants that the source binds with [const] at the top of each
      builder ([scale], [width], [height], [depth], [cubeSize], [spacing],
      [unitCellSize], [cellsX], [cellsY], [cellsZ]) are parameters of the
      embedded builder; the source is the instance at the literal values.
    - An array that the code fills with [push] is a list that grows at its
      end; a [THREE.Group] is the list of the objects added to it, in order.
    - Materials, colours, wireframe edges, normals and lights do not take part
      in any computed position and are left out, except for the material of a
      cube, which is the classification of the prism. *)

From Stdlib Require Import Reals ZArith List Bool Lia Lra Psatz.
Import ListNotations.

Open Scope R_scope.

(** ** The parts of three.js that the builders call *)

Module THREE.

Record Vector3 : Type := mkVector3 { x : R; y : R; z : R }.

Definition zero : Vector3 := mkVector3 0 0 0.

(** [a.add(b)] *)
Definition add (a b : Vector3) : Vector3 :=
  mkVector3 (x a + x b) (y a + y b) (z a + z b).

(** [new THREE.Vector3().addVectors(a, b)] *)
Definition addVectors (a b : Vector3) : Vector3 := add a b.

(** [new THREE.Vector3().subVectors(a, b)] *)
Definition subVectors (a b : Vector3) : Vector3 :=
  mkVector3 (x a - x b) (y a - y b) (z a - z b).

(** [v.multiplyScalar(s)] *)
Definition multiplyScalar (v : Vector3) (s : R) : Vector3 :=
  mkVector3 (x v * s) (y v * s) (z v * s).

(** [v.divideScalar(s)] is [v.multiplyScalar(1 / s)] in three.js. *)
Definition divideScalar (v : Vector3) (s : R) : Vector3 :=
  multiplyScalar v (1 / s).

(** [v.lengthSq()] *)
Definition lengthSq (v : Vector3) : R := x v * x v + y v * y v + z v * z v.

(** [v.length()] *)
Definition length (v : Vector3) : R := sqrt (lengthSq v).

(** [v.normalize()] is [v.divideScalar(v.length() || 1)]: a zero length is
    falsy and replaced by 1. *)
Definition normalize (v : Vector3) : Vector3 :=
  divideScalar v (if Req_dec_T (length v) 0 then 1 else length v).

(** [a.distanceToSquared(b)] *)
Definition distanceToSquared (a b : Vector3) : R :=
  let dx := x a - x b in
  let dy := y a - y b in
  let dz := z a - z b in
  dx * dx + dy * dy + dz * dz.

(** [a.distanceTo(b)] *)
Definition distanceTo (a b : Vector3) : R := sqrt (distanceToSquared a b).

End THREE.

Import THREE.

(** ** Counting loops

    [for (let i = 0; i < n; i++) body] over a state [S]: [for_from] runs
    [count] iterations starting at [i]; with an integer bound [n] the test
    [i < n] lets exactly [Z.to_nat n] iterations through (none when
    [n <= 0]). *)

Fixpoint for_from {S : Type} (i : Z) (count : nat) (body : Z -> S -> S) (s : S) : S :=
  match count with
  | O => s
  | Datatypes.S k => for_from (i + 1)%Z k body (body i s)
  end.

Definition for_lt {S : Type} (n : Z) (body : Z -> S -> S) (s : S) : S :=
  for_from 0%Z (Z.to_nat n) body s.

(** ** rectangular_prism_visualization.js *)

Module Prism.

Inductive Material : Type :=
| threeFacesExposedMaterial
| twoFacesExposedMaterial
| oneFaceExposedMaterial
| interiorCubeMaterial.

(** One [THREE.Mesh] of [prismGroup].  Besides its material and position the
    record keeps the loop counters and the local [exposedFaces] the mesh was
    built from, which the statements below speak about. *)
Record Cube : Type := mkCube {
  gx : Z; gy : Z; gz : Z;
  exposedFaces : Z;
  material : Material;
  position : Vector3
}.

(** [if (c === 0 || c === dim - 1) exposedFaces++;] *)
Definition bump (c dim : Z) (exposed : Z) : Z :=
  if (c =? 0)%Z || (c =? dim - 1)%Z then (exposed + 1)%Z else exposed.

Definition countExposedFaces (width height depth cx cy cz : Z) : Z :=
  let exposed := 0%Z in
  let exposed := bump cx width exposed in
  let exposed := bump cy height exposed in
  let exposed := bump cz depth exposed in
  exposed.

(** The [if / else if] chain that selects the material. *)
Definition selectMaterial (exposed : Z) : Material :=
  if (exposed =? 3)%Z then threeFacesExposedMaterial
  else if (exposed =? 2)%Z then twoFacesExposedMaterial
  else if (exposed =? 1)%Z then oneFaceExposedMaterial
  else interiorCubeMaterial.

(** [c * (cubeSize + spacing) - (dim * (cubeSize + spacing) / 2)
       + (cubeSize + spacing) / 2] *)
Definition place (c dim : Z) (cubeSize spacing : R) : R :=
  IZR c * (cubeSize + spacing) - (IZR dim * (cubeSize + spacing) / 2)
  + (cubeSize + spacing) / 2.

Definition makeCube (width height depth : Z) (cubeSize spacing : R)
    (cx cy cz : Z) : Cube :=
  let exposed := countExposedFaces width height depth cx cy cz in
  mkCube cx cy cz exposed (selectMaterial exposed)
    (mkVector3 (place cx width cubeSize spacing)
               (place cy height cubeSize spacing)
               (place cz depth cubeSize spacing)).

(** The value is [prismGroup] as it is added to the scene. *)
Definition createRectangularPrismWithCubes
    (width height depth : Z) (cubeSize spacing : R) : list Cube :=
  let prismGroup : list Cube := [] in
  for_lt width (fun cx prismGroup =>
    for_lt height (fun cy prismGroup =>
      for_lt depth (fun cz prismGroup =>
        prismGroup ++ [makeCube width height depth cubeSize spacing cx cy cz])
      prismGroup)
    prismGroup)
  prismGroup.

(** The source: [width = 2], [height = 5], [depth = 11], [cubeSize = 1],
    [spacing = 0.2]. *)
Definition prismGroup : list Cube :=
  createRectangularPrismWithCubes 2 5 11 1 0.2.

End Prism.

(** ** tetrahedron_visualization.js *)

Module Tetra.

(** [arr[k]] at an integer index.  Every index the builders use is in range;
    out of range (where JavaScript gives [undefined]) the model gives the
    origin. *)
Definition item (arr : list Vector3) (k : Z) : Vector3 :=
  nth (Z.to_nat k) arr zero.

(** A [THREE.BufferGeometry] after [setIndex] and
    [setAttribute('position', ...)]. *)
Record Geometry : Type := mkGeometry {
  index : list nat;
  positions : list R
}.

Record Tetrahedron : Type := mkTetrahedron {
  vertices : list Vector3;
  center : Vector3;
  geometry : Geometry
}.

(** The four faces, the same literal in both functions. *)
Definition indices : list nat :=
  [0; 1; 2;  0; 1; 3;  0; 2; 3;  1; 2; 3]%nat.

(** [vertices.forEach(vertex => positions.push(vertex.x, vertex.y, vertex.z))] *)
Definition pushPositions (vs : list Vector3) : list R :=
  fold_left (fun positions vertex => positions ++ [x vertex; y vertex; z vertex])
            vs [].

Definition createRegularTetrahedron (center : Vector3) (scale : R) : Tetrahedron :=
  let vertices :=
    [ mkVector3 1 1 1; mkVector3 1 (-1) (-1);
      mkVector3 (-1) 1 (-1); mkVector3 (-1) (-1) 1 ] in
  let vertices :=
    map (fun vertex => add (multiplyScalar vertex scale) center) vertices in
  mkTetrahedron vertices center (mkGeometry indices (pushPositions vertices)).

(** The body of the first loop of [createMultipleTetrahedrons]: the new
    vertex for index [i]. *)
Definition newVertex (central : Tetrahedron) (scale : R) (i : Z) : Vector3 :=
  let v1 := item (vertices central) i in
  let v2 := item (vertices central) ((i + 1) mod 4) in
  let v3 := item (vertices central) ((i + 2) mod 4) in
  let center := divideScalar (add (add (add zero v1) v2) v3) 3 in
  let oppositeVertex := item (vertices central) ((i + 3) mod 4) in
  let directionToOpposite := normalize (subVectors oppositeVertex center) in
  subVectors center (multiplyScalar directionToOpposite (scale * 1.63)).

(** The body of the second loop: the additional tetrahedron for index [i]. *)
Definition additionalTetrahedron (central : Tetrahedron)
    (newVertices : list Vector3) (i : Z) : Tetrahedron :=
  let tetraVertices :=
    [ item (vertices central) i;
      item (vertices central) ((i + 1) mod 4);
      item (vertices central) ((i + 2) mod 4);
      item newVertices i ] in
  let center := fold_left add tetraVertices zero in
  let center := divideScalar center 4 in
  mkTetrahedron tetraVertices center
    (mkGeometry indices (pushPositions tetraVertices)).

(** *** [Number.prototype.toFixed(6)]

    ECMAScript: with [x < 0] the result starts with ["-"] and [x] is
    replaced by [-x]; for [x >= 10^21] the digits are [ToString(x)];
    otherwise they are those of the integer [n] for which [n / 10^6 - x] is
    closest to zero (the larger [n] on a tie), with a point before the last
    six.  Two results are the same string exactly when sign and digits
    agree, so the string is modelled by the pair. *)

Inductive Digits : Type :=
| Decimal (n : Z)
| Exponent (m : R).

Record Fixed : Type := mkFixed { negative : bool; digits : Digits }.

Definition toFixed6 (v : R) : Fixed :=
  let negative := if Rlt_dec v 0 then true else false in
  let a := if Rlt_dec v 0 then - v else v in
  if Rle_dec (10 ^ 21) a
  then mkFixed negative (Exponent a)
  else mkFixed negative (Decimal (Int_part (a * 10 ^ 6 + / 2))).

(** The template literal [`${x},${y},${z}`] of three [toFixed(6)] results. *)
Definition Key : Type := (Fixed * Fixed * Fixed)%type.

Definition vertexKey (vertex : Vector3) : Key :=
  (toFixed6 (x vertex), toFixed6 (y vertex), toFixed6 (z vertex)).

Definition Digits_eqb (a b : Digits) : bool :=
  match a, b with
  | Decimal n, Decimal m => (n =? m)%Z
  | Exponent u, Exponent v => if Req_dec_T u v then true else false
  | _, _ => false
  end.

Definition Fixed_eqb (a b : Fixed) : bool :=
  Bool.eqb (negative a) (negative b) && Digits_eqb (digits a) (digits b).

Definition Key_eqb (a b : Key) : bool :=
  let '(ax, ay, az) := a in
  let '(bx, by_, bz) := b in
  Fixed_eqb ax bx && Fixed_eqb ay by_ && Fixed_eqb az bz.

(** [addedVertices.has(key)] on the [Set] kept as the list of its keys in
    insertion order. *)
Definition has (addedVertices : list Key) (key : Key) : bool :=
  existsb (Key_eqb key) addedVertices.

(** *** The scene group *)

Inductive Object3D : Type :=
| TetraMesh (g : Geometry)
| TetraEdges (g : Geometry)
| CenterSphere (position : Vector3)
| VertexSphere (position : Vector3).

Record Cluster : Type := mkCluster {
  tetrahedrons : list Tetrahedron;
  tetraGroup : list Object3D;
  addedVertices : list Key
}.

(** The callback of the inner [tetra.vertices.forEach] of the last loop, on
    the pair of [tetraGroup] and [addedVertices]. *)
Definition addVertexSphere (st : list Object3D * list Key) (vertex : Vector3)
    : list Object3D * list Key :=
  let '(tetraGroup, addedVertices) := st in
  let key := vertexKey vertex in
  if negb (has addedVertices key)
  then (tetraGroup ++ [VertexSphere vertex], addedVertices ++ [key])
  else (tetraGroup, addedVertices).

Definition createMultipleTetrahedrons (scale : R) : Cluster :=
  let tetraGroup : list Object3D := [] in
  let centralTetra := createRegularTetrahedron (mkVector3 0 0 0) scale in
  let tetrahedrons := [] in
  let tetrahedrons :=
    tetrahedrons ++ [mkTetrahedron (vertices centralTetra)
                       (center centralTetra) (geometry centralTetra)] in
  let newVertices :=
    for_lt 4 (fun i newVertices =>
      newVertices ++ [newVertex centralTetra scale i]) [] in
  let tetrahedrons :=
    for_lt 4 (fun i tetrahedrons =>
      tetrahedrons ++ [additionalTetrahedron centralTetra newVertices i])
      tetrahedrons in
  let tetraGroup :=
    fold_left (fun tetraGroup tetra =>
      tetraGroup ++ [TetraMesh (geometry tetra); TetraEdges (geometry tetra);
                     CenterSphere (center tetra)])
      tetrahedrons tetraGroup in
  let '(tetraGroup, addedVertices) :=
    fold_left (fun st tetra => fold_left addVertexSphere (vertices tetra) st)
      tetrahedrons (tetraGroup, []) in
  mkCluster tetrahedrons tetraGroup addedVertices.

(** The positions of the vertex spheres of a group, in the order added. *)
Definition vertexSpheres (group : list Object3D) : list Vector3 :=
  flat_map (fun o => match o with VertexSphere p => [p] | _ => [] end) group.

End Tetra.

(** ** diamond_visualization.js *)

Module Diamond.

(** The mesh that [createBond] adds.  The record keeps the indices [i] and
    [j] of the two entries of [atomPositions] it was called on, which stand
    for the references [atom1] and [atom2]; the rotation is left out. *)
Record Bond : Type := mkBond {
  end1 : Z;
  end2 : Z;
  midpoint : Vector3;
  direction : Vector3;
  bondLength : R
}.

Inductive Object3D : Type :=
| AtomMesh (position : Vector3)
| BondMesh (bond : Bond).

(** [arr[k]], as in the tetrahedron builder. *)
Definition item (arr : list Vector3) (k : Z) : Vector3 :=
  nth (Z.to_nat k) arr zero.

(** [createAtom(x, y, z, geometry, material)], on the global [diamondGroup]. *)
Definition createAtom (ax ay az : R) (diamondGroup : list Object3D)
    : list Object3D :=
  diamondGroup ++ [AtomMesh (mkVector3 ax ay az)].

(** [createBond(atom1, atom2, bondRadius, bondMaterial)], on the global
    [diamondGroup]. *)
Definition createBond (i j : Z) (atom1 atom2 : Vector3)
    (diamondGroup : list Object3D) : list Object3D :=
  let midpoint := multiplyScalar (addVectors atom1 atom2) 0.5 in
  let direction := subVectors atom2 atom1 in
  let bondLength := length direction in
  let direction := normalize direction in
  diamondGroup ++ [BondMesh (mkBond i j midpoint direction bondLength)].

Definition maxBondDistance : R := 1.8.

(** [createBonds(atomPositions, bondRadius, bondMaterial, unitCellSize)].
    The inner loop runs [j] from [i + 1] while [j < atomPositions.length]. *)
Definition createBonds (atomPositions : list Vector3) (unitCellSize : R)
    (diamondGroup : list Object3D) : list Object3D :=
  let n := Z.of_nat (List.length atomPositions) in
  for_lt n (fun i diamondGroup =>
    for_from (i + 1) (Z.to_nat (n - (i + 1))) (fun j diamondGroup =>
      let atom1 := item atomPositions i in
      let atom2 := item atomPositions j in
      let distance := distanceTo atom1 atom2 in
      if Rlt_dec distance maxBondDistance
      then createBond i j atom1 atom2 diamondGroup
      else diamondGroup)
    diamondGroup)
  diamondGroup.

Definition fccPositions : list (R * R * R) :=
  [ (0, 0, 0); (0, 0.5, 0.5); (0.5, 0, 0.5); (0.5, 0.5, 0) ].

(** The state of the cell loops: the global [diamondGroup] and the local
    array [atomPositions]. *)
Record Build : Type := mkBuild {
  diamondGroup : list Object3D;
  atomPositions : list Vector3
}.

(** The callback of [fccPositions.forEach] in the cell with base position
    [(baseX, baseY, baseZ)]. *)
Definition placePair (unitCellSize baseX baseY baseZ : R) (st : Build)
    (pos : R * R * R) : Build :=
  let '(p0, p1, p2) := pos in
  let atomX := baseX + p0 * unitCellSize in
  let atomY := baseY + p1 * unitCellSize in
  let atomZ := baseZ + p2 * unitCellSize in
  let group := createAtom atomX atomY atomZ (diamondGroup st) in
  let atoms := atomPositions st ++ [mkVector3 atomX atomY atomZ] in
  let offsetX := atomX + 0.25 * unitCellSize in
  let offsetY := atomY + 0.25 * unitCellSize in
  let offsetZ := atomZ + 0.25 * unitCellSize in
  let group := createAtom offsetX offsetY offsetZ group in
  let atoms := atoms ++ [mkVector3 offsetX offsetY offsetZ] in
  mkBuild group atoms.

Definition createDiamondStructure (cellsX cellsY cellsZ : Z) (unitCellSize : R)
    : Build :=
  let st := mkBuild [] [] in
  let st :=
    for_lt cellsX (fun cx st =>
      for_lt cellsY (fun cy st =>
        for_lt cellsZ (fun cz st =>
          let baseX := (IZR cx - IZR cellsX / 2) * unitCellSize in
          let baseY := (IZR cy - IZR cellsY / 2) * unitCellSize in
          let baseZ := (IZR cz - IZR cellsZ / 2) * unitCellSize in
          fold_left (placePair unitCellSize baseX baseY baseZ) fccPositions st)
        st)
      st)
    st in
  mkBuild (createBonds (atomPositions st) unitCellSize (diamondGroup st))
          (atomPositions st).

(** The bonds of a group, in the order added. *)
Definition bonds (group : list Object3D) : list Bond :=
  flat_map (fun o => match o with BondMesh b => [b] | _ => [] end) group.

(** The atom meshes of a group, in the order added. *)
Definition atoms (group : list Object3D) : list Vector3 :=
  flat_map (fun o => match o with AtomMesh p => [p] | _ => [] end) group.

(** The source: [cellsX = cellsY = cellsZ = 2], [unitCellSize = 3.57]. *)
Definition diamond : Build := createDiamondStructure 2 2 2 3.57.

End Diamond.

(** ** How a call of a builder completes

    A JavaScript call completes normally with a value or abruptly by a
    [throw].  None of the three builders contains a [throw], and none of the
    operations they apply to numbers and arrays throws, so each call
    completes normally with the value computed above. *)

Inductive Completion (A : Type) : Type :=
| Normal (value : A)
| Throw.
Arguments Normal {A} value.
Arguments Throw {A}.

Definition call_createMultipleTetrahedrons (scale : R)
    : Completion Tetra.Cluster :=
  Normal (Tetra.createMultipleTetrahedrons scale).

Definition call_createRectangularPrismWithCubes
    (width height depth : Z) (cubeSize spacing : R)
    : Completion (list Prism.Cube) :=
  Normal (Prism.createRectangularPrismWithCubes width height depth cubeSize spacing).

Definition call_createDiamondStructure (cellsX cellsY cellsZ : Z)
    (unitCellSize : R) : Completion Diamond.Build :=
  Normal (Diamond.createDiamondStructure cellsX cellsY cellsZ unitCellSize).

(** ** Vocabulary of the statements *)

(** The counter values of a loop: [count] consecutive integers from [i]. *)
Fixpoint zrange (i : Z) (count : nat) : list Z :=
  match count with
  | O => []
  | Datatypes.S k => i :: zrange (i + 1)%Z k
  end.

(** [0 <= c < n] *)
Definition below (n c : Z) : bool := (0 <=? c)%Z && (c <? n)%Z.

(** Sum of a list of reals. *)
Definition Rsum (l : list R) : R := fold_right Rplus 0 l.

(** Arithmetic mean of a list of points. *)
Definition mean (ps : list Vector3) : Vector3 :=
  mkVector3 (Rsum (map x ps) / INR (List.length ps))
            (Rsum (map y ps) / INR (List.length ps))
            (Rsum (map z ps) / INR (List.length ps)).

(** The cubes of a prism group that were built at grid coordinate
    [(cx, cy, cz)]. *)
Definition cubesAt (cx cy cz : Z) (group : list Prism.Cube) : list Prism.Cube :=
  filter (fun c => (Prism.gx c =? cx)%Z && (Prism.gy c =? cy)%Z
                   && (Prism.gz c =? cz)%Z) group.

(** 1 when the coordinate [c] sits on the boundary of an axis of [dim]
    cells, else 0. *)
Definition onBoundary (c dim : Z) : Z :=
  if (c =? 0)%Z || (c =? dim - 1)%Z then 1%Z else 0%Z.

(** *** The diamond lattice as the specification words it *)

(** The four FCC fractional offsets. *)
Definition fccOffsets : list Vector3 :=
  [ mkVector3 0 0 0; mkVector3 0 0.5 0.5; mkVector3 0.5 0 0.5; mkVector3 0.5 0.5 0 ].

(** [base(axis) = (coord - cellsDim / 2) * latticeConstant] *)
Definition cellBase (cellsX cellsY cellsZ : Z) (latticeConstant : R)
    (cx cy cz : Z) : Vector3 :=
  mkVector3 ((IZR cx - IZR cellsX / 2) * latticeConstant)
            ((IZR cy - IZR cellsY / 2) * latticeConstant)
            ((IZR cz - IZR cellsZ / 2) * latticeConstant).

(** The atoms of one grid cell: for each FCC offset the primary atom at
    [base + offset * latticeConstant], followed by the second atom at
    [primary + (0.25, 0.25, 0.25) * latticeConstant]. *)
Definition cellAtoms (cellsX cellsY cellsZ : Z) (latticeConstant : R)
    (cx cy cz : Z) : list Vector3 :=
  flat_map (fun offset =>
    let primary :=
      add (cellBase cellsX cellsY cellsZ latticeConstant cx cy cz)
          (multiplyScalar offset latticeConstant) in
    [ primary;
      add primary (multiplyScalar (mkVector3 0.25 0.25 0.25) latticeConstant) ])
    fccOffsets.

(** The atoms of all grid cells, cell after cell. *)
Definition latticeAtoms (cellsX cellsY cellsZ : Z) (latticeConstant : R)
    : list Vector3 :=
  flat_map (fun cx =>
    flat_map (fun cy =>
      flat_map (fun cz => cellAtoms cellsX cellsY cellsZ latticeConstant cx cy cz)
        (zrange 0 (Z.to_nat cellsZ)))
      (zrange 0 (Z.to_nat cellsY)))
    (zrange 0 (Z.to_nat cellsX)).

(** A build state after more atoms were created and pushed. *)
Definition withAtoms (st : Diamond.Build) (ps : list Vector3) : Diamond.Build :=
  Diamond.mkBuild (Diamond.diamondGroup st ++ map Diamond.AtomMesh ps)
                  (Diamond.atomPositions st ++ ps).

(** The bond that [createBond] makes of the entries [i] and [j]. *)
Definition bondOf (atomPositions : list Vector3) (i j : Z) : Diamond.Bond :=
  let atom1 := Diamond.item atomPositions i in
  let atom2 := Diamond.item atomPositions j in
  Diamond.mkBond i j
    (multiplyScalar (addVectors atom1 atom2) 0.5)
    (normalize (subVectors atom2 atom1))
    (length (subVectors atom2 atom1)).

(** What one test of the pair scan appends to the group. *)
Definition bondIf (atomPositions : list Vector3) (i j : Z)
    : list Diamond.Object3D :=
  let atom1 := Diamond.item atomPositions i in
  let atom2 := Diamond.item atomPositions j in
  if Rlt_dec (distanceTo atom1 atom2) Diamond.maxBondDistance
  then Diamond.createBond i j atom1 atom2 []
  else [].

(** What the whole pair scan appends: the tests of all pairs [i < j] in
    the order of the two loops. *)
Definition bondScan (atomPositions : list Vector3) : list Diamond.Object3D :=
  let n := Z.of_nat (List.length atomPositions) in
  flat_map (fun i =>
    flat_map (fun j => bondIf atomPositions i j)
      (zrange (i + 1) (Z.to_nat (n - (i + 1)))))
    (zrange 0 (Z.to_nat n)).

(** The bonds of a list that were created on the entries [i] and [j] of
    [atomPositions], in this order. *)
Definition bondsFromTo (i j : Z) (bs : list Diamond.Bond) : list Diamond.Bond :=
  filter (fun b => (Diamond.end1 b =? i)%Z && (Diamond.end2 b =? j)%Z) bs.

(** *** The lattice in quarter-cell units

    Every atom sits at an integer multiple of a quarter of the lattice
    constant on each axis; a site is that integer triple. *)

Definition Site : Type := (Z * Z * Z)%type.

Definition sitePoint (latticeConstant : R) (s : Site) : Vector3 :=
  let '(kx, ky, kz) := s in
  mkVector3 (IZR kx * (latticeConstant / 4)) (IZR ky * (latticeConstant / 4))
            (IZR kz * (latticeConstant / 4)).

Definition cellSites (cellsX cellsY cellsZ cx cy cz : Z) : list Site :=
  flat_map (fun o : Site =>
    let '(ox, oy, oz) := o in
    let bx := (4 * cx - 2 * cellsX + ox)%Z in
    let by_ := (4 * cy - 2 * cellsY + oy)%Z in
    let bz := (4 * cz - 2 * cellsZ + oz)%Z in
    [ (bx, by_, bz); ((bx + 1)%Z, (by_ + 1)%Z, (bz + 1)%Z) ])
    [ (0, 0, 0); (0, 2, 2); (2, 0, 2); (2, 2, 0) ]%Z.

Definition latticeSites (cellsX cellsY cellsZ : Z) : list Site :=
  flat_map (fun cx =>
    flat_map (fun cy =>
      flat_map (fun cz => cellSites cellsX cellsY cellsZ cx cy cz)
        (zrange 0 (Z.to_nat cellsZ)))
      (zrange 0 (Z.to_nat cellsY)))
    (zrange 0 (Z.to_nat cellsX)).

Definition siteAt (sites : list Site) (k : Z) : Site :=
  nth (Z.to_nat k) sites (0, 0, 0)%Z.

(** Squared distance of two sites, in squared quarter-cell units. *)
Definition siteDistSq (p q : Site) : Z :=
  let '(px, py, pz) := p in
  let '(qx, qy, qz) := q in
  ((px - qx) * (px - qx) + (py - qy) * (py - qy) + (pz - qz) * (pz - qz))%Z.

(** A test on all pairs [i < j] of the first [n] entries. *)
Definition allPairs (n : nat) (test : Z -> Z -> bool) : bool :=
  forallb (fun i =>
    forallb (fun j => test i j)
      (zrange (i + 1) (Z.to_nat (Z.of_nat n - (i + 1)))))
    (zrange 0 n).

(** *** The tetrahedron cluster *)

(** The central tetrahedron of the cluster built at [scale]. *)
Definition central (scale : R) : Tetra.Tetrahedron :=
  Tetra.createRegularTetrahedron (mkVector3 0 0 0) scale.

(** Vertex [k] of the central tetrahedron. *)
Definition centralVertex (scale : R) (k : Z) : Vector3 :=
  Tetra.item (Tetra.vertices (central scale)) k.

(** The vertex that additional tetrahedron [i] does not share with the
    central one: entry 3 of the vertices of [tetrahedrons[i + 1]]. *)
Definition derivedVertex (c : Tetra.Cluster) (i : Z) : Vector3 :=
  Tetra.item
    (Tetra.vertices
       (nth (Z.to_nat (i + 1)) (Tetra.tetrahedrons c) (central 0))) 3.

(** Centroid of the three central vertices that tetrahedron [i] shares. *)
Definition sharedCentroid (scale : R) (i : Z) : Vector3 :=
  mean [ centralVertex scale i; centralVertex scale ((i + 1) mod 4);
         centralVertex scale ((i + 2) mod 4) ].

(** The central vertex opposite to the shared face of tetrahedron [i]. *)
Definition oppositeVertex (scale : R) (i : Z) : Vector3 :=
  centralVertex scale ((i + 3) mod 4).

(** The point symmetric to [p] through [m]. *)
Definition mirror (m p : Vector3) : Vector3 :=
  subVectors (multiplyScalar m 2) p.

(** Whether [toFixed] writes a minus sign. *)
Definition isNegative (v : R) : bool := if Rlt_dec v 0 then true else false.

Definition signs (v : Vector3) : bool * bool * bool :=
  (isNegative (x v), isNegative (y v), isNegative (z v)).

(** The eight vertices of the cluster: the four central ones, then the
    four new ones. *)
Definition vertexTable (scale : R) : list Vector3 :=
  Tetra.vertices (central scale)
  ++ map (Tetra.newVertex (central scale) scale) [0; 1; 2; 3]%Z.

(** The vertex instances of the five tetrahedra, in the order the last loop
    visits them, as indices into [vertexTable]. *)
Definition instanceIndices : list nat :=
  [ 0; 1; 2; 3;  0; 1; 2; 4;  1; 2; 3; 5;  2; 3; 0; 6;  3; 0; 1; 7 ]%nat.

(** The indices of a list that are neither in [seen] nor earlier in the
    list, in order of first occurrence. *)
Fixpoint fresh (indices seen : list nat) : list nat :=
  match indices with
  | [] => []
  | i :: rest =>
      if existsb (Nat.eqb i) seen then fresh rest seen
      else i :: fresh rest (seen ++ [i])
  end.

(** The positions of the centre spheres of a group, in the order added. *)
Definition centerSpheres (group : list Tetra.Object3D) : list Vector3 :=
  flat_map (fun o => match o with Tetra.CenterSphere p => [p] | _ => [] end) group.

(** The vertex lists, among those given, that hold a vertex with the key of
    [v]. *)
Definition vertexListsWith (v : Vector3) (lists : list (list Vector3))
    : list (list Vector3) :=
  filter (fun vs => Tetra.has (map Tetra.vertexKey vs) (Tetra.vertexKey v)) lists.

(** 1 for [true], 0 for [false]. *)
Definition indicator (b : bool) : R := if b then 1 else 0.

(** The cubes of a prism group with [k] exposed faces. *)
Definition cubesExposing (k : Z) (group : list Prism.Cube) : list Prism.Cube :=
  filter (fun c => (Prism.exposedFaces c =? k)%Z) group.

(** The two indices a bond was created on. *)
Definition bondEnds (b : Diamond.Bond) : Z * Z := (Diamond.end1 b, Diamond.end2 b).

(** What all sites of a lattice built with cell counts of sum [S] share:
    the three coordinates have the same parity, and their sum, less 3 on
    the odd sites, plus [2 * S] is a multiple of 4. *)
Definition onLattice (S : Z) (s : Site) : Prop :=
  let '(kx, ky, kz) := s in
  ((kx - ky) mod 2 = 0 /\ (kx - kz) mod 2 = 0 /\
   (kx + ky + kz - 3 * (kx mod 2) + 2 * S) mod 4 = 0)%Z.

(** Case analysis on every integer comparison of the goal. *)
Ltac zcases :=
  repeat match goal with
  | |- context [(?a <=? ?b)%Z] => destruct (Z.leb_spec a b)
  | |- context [(?a <? ?b)%Z] => destruct (Z.ltb_spec a b)
  | |- context [(?a =? ?b)%Z] => destruct (Z.eqb_spec a b)
  end;
  simpl; try reflexivity; try lia.

(** Evaluation of the index arithmetic [(a + b) % 4] at literals. *)
Ltac mod4 :=
  repeat match goal with
  | |- context [((?a + ?b) mod 4)%Z] =>
      let r := eval vm_compute in ((a + b) mod 4)%Z in
      change ((a + b) mod 4)%Z with r
  end.

(** ** Loops that only append *)

Section Loops.

Context {A : Type}.

Lemma for_from_fold (S : Type) (body : Z -> S -> S) (count : nat) (i : Z) (s : S) :
  for_from i count body s = fold_left (fun s k => body k s) (zrange i count) s.
Proof.
  revert i s. induction count as [|k IH]; intros i s; simpl; [reflexivity|].
  apply IH.
Qed.

Lemma fold_append (f : Z -> list A) (ks : list Z) (l : list A) :
  fold_left (fun l k => l ++ f k) ks l = l ++ flat_map f ks.
Proof.
  revert l. induction ks as [|k ks IH]; intros l; simpl.
  - now rewrite app_nil_r.
  - rewrite IH. now rewrite <- app_assoc.
Qed.

(** A loop whose body appends [f k] to the array appends the [f k] of all
    counter values in order. *)
Lemma for_from_append (f : Z -> list A) (count : nat) (i : Z) (l : list A) :
  for_from i count (fun k l => l ++ f k) l = l ++ flat_map f (zrange i count).
Proof. rewrite for_from_fold. apply fold_append. Qed.

Lemma for_from_ext (S : Type) (b1 b2 : Z -> S -> S) (count : nat) (i : Z) (s : S) :
  (forall k s', b1 k s' = b2 k s') ->
  for_from i count b1 s = for_from i count b2 s.
Proof.
  intros E. revert i s. induction count as [|k IH]; intros i s; simpl; [reflexivity|].
  rewrite E. apply IH.
Qed.

Lemma zrange_length (count : nat) (i : Z) : List.length (zrange i count) = count.
Proof. revert i. induction count as [|k IH]; intros i; simpl; [reflexivity|]. now rewrite IH. Qed.

Lemma zrange_In (count : nat) (i k : Z) :
  In k (zrange i count) <-> (i <= k < i + Z.of_nat count)%Z.
Proof.
  revert i. induction count as [|n IH]; intros i; simpl.
  - lia.
  - rewrite IH. lia.
Qed.

Lemma flat_map_length_const (F : Z -> list A) (m : nat) (ks : list Z) :
  (forall k, List.length (F k) = m) ->
  List.length (flat_map F ks) = (List.length ks * m)%nat.
Proof.
  intros H. induction ks as [|k ks IH]; simpl; [reflexivity|].
  rewrite length_app, H, IH. reflexivity.
Qed.

Lemma filter_none (P : A -> bool) (l : list A) :
  (forall a, In a l -> P a = false) -> filter P l = [].
Proof.
  induction l as [|a l IH]; intros H; simpl; [reflexivity|].
  rewrite (H a (or_introl eq_refl)). apply IH. intros b Hb. apply H. now right.
Qed.

Lemma filter_flat_map_app (P : A -> bool) (F : Z -> list A) (ks : list Z) :
  filter P (flat_map F ks) = flat_map (fun k => filter P (F k)) ks.
Proof.
  induction ks as [|k ks IH]; simpl; [reflexivity|].
  now rewrite filter_app, IH.
Qed.

(** Selecting from the output of a loop by a test that only the iteration
    with counter [c] can pass leaves what that iteration appended. *)
Lemma filter_flat_map_zrange (P : A -> bool) (F : Z -> list A) (c : Z)
    (count : nat) (i : Z) :
  (forall k a, In a (F k) -> P a = true -> k = c) ->
  filter P (flat_map F (zrange i count)) =
  if ((i <=? c) && (c <? i + Z.of_nat count))%Z then filter P (F c) else [].
Proof.
  intros H. revert i. induction count as [|n IH]; intros i.
  - simpl. zcases.
  - cbn [zrange flat_map]. rewrite filter_app, IH.
    destruct (Z.eq_dec i c) as [->|Hne].
    + zcases; apply app_nil_r.
    + rewrite (filter_none P (F i)).
      * zcases.
      * intros a Ha. destruct (P a) eqn:Pa; [|reflexivity].
        exfalso. apply Hne. now apply (H i a).
Qed.

End Loops.

(** ** The prism grid *)

Section PrismGrid.

Variables (width height depth : Z) (cubeSize spacing : R).

Let cube := Prism.makeCube width height depth cubeSize spacing.

(** The three nested loops leave one cube per counter triple, in
    lexicographic order. *)
Lemma prism_unfold :
  Prism.createRectangularPrismWithCubes width height depth cubeSize spacing =
  flat_map (fun cx =>
    flat_map (fun cy =>
      flat_map (fun cz => [cube cx cy cz]) (zrange 0 (Z.to_nat depth)))
      (zrange 0 (Z.to_nat height)))
    (zrange 0 (Z.to_nat width)).
Proof.
  unfold Prism.createRectangularPrismWithCubes, for_lt.
  erewrite for_from_ext.
  - rewrite for_from_append. reflexivity.
  - intros cx g. cbv beta. erewrite for_from_ext.
    + rewrite for_from_append. reflexivity.
    + intros cy g'. cbv beta.
      apply (for_from_append (fun cz => [cube cx cy cz])).
Qed.

Lemma prism_length :
  List.length (Prism.createRectangularPrismWithCubes width height depth cubeSize spacing)
  = (Z.to_nat width * (Z.to_nat height * Z.to_nat depth))%nat.
Proof.
  rewrite prism_unfold.
  rewrite (flat_map_length_const _ (Z.to_nat height * Z.to_nat depth)), zrange_length;
    [reflexivity|].
  intros cx.
  rewrite (flat_map_length_const _ (Z.to_nat depth)), zrange_length; [reflexivity|].
  intros cy.
  rewrite (flat_map_length_const _ 1%nat), zrange_length; [lia | reflexivity].
Qed.

Lemma prism_In (c : Prism.Cube) :
  In c (Prism.createRectangularPrismWithCubes width height depth cubeSize spacing) <->
  exists cx cy cz,
    (0 <= cx < width)%Z /\ (0 <= cy < height)%Z /\ (0 <= cz < depth)%Z /\
    c = cube cx cy cz.
Proof.
  rewrite prism_unfold. split.
  - intros H. apply in_flat_map in H as (cx & Hx & H).
    apply in_flat_map in H as (cy & Hy & H).
    apply in_flat_map in H as (cz & Hz & H).
    apply zrange_In in Hx, Hy, Hz. destruct H as [<-|[]].
    exists cx, cy, cz. repeat split; lia.
  - intros (cx & cy & cz & Hx & Hy & Hz & ->).
    apply in_flat_map. exists cx. split; [apply zrange_In; lia|].
    apply in_flat_map. exists cy. split; [apply zrange_In; lia|].
    apply in_flat_map. exists cz. split; [apply zrange_In; lia|].
    now left.
Qed.

(** Exactly the cube built in iteration [(cx, cy, cz)] carries these
    coordinates, and outside the range there is none. *)
Lemma prism_cubesAt (cx cy cz : Z) :
  cubesAt cx cy cz
    (Prism.createRectangularPrismWithCubes width height depth cubeSize spacing) =
  if below width cx && below height cy && below depth cz
  then [cube cx cy cz] else [].
Proof.
  rewrite prism_unfold. unfold cubesAt.
  rewrite (filter_flat_map_zrange _ _ cx).
  2:{ intros k a Ha Hp. apply in_flat_map in Ha as (ky & _ & Ha).
      apply in_flat_map in Ha as (kz & _ & [<-|[]]). simpl in Hp. lia. }
  rewrite (filter_flat_map_zrange _ _ cy).
  2:{ intros k a Ha Hp.
      apply in_flat_map in Ha as (kz & _ & [<-|[]]). simpl in Hp. lia. }
  rewrite (filter_flat_map_zrange _ _ cz).
  2:{ intros k a [<-|[]] Hp. simpl in Hp. lia. }
  unfold below. cbn [filter cube Prism.makeCube Prism.gx Prism.gy Prism.gz].
  rewrite !Z.eqb_refl. simpl.
  zcases.
Qed.

End PrismGrid.

(** C6.  The prism of the source ([2 x 5 x 11], cube size 1, spacing 0.2)
    has exactly 110 cubes; every grid coordinate in range carries exactly one
    cube and every other coordinate none, so no coordinate is skipped or
    duplicated; exactly 8 cubes have [exposedFaces = 3] and none has
    [exposedFaces = 0]. *)
Theorem prism_2_5_11_census :
  List.length Prism.prismGroup = 110%nat /\
  (forall cx cy cz : Z,
     List.length (cubesAt cx cy cz Prism.prismGroup) =
     if below 2 cx && below 5 cy && below 11 cz then 1%nat else 0%nat) /\
  List.length (filter (fun c => (Prism.exposedFaces c =? 3)%Z) Prism.prismGroup) = 8%nat /\
  List.length (filter (fun c => (Prism.exposedFaces c =? 0)%Z) Prism.prismGroup) = 0%nat.
Proof.
  split; [|split; [|split]].
  - unfold Prism.prismGroup. rewrite prism_length. reflexivity.
  - intros cx cy cz. unfold Prism.prismGroup. rewrite prism_cubesAt.
    now destruct (below 2 cx && below 5 cy && below 11 cz).
  - vm_compute. reflexivity.
  - vm_compute. reflexivity.
Qed.

Lemma bump_onBoundary (c dim e : Z) :
  Prism.bump c dim e = (e + onBoundary c dim)%Z.
Proof.
  unfold Prism.bump, onBoundary.
  destruct ((c =? 0)%Z || (c =? dim - 1)%Z); lia.
Qed.

Lemma onBoundary_01 (c dim : Z) : (0 <= onBoundary c dim <= 1)%Z.
Proof. unfold onBoundary. destruct ((c =? 0)%Z || (c =? dim - 1)%Z); lia. Qed.

(** C7.  In a grid of dimensions [w, h, d >= 1], the coordinate
    [(cx, cy, cz)] in range carries exactly one cube; its [exposedFaces] is
    the number of axes on which the coordinate is [0] or [max - 1] (each axis
    counts at most once), a function of the coordinate and the dimensions
    alone, and lies in [0..3]; its material is [selectMaterial] of that
    count, which sends 3 to the three-faces (corner) material, 2 to the
    two-faces (edge) material, 1 to the one-face (face) material and 0 to the
    interior material. *)
Theorem prism_exposedFaces_category
    (w h d : Z) (cubeSize spacing : R) (cx cy cz : Z) :
  (1 <= w)%Z -> (1 <= h)%Z -> (1 <= d)%Z ->
  (0 <= cx < w)%Z -> (0 <= cy < h)%Z -> (0 <= cz < d)%Z ->
  exists c : Prism.Cube,
    cubesAt cx cy cz
      (Prism.createRectangularPrismWithCubes w h d cubeSize spacing) = [c] /\
    Prism.exposedFaces c =
      (onBoundary cx w + onBoundary cy h + onBoundary cz d)%Z /\
    (0 <= onBoundary cx w <= 1)%Z /\ (0 <= onBoundary cy h <= 1)%Z /\
    (0 <= onBoundary cz d <= 1)%Z /\
    (0 <= Prism.exposedFaces c <= 3)%Z /\
    Prism.material c = Prism.selectMaterial (Prism.exposedFaces c) /\
    Prism.selectMaterial 3 = Prism.threeFacesExposedMaterial /\
    Prism.selectMaterial 2 = Prism.twoFacesExposedMaterial /\
    Prism.selectMaterial 1 = Prism.oneFaceExposedMaterial /\
    Prism.selectMaterial 0 = Prism.interiorCubeMaterial.
Proof.
  intros Hw Hh Hd Hx Hy Hz.
  exists (Prism.makeCube w h d cubeSize spacing cx cy cz).
  assert (E : Prism.exposedFaces (Prism.makeCube w h d cubeSize spacing cx cy cz)
              = (onBoundary cx w + onBoundary cy h + onBoundary cz d)%Z).
  { cbn [Prism.makeCube Prism.exposedFaces]. unfold Prism.countExposedFaces.
    rewrite !bump_onBoundary. lia. }
  pose proof (onBoundary_01 cx w). pose proof (onBoundary_01 cy h).
  pose proof (onBoundary_01 cz d).
  repeat split; try reflexivity; try lia.
  rewrite prism_cubesAt. unfold below.
  replace ((0 <=? cx)%Z && (cx <? w)%Z) with true by zcases.
  replace ((0 <=? cy)%Z && (cy <? h)%Z) with true by zcases.
  replace ((0 <=? cz)%Z && (cz <? d)%Z) with true by zcases.
  reflexivity.
Qed.

Lemma prism_exposedFaces_category_witness :
  exists c : Prism.Cube,
    cubesAt 1 0 5 (Prism.createRectangularPrismWithCubes 2 5 11 1 0.2) = [c] /\
    Prism.exposedFaces c = (onBoundary 1 2 + onBoundary 0 5 + onBoundary 5 11)%Z /\
    (0 <= onBoundary 1 2 <= 1)%Z /\ (0 <= onBoundary 0 5 <= 1)%Z /\
    (0 <= onBoundary 5 11 <= 1)%Z /\
    (0 <= Prism.exposedFaces c <= 3)%Z /\
    Prism.material c = Prism.selectMaterial (Prism.exposedFaces c) /\
    Prism.selectMaterial 3 = Prism.threeFacesExposedMaterial /\
    Prism.selectMaterial 2 = Prism.twoFacesExposedMaterial /\
    Prism.selectMaterial 1 = Prism.oneFaceExposedMaterial /\
    Prism.selectMaterial 0 = Prism.interiorCubeMaterial.
Proof.
  apply (prism_exposedFaces_category 2 5 11 1 0.2 1 0 5); lia.
Defined.

(** ** Sums over the output of loops *)

Lemma Rsum_app (l1 l2 : list R) : Rsum (l1 ++ l2) = Rsum l1 + Rsum l2.
Proof. induction l1 as [|a l1 IH]; simpl; [lra | rewrite IH; lra]. Qed.

Lemma Rsum_flat_map {A : Type} (g : A -> R) (F : Z -> list A) (ks : list Z) :
  Rsum (map g (flat_map F ks)) = Rsum (map (fun k => Rsum (map g (F k))) ks).
Proof.
  induction ks as [|k ks IH]; simpl; [reflexivity|].
  now rewrite map_app, Rsum_app, IH.
Qed.

Lemma Rsum_const (c : R) (ks : list Z) :
  Rsum (map (fun _ => c) ks) = INR (List.length ks) * c.
Proof.
  induction ks as [|k ks IH]; [simpl; lra|].
  cbn [map Rsum fold_right List.length]. fold (Rsum (map (fun _ => c) ks)).
  rewrite IH, S_INR. lra.
Qed.

Lemma Rsum_scale (a : R) (f : Z -> R) (ks : list Z) :
  Rsum (map (fun k => a * f k) ks) = a * Rsum (map f ks).
Proof.
  induction ks as [|k ks IH]; simpl; [lra|].
  fold (Rsum (map (fun k => a * f k) ks)). fold (Rsum (map f ks)).
  rewrite IH. lra.
Qed.

Lemma Rsum_affine (s c : R) (count : nat) (i : Z) :
  Rsum (map (fun k => IZR k * s + c) (zrange i count)) =
  s * (INR count * IZR i + INR count * (INR count - 1) / 2) + INR count * c.
Proof.
  revert i. induction count as [|n IH]; intros i.
  - simpl. lra.
  - cbn [zrange map Rsum fold_right].
    fold (Rsum (map (fun k => IZR k * s + c) (zrange (i + 1) n))).
    rewrite IH, S_INR, plus_IZR. lra.
Qed.

(** The placement rule sums to zero along an axis. *)
Lemma place_sum_zero (dim : Z) (cubeSize spacing : R) :
  (0 <= dim)%Z ->
  Rsum (map (fun c => Prism.place c dim cubeSize spacing)
            (zrange 0 (Z.to_nat dim))) = 0.
Proof.
  intros Hd. unfold Prism.place.
  rewrite (map_ext _ (fun k => IZR k * (cubeSize + spacing)
             + (- (IZR dim * (cubeSize + spacing) / 2) + (cubeSize + spacing) / 2))).
  2:{ intros k. lra. }
  rewrite Rsum_affine, INR_IZR_INZ, Z2Nat.id by exact Hd. lra.
Qed.

Section PrismSums.

Variables (width height depth : Z) (cubeSize spacing : R).

(** The sum of a quantity over the cubes is the triple sum over the loop
    counters. *)
Lemma prism_Rsum (g : Prism.Cube -> R) :
  Rsum (map g (Prism.createRectangularPrismWithCubes
                 width height depth cubeSize spacing)) =
  Rsum (map (fun cx =>
    Rsum (map (fun cy =>
      Rsum (map (fun cz =>
        g (Prism.makeCube width height depth cubeSize spacing cx cy cz))
        (zrange 0 (Z.to_nat depth))))
      (zrange 0 (Z.to_nat height))))
    (zrange 0 (Z.to_nat width))).
Proof.
  rewrite prism_unfold, Rsum_flat_map.
  f_equal. apply map_ext. intros cx.
  rewrite Rsum_flat_map.
  f_equal. apply map_ext. intros cy.
  rewrite Rsum_flat_map.
  f_equal. apply map_ext. intros cz. simpl. lra.
Qed.

Hypotheses (Hw : (0 <= width)%Z) (Hh : (0 <= height)%Z) (Hd : (0 <= depth)%Z).

Let group := Prism.createRectangularPrismWithCubes width height depth cubeSize spacing.

Lemma prism_sum_x : Rsum (map (fun c => x (Prism.position c)) group) = 0.
Proof.
  unfold group. rewrite prism_Rsum. cbn [Prism.makeCube Prism.position x].
  rewrite (map_ext _ (fun cx =>
    (INR (Z.to_nat height) * INR (Z.to_nat depth))
    * Prism.place cx width cubeSize spacing)).
  2:{ intros cx. rewrite Rsum_const, zrange_length.
      rewrite Rsum_const, zrange_length. ring. }
  rewrite Rsum_scale, place_sum_zero by exact Hw. ring.
Qed.

Lemma prism_sum_y : Rsum (map (fun c => y (Prism.position c)) group) = 0.
Proof.
  unfold group. rewrite prism_Rsum. cbn [Prism.makeCube Prism.position y].
  rewrite (map_ext _ (fun _ => 0)).
  2:{ intros cx.
      rewrite (map_ext _ (fun cy =>
        INR (Z.to_nat depth) * Prism.place cy height cubeSize spacing)).
      2:{ intros cy. now rewrite Rsum_const, zrange_length. }
      rewrite Rsum_scale, place_sum_zero by exact Hh. ring. }
  rewrite Rsum_const. ring.
Qed.

Lemma prism_sum_z : Rsum (map (fun c => z (Prism.position c)) group) = 0.
Proof.
  unfold group. rewrite prism_Rsum. cbn [Prism.makeCube Prism.position z].
  rewrite (map_ext _ (fun _ => 0)).
  2:{ intros cx. rewrite (map_ext _ (fun _ => 0)).
      2:{ intros cy. now apply place_sum_zero. }
      rewrite Rsum_const. ring. }
  rewrite Rsum_const. ring.
Qed.

End PrismSums.

(** C8.  Every cube of the grid is placed, on each axis, at
    [coord * (size + spacing) - (dimension * (size + spacing)) / 2
     + (size + spacing) / 2]; and for positive dimensions, size and spacing
    the arithmetic mean of the positions of all cubes is the origin. *)
Theorem prism_placement_centred (w h d : Z) (cubeSize spacing : R) :
  (0 < w)%Z -> (0 < h)%Z -> (0 < d)%Z -> 0 < cubeSize -> 0 < spacing ->
  let group := Prism.createRectangularPrismWithCubes w h d cubeSize spacing in
  (forall c, In c group ->
     Prism.position c =
     mkVector3
       (IZR (Prism.gx c) * (cubeSize + spacing) - (IZR w * (cubeSize + spacing)) / 2
        + (cubeSize + spacing) / 2)
       (IZR (Prism.gy c) * (cubeSize + spacing) - (IZR h * (cubeSize + spacing)) / 2
        + (cubeSize + spacing) / 2)
       (IZR (Prism.gz c) * (cubeSize + spacing) - (IZR d * (cubeSize + spacing)) / 2
        + (cubeSize + spacing) / 2)) /\
  List.length group = Z.to_nat (w * h * d) /\
  mean (map Prism.position group) = mkVector3 0 0 0.
Proof.
  intros Hw Hh Hd _ _ group. split; [|split].
  - intros c Hc. apply prism_In in Hc as (cx & cy & cz & _ & _ & _ & ->).
    reflexivity.
  - unfold group. rewrite prism_length. lia.
  - unfold mean. rewrite !map_map.
    unfold group.
    rewrite prism_sum_x, prism_sum_y, prism_sum_z by lia.
    f_equal; unfold Rdiv; apply Rmult_0_l.
Qed.

Lemma prism_placement_centred_witness :
  let group := Prism.createRectangularPrismWithCubes 2 5 11 1 0.2 in
  (forall c, In c group ->
     Prism.position c =
     mkVector3
       (IZR (Prism.gx c) * (1 + 0.2) - (IZR 2 * (1 + 0.2)) / 2 + (1 + 0.2) / 2)
       (IZR (Prism.gy c) * (1 + 0.2) - (IZR 5 * (1 + 0.2)) / 2 + (1 + 0.2) / 2)
       (IZR (Prism.gz c) * (1 + 0.2) - (IZR 11 * (1 + 0.2)) / 2 + (1 + 0.2) / 2)) /\
  List.length group = Z.to_nat (2 * 5 * 11) /\
  mean (map Prism.position group) = mkVector3 0 0 0.
Proof.
  apply (prism_placement_centred 2 5 11 1 0.2); (lia || lra).
Defined.

(** ** The atoms of the diamond lattice *)

Lemma withAtoms_app (st : Diamond.Build) (l1 l2 : list Vector3) :
  withAtoms (withAtoms st l1) l2 = withAtoms st (l1 ++ l2).
Proof.
  unfold withAtoms. simpl. now rewrite map_app, <- !app_assoc.
Qed.

Lemma withAtoms_nil (st : Diamond.Build) : withAtoms st [] = st.
Proof. destruct st. unfold withAtoms. simpl. now rewrite !app_nil_r. Qed.

(** A loop whose body creates and pushes the atoms [F k] has created and
    pushed the atoms of all its iterations. *)
Lemma for_from_withAtoms (F : Z -> list Vector3) (count : nat) (i : Z)
    (st : Diamond.Build) :
  for_from i count (fun k st => withAtoms st (F k)) st =
  withAtoms st (flat_map F (zrange i count)).
Proof.
  revert i st. induction count as [|n IH]; intros i st; simpl.
  - now rewrite withAtoms_nil.
  - now rewrite IH, withAtoms_app.
Qed.

Section DiamondAtoms.

Variables (cellsX cellsY cellsZ : Z) (unitCellSize : R).

Lemma placePair_cell (cx cy cz : Z) (st : Diamond.Build) :
  fold_left
    (Diamond.placePair unitCellSize
       ((IZR cx - IZR cellsX / 2) * unitCellSize)
       ((IZR cy - IZR cellsY / 2) * unitCellSize)
       ((IZR cz - IZR cellsZ / 2) * unitCellSize))
    Diamond.fccPositions st =
  withAtoms st (cellAtoms cellsX cellsY cellsZ unitCellSize cx cy cz).
Proof.
  unfold withAtoms, cellAtoms, Diamond.fccPositions, fccOffsets,
    Diamond.placePair, Diamond.createAtom, cellBase, add, multiplyScalar.
  cbn [fold_left flat_map Diamond.diamondGroup Diamond.atomPositions
       x y z map app].
  f_equal; rewrite <- !app_assoc; reflexivity.
Qed.

(** The state of the builder when the cell loops are done. *)
Lemma diamond_cells_unfold :
  for_lt cellsX (fun cx st =>
    for_lt cellsY (fun cy st =>
      for_lt cellsZ (fun cz st =>
        let baseX := (IZR cx - IZR cellsX / 2) * unitCellSize in
        let baseY := (IZR cy - IZR cellsY / 2) * unitCellSize in
        let baseZ := (IZR cz - IZR cellsZ / 2) * unitCellSize in
        fold_left (Diamond.placePair unitCellSize baseX baseY baseZ)
                  Diamond.fccPositions st)
      st)
    st)
  (Diamond.mkBuild [] []) =
  Diamond.mkBuild
    (map Diamond.AtomMesh (latticeAtoms cellsX cellsY cellsZ unitCellSize))
    (latticeAtoms cellsX cellsY cellsZ unitCellSize).
Proof.
  unfold for_lt.
  erewrite for_from_ext.
  - rewrite for_from_withAtoms. reflexivity.
  - intros cx st. cbv beta. erewrite for_from_ext.
    + rewrite for_from_withAtoms. reflexivity.
    + intros cy st'. cbv beta. erewrite for_from_ext.
      * rewrite for_from_withAtoms. reflexivity.
      * intros cz st''. cbv zeta. apply placePair_cell.
Qed.

Lemma diamond_atomPositions :
  Diamond.atomPositions
    (Diamond.createDiamondStructure cellsX cellsY cellsZ unitCellSize) =
  latticeAtoms cellsX cellsY cellsZ unitCellSize.
Proof.
  unfold Diamond.createDiamondStructure.
  pose proof diamond_cells_unfold as E. cbv zeta in E |- *.
  rewrite E. reflexivity.
Qed.

Lemma latticeAtoms_length :
  List.length (latticeAtoms cellsX cellsY cellsZ unitCellSize) =
  (Z.to_nat cellsX * (Z.to_nat cellsY * (Z.to_nat cellsZ * 8)))%nat.
Proof.
  unfold latticeAtoms.
  rewrite (flat_map_length_const _ (Z.to_nat cellsY * (Z.to_nat cellsZ * 8))),
    zrange_length; [reflexivity|].
  intros cx.
  rewrite (flat_map_length_const _ (Z.to_nat cellsZ * 8)), zrange_length;
    [reflexivity|].
  intros cy.
  rewrite (flat_map_length_const _ 8%nat), zrange_length; reflexivity.
Qed.

End DiamondAtoms.

(** ** The pair scan *)

Lemma createBonds_unfold (ps : list Vector3) (unitCellSize : R)
    (group : list Diamond.Object3D) :
  Diamond.createBonds ps unitCellSize group = group ++ bondScan ps.
Proof.
  unfold Diamond.createBonds, bondScan, for_lt. cbv zeta.
  erewrite for_from_ext.
  - rewrite for_from_append. reflexivity.
  - intros i g. cbv beta. erewrite for_from_ext.
    + rewrite for_from_append. reflexivity.
    + intros j g'. cbv beta. unfold bondIf. cbv zeta.
      destruct (Rlt_dec _ _); [reflexivity | now rewrite app_nil_r].
Qed.

Lemma diamond_group (cellsX cellsY cellsZ : Z) (unitCellSize : R) :
  Diamond.diamondGroup
    (Diamond.createDiamondStructure cellsX cellsY cellsZ unitCellSize) =
  map Diamond.AtomMesh (latticeAtoms cellsX cellsY cellsZ unitCellSize)
  ++ bondScan (latticeAtoms cellsX cellsY cellsZ unitCellSize).
Proof.
  unfold Diamond.createDiamondStructure.
  pose proof (diamond_cells_unfold cellsX cellsY cellsZ unitCellSize) as E.
  cbv zeta in E |- *. rewrite E. cbn [Diamond.diamondGroup Diamond.atomPositions].
  apply createBonds_unfold.
Qed.

Lemma atoms_of_meshes (ps : list Vector3) :
  Diamond.atoms (map Diamond.AtomMesh ps) = ps.
Proof. induction ps as [|p ps IH]; simpl; [reflexivity | now rewrite IH]. Qed.

Lemma bonds_of_meshes (ps : list Vector3) :
  Diamond.bonds (map Diamond.AtomMesh ps) = [].
Proof. induction ps as [|p ps IH]; simpl; [reflexivity | exact IH]. Qed.

Lemma atoms_of_scan (ps : list Vector3) : Diamond.atoms (bondScan ps) = [].
Proof.
  unfold bondScan. cbv zeta. unfold Diamond.atoms.
  generalize (zrange 0 (Z.to_nat (Z.of_nat (List.length ps)))) as ks.
  induction ks as [|i ks IH]; [reflexivity|].
  cbn [flat_map]. rewrite flat_map_app, IH, app_nil_r.
  generalize (zrange (i + 1) (Z.to_nat (Z.of_nat (List.length ps) - (i + 1)))) as js.
  induction js as [|j js IHj]; [reflexivity|].
  cbn [flat_map]. rewrite flat_map_app, IHj, app_nil_r.
  unfold bondIf. cbv zeta. destruct (Rlt_dec _ _); reflexivity.
Qed.

(** C4.  For non-negative cell counts the builder emits, cell after cell,
    the 8 atoms of the cell: for each of the 4 FCC offsets the primary atom
    at [base + offset * latticeConstant], with
    [base(axis) = (coord - cellsDim / 2) * latticeConstant], followed by the
    second atom at [primary + (0.25, 0.25, 0.25) * latticeConstant]; each
    pushed position has its mesh in the group; the number of atoms is
    [8 * cellsX * cellsY * cellsZ], and the lattice of the source
    ([2 x 2 x 2] cells, lattice constant 3.57) has 64 atoms. *)
Theorem diamond_atoms_per_cell (cellsX cellsY cellsZ : Z) (latticeConstant : R) :
  (0 <= cellsX)%Z -> (0 <= cellsY)%Z -> (0 <= cellsZ)%Z ->
  let built := Diamond.createDiamondStructure cellsX cellsY cellsZ latticeConstant in
  Diamond.atomPositions built =
    latticeAtoms cellsX cellsY cellsZ latticeConstant /\
  Diamond.atoms (Diamond.diamondGroup built) = Diamond.atomPositions built /\
  (forall cx cy cz,
     List.length (cellAtoms cellsX cellsY cellsZ latticeConstant cx cy cz) = 8%nat) /\
  Z.of_nat (List.length (Diamond.atomPositions built)) =
    (8 * cellsX * cellsY * cellsZ)%Z /\
  List.length (Diamond.atomPositions Diamond.diamond) = 64%nat.
Proof.
  intros Hx Hy Hz built. unfold built.
  split; [apply diamond_atomPositions|].
  split.
  { rewrite diamond_group, diamond_atomPositions.
    unfold Diamond.atoms at 1. rewrite flat_map_app.
    fold (Diamond.atoms (map Diamond.AtomMesh
            (latticeAtoms cellsX cellsY cellsZ latticeConstant))).
    fold (Diamond.atoms (bondScan (latticeAtoms cellsX cellsY cellsZ latticeConstant))).
    now rewrite atoms_of_meshes, atoms_of_scan, app_nil_r. }
  split; [reflexivity|].
  split.
  - rewrite diamond_atomPositions, latticeAtoms_length. lia.
  - unfold Diamond.diamond. rewrite diamond_atomPositions, latticeAtoms_length.
    reflexivity.
Qed.

Lemma diamond_atoms_per_cell_witness :
  let built := Diamond.createDiamondStructure 2 2 2 3.57 in
  Diamond.atomPositions built = latticeAtoms 2 2 2 3.57 /\
  Diamond.atoms (Diamond.diamondGroup built) = Diamond.atomPositions built /\
  (forall cx cy cz, List.length (cellAtoms 2 2 2 3.57 cx cy cz) = 8%nat) /\
  Z.of_nat (List.length (Diamond.atomPositions built)) = (8 * 2 * 2 * 2)%Z /\
  List.length (Diamond.atomPositions Diamond.diamond) = 64%nat.
Proof.
  apply (diamond_atoms_per_cell 2 2 2 3.57); lia.
Defined.

Lemma distanceTo_sym (a b : Vector3) : distanceTo a b = distanceTo b a.
Proof. unfold distanceTo, distanceToSquared. f_equal. ring. Qed.

Lemma length_subVectors (a b : Vector3) : length (subVectors b a) = distanceTo a b.
Proof.
  unfold length, lengthSq, distanceTo, distanceToSquared, subVectors. simpl.
  f_equal. ring.
Qed.

Lemma bonds_flat_map (F : Z -> list Diamond.Object3D) (ks : list Z) :
  Diamond.bonds (flat_map F ks) = flat_map (fun k => Diamond.bonds (F k)) ks.
Proof.
  induction ks as [|k ks IH]; [reflexivity|].
  cbn [flat_map]. unfold Diamond.bonds in *. now rewrite flat_map_app, IH.
Qed.

Lemma bonds_bondIf (ps : list Vector3) (i j : Z) :
  Diamond.bonds (bondIf ps i j) =
  if Rlt_dec (distanceTo (Diamond.item ps i) (Diamond.item ps j))
             Diamond.maxBondDistance
  then [bondOf ps i j] else [].
Proof.
  unfold bondIf. cbv zeta. destruct (Rlt_dec _ _); reflexivity.
Qed.

(** The bonds of the pair scan, as a double loop over the bonds alone. *)
Lemma bonds_bondScan (ps : list Vector3) :
  Diamond.bonds (bondScan ps) =
  flat_map (fun i =>
    flat_map (fun j => Diamond.bonds (bondIf ps i j))
      (zrange (i + 1) (Z.to_nat (Z.of_nat (List.length ps) - (i + 1)))))
    (zrange 0 (Z.to_nat (Z.of_nat (List.length ps)))).
Proof.
  unfold bondScan. cbv zeta. rewrite bonds_flat_map.
  apply flat_map_ext. intros i. apply bonds_flat_map.
Qed.

Lemma bondScan_In (ps : list Vector3) (b : Diamond.Bond) :
  In b (Diamond.bonds (bondScan ps)) <->
  exists i j,
    (0 <= i < j)%Z /\ (j < Z.of_nat (List.length ps))%Z /\
    distanceTo (Diamond.item ps i) (Diamond.item ps j) < Diamond.maxBondDistance /\
    b = bondOf ps i j.
Proof.
  rewrite bonds_bondScan. split.
  - intros H. apply in_flat_map in H as (i & Hi & H).
    apply in_flat_map in H as (j & Hj & H).
    apply zrange_In in Hi, Hj. rewrite bonds_bondIf in H.
    destruct (Rlt_dec _ _) as [Hd|Hd]; [|contradiction].
    destruct H as [<-|[]]. exists i, j. repeat split; try lia. exact Hd.
  - intros (i & j & Hij & Hj & Hd & ->).
    apply in_flat_map. exists i. split; [apply zrange_In; lia|].
    apply in_flat_map. exists j. split; [apply zrange_In; lia|].
    rewrite bonds_bondIf. destruct (Rlt_dec _ _); [now left | contradiction].
Qed.

(** How many bonds the scan creates on the ordered pair [(i, j)]. *)
Lemma bondScan_fromTo (ps : list Vector3) (i j : Z) :
  bondsFromTo i j (Diamond.bonds (bondScan ps)) =
  if below (Z.of_nat (List.length ps)) i && (i <? j)%Z
     && (j <? Z.of_nat (List.length ps))%Z
  then (if Rlt_dec (distanceTo (Diamond.item ps i) (Diamond.item ps j))
                   Diamond.maxBondDistance
        then [bondOf ps i j] else [])
  else [].
Proof.
  rewrite bonds_bondScan. unfold bondsFromTo.
  rewrite (filter_flat_map_zrange _ _ i).
  2:{ intros k b Hb Hp. apply in_flat_map in Hb as (k' & _ & Hb).
      rewrite bonds_bondIf in Hb. destruct (Rlt_dec _ _); [|contradiction].
      destruct Hb as [<-|[]]. simpl in Hp. lia. }
  rewrite (filter_flat_map_zrange _ _ j).
  2:{ intros k b Hb Hp.
      rewrite bonds_bondIf in Hb. destruct (Rlt_dec _ _); [|contradiction].
      destruct Hb as [<-|[]]. simpl in Hp. lia. }
  rewrite bonds_bondIf. unfold below.
  destruct (Rlt_dec _ _).
  - cbn [filter bondOf Diamond.end1 Diamond.end2]. rewrite !Z.eqb_refl. simpl.
    zcases.
  - simpl. zcases.
Qed.

(** The bonds in the group of the builder are those of the pair scan over
    its atoms. *)
Lemma diamond_bonds_scan (cellsX cellsY cellsZ : Z) (latticeConstant : R) :
  let built := Diamond.createDiamondStructure cellsX cellsY cellsZ latticeConstant in
  Diamond.bonds (Diamond.diamondGroup built) =
  Diamond.bonds (bondScan (Diamond.atomPositions built)).
Proof.
  intros built. unfold built. rewrite diamond_group, diamond_atomPositions.
  unfold Diamond.bonds at 1. rewrite flat_map_app.
  fold (Diamond.bonds (map Diamond.AtomMesh
          (latticeAtoms cellsX cellsY cellsZ latticeConstant))).
  now rewrite bonds_of_meshes.
Qed.

(** C3.  The bonds in the group of the diamond builder are exactly the
    pairs of atoms closer than the threshold: every bond joins two distinct
    entries [i < j] of [atomPositions] whose distance is strictly below the
    threshold (its midpoint and length are those of the two atoms); every
    pair [i < j] with distance below the threshold has a bond; no ordered
    pair has more than one bond and none is created on [(i, j)] with
    [j <= i], so no unordered pair is counted twice; and the threshold is the
    constant 1.8, whatever lattice constant is passed. *)
Theorem diamond_bonds_exact (cellsX cellsY cellsZ : Z) (latticeConstant : R) :
  let built := Diamond.createDiamondStructure cellsX cellsY cellsZ latticeConstant in
  let ps := Diamond.atomPositions built in
  let bs := Diamond.bonds (Diamond.diamondGroup built) in
  let n := Z.of_nat (List.length ps) in
  (forall b, In b bs ->
     (0 <= Diamond.end1 b < Diamond.end2 b)%Z /\ (Diamond.end2 b < n)%Z /\
     distanceTo (Diamond.item ps (Diamond.end1 b)) (Diamond.item ps (Diamond.end2 b))
       < 1.8 /\
     Diamond.bondLength b =
       distanceTo (Diamond.item ps (Diamond.end1 b)) (Diamond.item ps (Diamond.end2 b)) /\
     Diamond.midpoint b =
       multiplyScalar (add (Diamond.item ps (Diamond.end1 b))
                           (Diamond.item ps (Diamond.end2 b))) 0.5) /\
  (forall i j, (0 <= i < j)%Z -> (j < n)%Z ->
     distanceTo (Diamond.item ps i) (Diamond.item ps j) < 1.8 ->
     exists b, In b bs /\ Diamond.end1 b = i /\ Diamond.end2 b = j) /\
  (forall i j, (List.length (bondsFromTo i j bs) <= 1)%nat) /\
  (forall i j, (j <= i)%Z -> bondsFromTo i j bs = []) /\
  Diamond.maxBondDistance = 1.8 /\
  (forall group other,
     Diamond.createBonds ps other group =
     Diamond.createBonds ps latticeConstant group).
Proof.
  intros built ps bs n.
  assert (Ebs : bs = Diamond.bonds (bondScan ps))
    by apply diamond_bonds_scan.
  rewrite Ebs. repeat split.
  1-6: apply bondScan_In in H as (i & j & Hij & Hj & Hd & ->);
       cbn [bondOf Diamond.end1 Diamond.end2 Diamond.bondLength Diamond.midpoint];
       try lia; try exact Hd; try apply length_subVectors; try reflexivity.
  - intros i j Hij Hj Hd. exists (bondOf ps i j). split; [|split; reflexivity].
    apply bondScan_In. exists i, j. repeat split; try lia. exact Hd.
  - intros i j. rewrite bondScan_fromTo.
    destruct (_ && _); [destruct (Rlt_dec _ _)|]; simpl; lia.
  - intros i j Hji. rewrite bondScan_fromTo. unfold below. zcases.
Qed.

(** ** The lattice of the source: sublattices and bond lengths *)

Lemma map_flat_map_zrange {A B : Type} (f : A -> B) (F : Z -> list A) (ks : list Z) :
  map f (flat_map F ks) = flat_map (fun k => map f (F k)) ks.
Proof.
  induction ks as [|k ks IH]; [reflexivity|].
  cbn [flat_map]. now rewrite map_app, IH.
Qed.

Lemma cellAtoms_sites (cellsX cellsY cellsZ : Z) (a : R) (cx cy cz : Z) :
  cellAtoms cellsX cellsY cellsZ a cx cy cz =
  map (sitePoint a) (cellSites cellsX cellsY cellsZ cx cy cz).
Proof.
  unfold cellAtoms, cellSites, fccOffsets, cellBase, add, multiplyScalar, sitePoint.
  cbn [flat_map map app x y z].
  repeat (f_equal; try (rewrite ?plus_IZR, ?minus_IZR, ?mult_IZR; lra)).
Qed.

Lemma latticeAtoms_sites (cellsX cellsY cellsZ : Z) (a : R) :
  latticeAtoms cellsX cellsY cellsZ a =
  map (sitePoint a) (latticeSites cellsX cellsY cellsZ).
Proof.
  unfold latticeAtoms, latticeSites.
  rewrite map_flat_map_zrange. apply flat_map_ext. intros cx.
  rewrite map_flat_map_zrange. apply flat_map_ext. intros cy.
  rewrite map_flat_map_zrange. apply flat_map_ext. intros cz.
  apply cellAtoms_sites.
Qed.

Lemma sitePoint_distanceToSquared (a : R) (p q : Site) :
  distanceToSquared (sitePoint a p) (sitePoint a q) =
  IZR (siteDistSq p q) * (a / 4 * (a / 4)).
Proof.
  destruct p as [[px py] pz], q as [[qx qy] qz].
  unfold distanceToSquared, sitePoint, siteDistSq. cbn [x y z].
  rewrite !plus_IZR, !mult_IZR, !minus_IZR. ring.
Qed.

Lemma allPairs_spec (n : nat) (test : Z -> Z -> bool) :
  allPairs n test = true ->
  forall i j, (0 <= i < j)%Z -> (j < Z.of_nat n)%Z -> test i j = true.
Proof.
  unfold allPairs. intros H i j Hij Hj.
  rewrite forallb_forall in H.
  assert (Hi : In i (zrange 0 n)) by (apply zrange_In; lia).
  specialize (H i Hi). rewrite forallb_forall in H.
  apply H. apply zrange_In. lia.
Qed.

Section SourceLattice.

Let a : R := 3.57.
Let sites : list Site := latticeSites 2 2 2.
Let ps : list Vector3 := Diamond.atomPositions Diamond.diamond.

Lemma diamond_item (k : Z) :
  (0 <= k < 64)%Z -> Diamond.item ps k = sitePoint a (siteAt sites k).
Proof.
  intros Hk. unfold ps, Diamond.diamond.
  rewrite diamond_atomPositions, latticeAtoms_sites.
  unfold Diamond.item, siteAt.
  rewrite (nth_indep _ zero (sitePoint 3.57 (0, 0, 0)%Z)).
  - apply map_nth.
  - rewrite length_map. change (List.length (latticeSites 2 2 2)) with 64%nat. lia.
Qed.

Lemma diamond_distance (i j : Z) :
  (0 <= i < 64)%Z -> (0 <= j < 64)%Z ->
  distanceTo (Diamond.item ps i) (Diamond.item ps j) =
  sqrt (IZR (siteDistSq (siteAt sites i) (siteAt sites j)) * (a / 4 * (a / 4))).
Proof.
  intros Hi Hj. rewrite !diamond_item by assumption.
  unfold distanceTo. now rewrite sitePoint_distanceToSquared.
Qed.

(** Closer than the threshold means at most 4 squared quarter-cells. *)
Lemma near_sites (D : Z) :
  sqrt (IZR D * (a / 4 * (a / 4))) < 1.8 -> (D <= 4)%Z.
Proof.
  intros H. destruct (Z_le_gt_dec D 4) as [Hle|Hgt]; [exact Hle|exfalso].
  assert (H5 : 5 <= IZR D) by (apply IZR_le; lia).
  assert (Hs : sqrt (1.8 * 1.8) = 1.8) by (apply sqrt_square; lra).
  rewrite <- Hs in H. apply sqrt_lt_0_alt in H. unfold a in H. nra.
Qed.

Lemma bond_sites :
  sqrt (IZR 3 * (a / 4 * (a / 4))) = sqrt 3 / 4 * 3.57.
Proof.
  rewrite sqrt_mult by (unfold a; lra).
  rewrite sqrt_square by (unfold a; lra). unfold a. lra.
Qed.

Lemma half_diagonal : a / sqrt 2 = sqrt (IZR 8 * (a / 4 * (a / 4))).
Proof.
  replace (IZR 8 * (a / 4 * (a / 4))) with (a * a / 2) by (unfold a; lra).
  rewrite sqrt_div_alt by lra.
  rewrite sqrt_square by (unfold a; lra). reflexivity.
Qed.

Lemma far_sites (D : Z) :
  (8 <= D)%Z -> a / sqrt 2 <= sqrt (IZR D * (a / 4 * (a / 4))).
Proof.
  intros H. rewrite half_diagonal. apply sqrt_le_1_alt.
  apply IZR_le in H. unfold a. nra.
Qed.

Lemma threshold_below_half_diagonal : 1.8 < a / sqrt 2.
Proof.
  rewrite half_diagonal.
  assert (Hs : sqrt (1.8 * 1.8) = 1.8) by (apply sqrt_square; lra).
  rewrite <- Hs at 1. apply sqrt_lt_1_alt. unfold a. lra.
Qed.

(** The table of site distances of the 64 atoms: a pair within 4 squared
    quarter-cells is at exactly 3 and has indices of different parity; a
    pair of equal parity is at 8 or more. *)
Lemma site_table :
  allPairs 64 (fun i j =>
    let D := siteDistSq (siteAt sites i) (siteAt sites j) in
    (if (D <=? 4)%Z
     then (D =? 3)%Z && negb (Bool.eqb (Z.odd i) (Z.odd j)) else true)
    && (if Bool.eqb (Z.odd i) (Z.odd j) then (8 <=? D)%Z else true)) = true.
Proof. vm_compute. reflexivity. Qed.

Lemma site_pairs :
  forallb (fun m =>
    let '(kx, ky, kz) := siteAt sites (2 * m) in
    let '(lx, ly, lz) := siteAt sites (2 * m + 1) in
    (lx =? kx + 1)%Z && (ly =? ky + 1)%Z && (lz =? kz + 1)%Z)
    (zrange 0 32) = true.
Proof. vm_compute. reflexivity. Qed.

End SourceLattice.

(** C10.  In the lattice of the source ([2 x 2 x 2] cells, lattice constant
    3.57, threshold 1.8) the atoms alternate in [atomPositions] between the
    first FCC sublattice (even index) and the second (odd index, its
    predecessor shifted by a quarter of the lattice constant on every axis).
    Every bond joins an atom of one sublattice to an atom of the other and
    has length [sqrt 3 / 4 * 3.57]; two atoms of the same sublattice are at
    least [3.57 / sqrt 2] apart, a distance that is attained and exceeds the
    threshold; and there are bonds. *)
Theorem diamond_bonds_join_sublattices :
  let ps := Diamond.atomPositions Diamond.diamond in
  let bs := Diamond.bonds (Diamond.diamondGroup Diamond.diamond) in
  (forall m, (0 <= m < 32)%Z ->
     Diamond.item ps (2 * m + 1) =
     add (Diamond.item ps (2 * m))
         (multiplyScalar (mkVector3 0.25 0.25 0.25) 3.57)) /\
  (forall b, In b bs ->
     Z.odd (Diamond.end1 b) <> Z.odd (Diamond.end2 b) /\
     Diamond.bondLength b = sqrt 3 / 4 * 3.57) /\
  (forall i j, (0 <= i < j)%Z -> (j < 64)%Z -> Z.odd i = Z.odd j ->
     3.57 / sqrt 2 <= distanceTo (Diamond.item ps i) (Diamond.item ps j)) /\
  distanceTo (Diamond.item ps 0) (Diamond.item ps 2) = 3.57 / sqrt 2 /\
  1.8 < 3.57 / sqrt 2 /\
  (exists b, In b bs /\ Diamond.end1 b = 0%Z /\ Diamond.end2 b = 1%Z).
Proof.
  intros ps bs.
  pose proof (allPairs_spec _ _ site_table) as T. cbv zeta in T.
  assert (Ebs : bs = Diamond.bonds (bondScan ps))
    by apply (diamond_bonds_scan 2 2 2 3.57).
  assert (Hn : Z.of_nat (List.length ps) = 64%Z).
  { unfold ps, Diamond.diamond.
    now rewrite diamond_atomPositions, latticeAtoms_length. }
  split; [|split; [|split; [|split; [|split]]]].
  - intros m Hm.
    pose proof site_pairs as P. rewrite forallb_forall in P.
    specialize (P m). rewrite zrange_In in P. specialize (P ltac:(lia)).
    unfold ps. rewrite !diamond_item by lia.
    destruct (siteAt (latticeSites 2 2 2) (2 * m)) as [[kx ky] kz].
    destruct (siteAt (latticeSites 2 2 2) (2 * m + 1)) as [[lx ly] lz].
    apply andb_prop in P as [P Pz]. apply andb_prop in P as [Px Py].
    apply Z.eqb_eq in Px, Py, Pz. subst lx ly lz.
    unfold sitePoint, add, multiplyScalar. cbn [x y z].
    rewrite !plus_IZR. f_equal; lra.
  - intros b Hb. rewrite Ebs in Hb.
    apply bondScan_In in Hb as (i & j & H12 & H2 & Hd & ->).
    rewrite Hn in H2.
    cbn [bondOf Diamond.end1 Diamond.end2 Diamond.bondLength].
    rewrite length_subVectors.
    unfold ps in Hd |- *. rewrite diamond_distance in Hd |- * by lia.
    apply near_sites in Hd.
    specialize (T _ _ H12 H2). apply andb_prop in T as [T _].
    apply Z.leb_le in Hd. rewrite Hd in T.
    apply andb_prop in T as [T3 Tp]. apply Z.eqb_eq in T3. rewrite T3.
    split; [|apply bond_sites].
    intros E. rewrite E in Tp. now rewrite Bool.eqb_reflx in Tp.
  - intros i j Hij Hj Hp.
    unfold ps. rewrite diamond_distance by lia.
    specialize (T _ _ Hij Hj). apply andb_prop in T as [_ T].
    rewrite Hp, Bool.eqb_reflx in T. apply Z.leb_le in T.
    now apply far_sites.
  - unfold ps. rewrite diamond_distance by lia.
    change (siteDistSq (siteAt (latticeSites 2 2 2) 0) (siteAt (latticeSites 2 2 2) 2))
      with 8%Z.
    symmetry. apply half_diagonal.
  - apply threshold_below_half_diagonal.
  - exists (bondOf ps 0 1). split; [|split; reflexivity].
    rewrite Ebs. apply bondScan_In. exists 0%Z, 1%Z.
    split; [lia|]. split; [lia|]. split; [|reflexivity].
    unfold Diamond.maxBondDistance.
    unfold ps. rewrite diamond_distance by lia.
    change (siteDistSq (siteAt (latticeSites 2 2 2) 0) (siteAt (latticeSites 2 2 2) 1))
      with 3%Z.
    rewrite bond_sites.
    assert (sqrt 3 < 2).
    { replace 2 with (sqrt (2 * 2)) by (apply sqrt_square; lra).
      apply sqrt_lt_1_alt. lra. }
    lra.
Qed.

(** ** Vectors *)

Lemma sqrt3_sq : sqrt 3 * sqrt 3 = 3.
Proof. apply sqrt_sqrt. lra. Qed.

Lemma sqrt3_bounds : 1.7 < sqrt 3 < 1.8.
Proof.
  split.
  - replace 1.7 with (sqrt (1.7 * 1.7)) by (apply sqrt_square; lra).
    apply sqrt_lt_1_alt. lra.
  - replace 1.8 with (sqrt (1.8 * 1.8)) by (apply sqrt_square; lra).
    apply sqrt_lt_1_alt. lra.
Qed.

Lemma lengthSq_nonneg (v : Vector3) : 0 <= lengthSq v.
Proof. unfold lengthSq. nra. Qed.

Lemma length_multiplyScalar (v : Vector3) (k : R) :
  0 <= k -> length (multiplyScalar v k) = k * length v.
Proof.
  intros Hk. unfold length.
  replace (lengthSq (multiplyScalar v k)) with (k * k * lengthSq v)
    by (unfold lengthSq, multiplyScalar; simpl; ring).
  rewrite sqrt_mult by (try apply lengthSq_nonneg; nra).
  now rewrite sqrt_square.
Qed.

Lemma normalize_nonzero (v : Vector3) :
  0 < length v -> normalize v = multiplyScalar v (1 / length v).
Proof.
  intros H. unfold normalize, divideScalar.
  destruct (Req_dec_T (length v) 0) as [E|_]; [lra | reflexivity].
Qed.

(** A vector of non-zero length is normalized to a unit vector. *)
Lemma normalize_unit (v : Vector3) : 0 < length v -> length (normalize v) = 1.
Proof.
  intros H. rewrite normalize_nonzero by exact H.
  rewrite length_multiplyScalar.
  - field. lra.
  - apply Rlt_le. apply Rdiv_lt_0_compat; lra.
Qed.

Lemma distanceTo_subVectors (m u : Vector3) : distanceTo (subVectors m u) m = length u.
Proof.
  unfold distanceTo, distanceToSquared, length, lengthSq, subVectors. simpl.
  f_equal. ring.
Qed.

(** Stepping back from [m] against [w]. *)
Lemma step_back (m w : Vector3) (k l : R) :
  l <> 0 ->
  subVectors (subVectors m (multiplyScalar (multiplyScalar w (1 / l)) k)) m =
  multiplyScalar w (- (k / l)).
Proof.
  intros Hl. destruct m as [mx my mz], w as [wx wy wz].
  unfold subVectors, multiplyScalar. simpl. f_equal; field; exact Hl.
Qed.

(** ** The central tetrahedron and the new vertices *)

Lemma central_vertices (scale : R) :
  Tetra.vertices (central scale) =
  [ mkVector3 scale scale scale; mkVector3 scale (- scale) (- scale);
    mkVector3 (- scale) scale (- scale); mkVector3 (- scale) (- scale) scale ].
Proof.
  unfold central, Tetra.createRegularTetrahedron, add, multiplyScalar. simpl.
  repeat (f_equal; try ring).
Qed.

Lemma centralVertex_cases (scale : R) :
  centralVertex scale 0 = mkVector3 scale scale scale /\
  centralVertex scale 1 = mkVector3 scale (- scale) (- scale) /\
  centralVertex scale 2 = mkVector3 (- scale) scale (- scale) /\
  centralVertex scale 3 = mkVector3 (- scale) (- scale) scale.
Proof.
  unfold centralVertex. rewrite central_vertices. repeat split.
Qed.

(** The centroid of the shared face, as the code computes it. *)
Lemma sharedCentroid_code (scale : R) (i : Z) :
  sharedCentroid scale i =
  divideScalar
    (add (add (add zero (centralVertex scale i))
              (centralVertex scale ((i + 1) mod 4)))
         (centralVertex scale ((i + 2) mod 4))) 3.
Proof.
  unfold sharedCentroid, mean, divideScalar, multiplyScalar, add, zero. simpl.
  f_equal; lra.
Qed.

Lemma newVertex_code (scale : R) (i : Z) :
  Tetra.newVertex (central scale) scale i =
  subVectors (sharedCentroid scale i)
    (multiplyScalar
       (normalize (subVectors (oppositeVertex scale i) (sharedCentroid scale i)))
       (scale * 1.63)).
Proof. rewrite sharedCentroid_code. reflexivity. Qed.

(** From the centroid of a face the opposite vertex is [4 * scale / sqrt 3]
    away. *)
Lemma opposite_height (scale : R) (i : Z) :
  0 < scale -> (0 <= i < 4)%Z ->
  length (subVectors (oppositeVertex scale i) (sharedCentroid scale i))
  = 4 * scale / sqrt 3.
Proof.
  intros Hs Hi. pose proof sqrt3_bounds as Hr. pose proof sqrt3_sq as Hq.
  destruct (centralVertex_cases scale) as (E0 & E1 & E2 & E3).
  unfold length. apply sqrt_lem_1.
  - apply lengthSq_nonneg.
  - apply Rlt_le. apply Rdiv_lt_0_compat; lra.
  - replace (4 * scale / sqrt 3 * (4 * scale / sqrt 3))
      with (16 * scale * scale / (sqrt 3 * sqrt 3)) by (field; lra).
    rewrite Hq.
    assert (C : (i = 0 \/ i = 1 \/ i = 2 \/ i = 3)%Z) by lia.
    destruct C as [-> | [-> | [-> | ->]]];
      unfold oppositeVertex; rewrite sharedCentroid_code;
      mod4;
      rewrite ?E0, ?E1, ?E2, ?E3;
      unfold lengthSq, subVectors, divideScalar, multiplyScalar, add, zero;
      simpl; field.
Qed.

(** The new vertex in closed form: the opposite central vertex, reflected
    through the origin and stretched by [1/3 + 1.63 * sqrt 3 / 3]. *)
Lemma newVertex_closed (scale : R) (i : Z) :
  0 < scale -> (0 <= i < 4)%Z ->
  Tetra.newVertex (central scale) scale i =
  multiplyScalar (oppositeVertex scale i) (- (1 / 3 + 1.63 * sqrt 3 / 3)).
Proof.
  intros Hs Hi. pose proof sqrt3_bounds as Hr.
  pose proof (opposite_height scale i Hs Hi) as HL.
  rewrite newVertex_code, normalize_nonzero; rewrite HL;
    [|apply Rdiv_lt_0_compat; lra].
  destruct (centralVertex_cases scale) as (E0 & E1 & E2 & E3).
  assert (C : (i = 0 \/ i = 1 \/ i = 2 \/ i = 3)%Z) by lia.
  destruct C as [-> | [-> | [-> | ->]]];
    unfold oppositeVertex; rewrite sharedCentroid_code; mod4;
    rewrite ?E0, ?E1, ?E2, ?E3;
    unfold subVectors, divideScalar, multiplyScalar, add, zero; simpl;
    f_equal; field; lra.
Qed.

Lemma cluster_tetrahedrons (scale : R) :
  Tetra.tetrahedrons (Tetra.createMultipleTetrahedrons scale) =
  central scale ::
  map (Tetra.additionalTetrahedron (central scale)
         (map (Tetra.newVertex (central scale) scale) [0; 1; 2; 3]%Z))
      [0; 1; 2; 3]%Z.
Proof.
  unfold Tetra.createMultipleTetrahedrons. cbv zeta.
  destruct (fold_left _ _ _) as [g k]. reflexivity.
Qed.

Lemma derivedVertex_newVertex (scale : R) (i : Z) :
  (0 <= i < 4)%Z ->
  derivedVertex (Tetra.createMultipleTetrahedrons scale) i =
  Tetra.newVertex (central scale) scale i.
Proof.
  intros Hi. unfold derivedVertex. rewrite cluster_tetrahedrons.
  assert (C : (i = 0 \/ i = 1 \/ i = 2 \/ i = 3)%Z) by lia.
  destruct C as [-> | [-> | [-> | ->]]]; reflexivity.
Qed.

Lemma derived_vertices (scale : R) (i : Z) :
  (0 <= i < 4)%Z ->
  Tetra.vertices
    (nth (Z.to_nat (i + 1))
       (Tetra.tetrahedrons (Tetra.createMultipleTetrahedrons scale)) (central 0)) =
  [ centralVertex scale i; centralVertex scale ((i + 1) mod 4);
    centralVertex scale ((i + 2) mod 4);
    derivedVertex (Tetra.createMultipleTetrahedrons scale) i ].
Proof.
  intros Hi. rewrite derivedVertex_newVertex by exact Hi.
  rewrite cluster_tetrahedrons.
  assert (C : (i = 0 \/ i = 1 \/ i = 2 \/ i = 3)%Z) by lia.
  destruct C as [-> | [-> | [-> | ->]]]; reflexivity.
Qed.

(** The new vertex is [scale * 1.63] away from the centroid of the shared
    face. *)
Lemma newVertex_distance (scale : R) (i : Z) :
  0 < scale -> (0 <= i < 4)%Z ->
  distanceTo (Tetra.newVertex (central scale) scale i) (sharedCentroid scale i)
  = scale * 1.63.
Proof.
  intros Hs Hi. pose proof sqrt3_bounds as Hr.
  pose proof (opposite_height scale i Hs Hi) as HL.
  rewrite newVertex_code, distanceTo_subVectors, length_multiplyScalar by nra.
  rewrite normalize_unit; [ring|].
  rewrite HL. apply Rdiv_lt_0_compat; lra.
Qed.

(** C5.  For [scale > 0] and [i] in [0..3], additional tetrahedron [i] has
    the central vertices [v[i]], [v[(i+1)%4]], [v[(i+2)%4]] and a new vertex
    [n = mid - d * (scale * 1.63)], where [mid] is the arithmetic mean of the
    three shared vertices and [d] the unit vector from [mid] toward the
    opposite central vertex [v[(i+3)%4]]; so [n] is on the line through
    [mid] and the opposite vertex, at distance [scale * 1.63] from [mid], on
    the side away from the opposite vertex. *)
Theorem new_vertex_on_axis (scale : R) (i : Z) :
  0 < scale -> (0 <= i < 4)%Z ->
  let c := Tetra.createMultipleTetrahedrons scale in
  let mid := sharedCentroid scale i in
  let opposite := oppositeVertex scale i in
  let d := normalize (subVectors opposite mid) in
  let n := derivedVertex c i in
  nth 0 (Tetra.tetrahedrons c) (central 0) = central scale /\
  Tetra.vertices (nth (Z.to_nat (i + 1)) (Tetra.tetrahedrons c) (central 0)) =
    [ centralVertex scale i; centralVertex scale ((i + 1) mod 4);
      centralVertex scale ((i + 2) mod 4); n ] /\
  length d = 1 /\
  (exists k, 0 < k /\ d = multiplyScalar (subVectors opposite mid) k) /\
  n = subVectors mid (multiplyScalar d (scale * 1.63)) /\
  distanceTo n mid = scale * 1.63 /\
  (exists t, 0 < t /\
     subVectors n mid = multiplyScalar (subVectors opposite mid) (- t)).
Proof.
  intros Hs Hi c mid opposite d n.
  pose proof sqrt3_bounds as Hr.
  pose proof (opposite_height scale i Hs Hi) as HL.
  fold mid opposite in HL.
  assert (Hpos : 0 < length (subVectors opposite mid)).
  { rewrite HL. apply Rdiv_lt_0_compat; lra. }
  assert (Hn : n = subVectors mid (multiplyScalar d (scale * 1.63))).
  { unfold n, c. rewrite derivedVertex_newVertex by exact Hi.
    apply newVertex_code. }
  assert (Hd : length d = 1) by (apply normalize_unit; exact Hpos).
  split; [unfold c; now rewrite cluster_tetrahedrons|].
  split; [apply derived_vertices; exact Hi|].
  split; [exact Hd|].
  split.
  { exists (1 / length (subVectors opposite mid)). split.
    - apply Rdiv_lt_0_compat; lra.
    - apply normalize_nonzero. exact Hpos. }
  split; [exact Hn|].
  split.
  { unfold n, c, mid. rewrite derivedVertex_newVertex by exact Hi.
    now apply newVertex_distance. }
  exists (scale * 1.63 / length (subVectors opposite mid)). split.
  - apply Rdiv_lt_0_compat; nra.
  - rewrite Hn. unfold d. rewrite normalize_nonzero by exact Hpos.
    apply step_back. lra.
Qed.

Lemma new_vertex_on_axis_witness :
  let c := Tetra.createMultipleTetrahedrons 1 in
  let mid := sharedCentroid 1 0 in
  let opposite := oppositeVertex 1 0 in
  let d := normalize (subVectors opposite mid) in
  let n := derivedVertex c 0 in
  nth 0 (Tetra.tetrahedrons c) (central 0) = central 1 /\
  Tetra.vertices (nth (Z.to_nat (0 + 1)) (Tetra.tetrahedrons c) (central 0)) =
    [ centralVertex 1 0; centralVertex 1 ((0 + 1) mod 4);
      centralVertex 1 ((0 + 2) mod 4); n ] /\
  length d = 1 /\
  (exists k, 0 < k /\ d = multiplyScalar (subVectors opposite mid) k) /\
  n = subVectors mid (multiplyScalar d (1 * 1.63)) /\
  distanceTo n mid = 1 * 1.63 /\
  (exists t, 0 < t /\
     subVectors n mid = multiplyScalar (subVectors opposite mid) (- t)).
Proof.
  apply (new_vertex_on_axis 1 0); [lra | lia].
Defined.

(** ** Edge lengths of the cluster *)

Lemma sqrt_8_sq (s : R) : 0 <= s -> sqrt (8 * (s * s)) = 2 * sqrt 2 * s.
Proof.
  intros Hs. replace (8 * (s * s)) with (2 * ((2 * s) * (2 * s))) by ring.
  rewrite sqrt_mult by nra. rewrite sqrt_square by lra. ring.
Qed.

(** The six edges of the central tetrahedron have length
    [2 * sqrt 2 * scale]. *)
Lemma central_edges (scale : R) (a b : Z) :
  0 < scale -> (0 <= a < b)%Z -> (b < 4)%Z ->
  distanceTo (centralVertex scale a) (centralVertex scale b) = 2 * sqrt 2 * scale.
Proof.
  intros Hs Hab Hb.
  destruct (centralVertex_cases scale) as (E0 & E1 & E2 & E3).
  rewrite <- sqrt_8_sq by lra. unfold distanceTo. f_equal.
  assert (C : (a = 0 /\ b = 1 \/ a = 0 /\ b = 2 \/ a = 0 /\ b = 3 \/
               a = 1 /\ b = 2 \/ a = 1 /\ b = 3 \/ a = 2 /\ b = 3)%Z) by lia.
  destruct C as [[-> ->] | [[-> ->] | [[-> ->] | [[-> ->] | [[-> ->] | [-> ->]]]]]];
    rewrite ?E0, ?E1, ?E2, ?E3; unfold distanceToSquared; simpl; ring.
Qed.

(** From the new vertex of tetrahedron [i] each of its three shared
    vertices is at squared distance [(1.63^2 + 8/3) * scale^2]. *)
Lemma new_edges_squared (scale : R) (i k : Z) :
  0 < scale -> (0 <= i < 4)%Z -> (0 <= k < 3)%Z ->
  distanceToSquared (Tetra.newVertex (central scale) scale i)
                    (centralVertex scale ((i + k) mod 4))
  = (1.63 * 1.63 + 8 / 3) * (scale * scale).
Proof.
  intros Hs Hi Hk. rewrite newVertex_closed by assumption.
  destruct (centralVertex_cases scale) as (E0 & E1 & E2 & E3).
  pose proof sqrt3_sq as Hq. revert Hq. generalize (sqrt 3). intros r Hq.
  assert (Hq2 : scale * scale * (r * r) = 3 * (scale * scale))
    by (rewrite Hq; ring).
  assert (C : (i = 0 \/ i = 1 \/ i = 2 \/ i = 3)%Z) by lia.
  assert (D : (k = 0 \/ k = 1 \/ k = 2)%Z) by lia.
  destruct C as [-> | [-> | [-> | ->]]]; destruct D as [-> | [-> | ->]];
    unfold oppositeVertex; mod4; rewrite ?E0, ?E1, ?E2, ?E3;
    unfold distanceToSquared, multiplyScalar; simpl; lra.
Qed.

Lemma mirror_distance (m p : Vector3) : distanceTo (mirror m p) m = distanceTo p m.
Proof.
  unfold distanceTo, distanceToSquared, mirror, subVectors, multiplyScalar. simpl.
  f_equal. ring.
Qed.

(** C1, as the code has it.  For [scale > 0] the edges of the central
    tetrahedron have length [2 * sqrt 2 * scale], but the three edges that
    join the new vertex of additional tetrahedron [i] to its shared vertices
    have squared length [(1.63^2 + 8/3) * scale^2] and so are shorter; the new
    vertex is [scale * 1.63] from the centroid of the shared face, closer
    than the opposite vertex ([4 * scale / sqrt 3]), and is not the point
    symmetric to the opposite vertex through that centroid. *)
Theorem derived_edges_shorter (scale : R) (i : Z) :
  0 < scale -> (0 <= i < 4)%Z ->
  let c := Tetra.createMultipleTetrahedrons scale in
  let mid := sharedCentroid scale i in
  let opposite := oppositeVertex scale i in
  let n := derivedVertex c i in
  distanceTo (centralVertex scale i) (centralVertex scale ((i + 3) mod 4))
    = 2 * sqrt 2 * scale /\
  distanceToSquared n (centralVertex scale i)
    = (1.63 * 1.63 + 8 / 3) * (scale * scale) /\
  distanceTo n (centralVertex scale i) < 2 * sqrt 2 * scale /\
  distanceTo n (centralVertex scale ((i + 1) mod 4)) < 2 * sqrt 2 * scale /\
  distanceTo n (centralVertex scale ((i + 2) mod 4)) < 2 * sqrt 2 * scale /\
  distanceTo n mid = scale * 1.63 /\
  distanceTo opposite mid = 4 * scale / sqrt 3 /\
  scale * 1.63 < 4 * scale / sqrt 3 /\
  n <> mirror mid opposite.
Proof.
  intros Hs Hi c mid opposite n.
  pose proof sqrt3_bounds as Hr.
  assert (En : n = Tetra.newVertex (central scale) scale i).
  { unfold n, c. now apply derivedVertex_newVertex. }
  assert (Hnew : forall k, (0 <= k < 3)%Z ->
            distanceTo n (centralVertex scale ((i + k) mod 4)) < 2 * sqrt 2 * scale).
  { intros k Hk. rewrite <- sqrt_8_sq by lra. unfold distanceTo.
    rewrite En, new_edges_squared by assumption.
    apply sqrt_lt_1_alt. nra. }
  assert (Hmid : distanceTo n mid = scale * 1.63).
  { rewrite En. now apply newVertex_distance. }
  assert (Hopp : distanceTo opposite mid = 4 * scale / sqrt 3).
  { rewrite distanceTo_sym, <- length_subVectors.
    now apply opposite_height. }
  assert (Hlt : scale * 1.63 < 4 * scale / sqrt 3).
  { apply Rmult_lt_reg_r with (sqrt 3); [lra|].
    replace (4 * scale / sqrt 3 * sqrt 3) with (4 * scale) by (field; lra). nra. }
  split.
  { assert (C : (i = 0 \/ i = 1 \/ i = 2 \/ i = 3)%Z) by lia.
    destruct C as [-> | [-> | [-> | ->]]]; mod4;
      first [ apply central_edges; (lra || lia)
            | rewrite distanceTo_sym; apply central_edges; (lra || lia) ]. }
  split.
  { rewrite En. pose proof (new_edges_squared scale i 0 Hs Hi ltac:(lia)) as H.
    rewrite Z.add_0_r, Z.mod_small in H by lia. exact H. }
  split.
  { specialize (Hnew 0%Z ltac:(lia)).
    rewrite Z.add_0_r, Z.mod_small in Hnew by lia. exact Hnew. }
  split; [apply (Hnew 1%Z); lia|].
  split; [apply (Hnew 2%Z); lia|].
  split; [exact Hmid|]. split; [exact Hopp|]. split; [exact Hlt|].
  intros E. rewrite E, mirror_distance, Hopp in Hmid. lra.
Qed.

Lemma derived_edges_shorter_witness :
  let c := Tetra.createMultipleTetrahedrons 1 in
  let mid := sharedCentroid 1 0 in
  let opposite := oppositeVertex 1 0 in
  let n := derivedVertex c 0 in
  distanceTo (centralVertex 1 0) (centralVertex 1 ((0 + 3) mod 4))
    = 2 * sqrt 2 * 1 /\
  distanceToSquared n (centralVertex 1 0) = (1.63 * 1.63 + 8 / 3) * (1 * 1) /\
  distanceTo n (centralVertex 1 0) < 2 * sqrt 2 * 1 /\
  distanceTo n (centralVertex 1 ((0 + 1) mod 4)) < 2 * sqrt 2 * 1 /\
  distanceTo n (centralVertex 1 ((0 + 2) mod 4)) < 2 * sqrt 2 * 1 /\
  distanceTo n mid = 1 * 1.63 /\
  distanceTo opposite mid = 4 * 1 / sqrt 3 /\
  1 * 1.63 < 4 * 1 / sqrt 3 /\
  n <> mirror mid opposite.
Proof.
  apply (derived_edges_shorter 1 0); [lra | lia].
Defined.

(** ** Keys of vertices *)

Lemma toFixed6_negative (v : R) : Tetra.negative (Tetra.toFixed6 v) = isNegative v.
Proof.
  unfold Tetra.toFixed6, isNegative.
  destruct (Rlt_dec v 0); destruct (Rle_dec _ _); reflexivity.
Qed.

Lemma isNegative_neg (v : R) : v < 0 -> isNegative v = true.
Proof. intros H. unfold isNegative. destruct (Rlt_dec v 0); [reflexivity | lra]. Qed.

Lemma isNegative_pos (v : R) : 0 <= v -> isNegative v = false.
Proof. intros H. unfold isNegative. destruct (Rlt_dec v 0); [lra | reflexivity]. Qed.

(** Below [10^21] the digits are those of the nearest multiple of
    [10^-6], the larger one on a tie. *)
Lemma toFixed6_decimal (v : R) (n : Z) :
  Rabs v < 10 ^ 21 ->
  IZR n <= Rabs v * 10 ^ 6 + / 2 < IZR n + 1 ->
  Tetra.toFixed6 v = Tetra.mkFixed (isNegative v) (Tetra.Decimal n).
Proof.
  intros Hbig Hn. unfold Tetra.toFixed6, isNegative.
  destruct (Rlt_dec v 0) as [Hv|Hv].
  - rewrite Rabs_left in Hbig, Hn by exact Hv.
    destruct (Rle_dec (10 ^ 21) (- v)); [lra|].
    do 2 f_equal. symmetry. apply Int_part_spec. lra.
  - rewrite Rabs_right in Hbig, Hn by lra.
    destruct (Rle_dec (10 ^ 21) v); [lra|].
    do 2 f_equal. symmetry. apply Int_part_spec. lra.
Qed.

(** [(1).toFixed(6)] is ["1.000000"] and [(-1).toFixed(6)] is ["-1.000000"];
    [(1e-7).toFixed(6)] is ["0.000000"] but [(-1e-7).toFixed(6)] is
    ["-0.000000"]; [(5e-7).toFixed(6)] is ["0.000001"]. *)
Example toFixed6_examples :
  Tetra.toFixed6 1 = Tetra.mkFixed false (Tetra.Decimal 1000000) /\
  Tetra.toFixed6 (-1) = Tetra.mkFixed true (Tetra.Decimal 1000000) /\
  Tetra.toFixed6 0.0000001 = Tetra.mkFixed false (Tetra.Decimal 0) /\
  Tetra.toFixed6 (-0.0000001) = Tetra.mkFixed true (Tetra.Decimal 0) /\
  Tetra.toFixed6 0.0000005 = Tetra.mkFixed false (Tetra.Decimal 1).
Proof.
  repeat split.
  - rewrite (toFixed6_decimal 1 1000000).
    + now rewrite isNegative_pos by lra.
    + rewrite Rabs_right by lra. simpl pow. lra.
    + rewrite Rabs_right by lra. simpl pow. lra.
  - rewrite (toFixed6_decimal (-1) 1000000).
    + now rewrite isNegative_neg by lra.
    + rewrite Rabs_left by lra. simpl pow. lra.
    + rewrite Rabs_left by lra. simpl pow. lra.
  - rewrite (toFixed6_decimal 0.0000001 0).
    + now rewrite isNegative_pos by lra.
    + rewrite Rabs_right by lra. simpl pow. lra.
    + rewrite Rabs_right by lra. simpl pow. lra.
  - rewrite (toFixed6_decimal (-0.0000001) 0).
    + now rewrite isNegative_neg by lra.
    + rewrite Rabs_left by lra. simpl pow. lra.
    + rewrite Rabs_left by lra. simpl pow. lra.
  - rewrite (toFixed6_decimal 0.0000005 1).
    + now rewrite isNegative_pos by lra.
    + rewrite Rabs_right by lra. simpl pow. lra.
    + rewrite Rabs_right by lra. simpl pow. lra.
Qed.

Lemma Fixed_eqb_refl (f : Tetra.Fixed) : Tetra.Fixed_eqb f f = true.
Proof.
  destruct f as [s [n|m]]; unfold Tetra.Fixed_eqb; simpl;
    rewrite Bool.eqb_reflx; simpl.
  - apply Z.eqb_refl.
  - destruct (Req_dec_T m m); [reflexivity | contradiction].
Qed.

Lemma Key_eqb_refl (k : Tetra.Key) : Tetra.Key_eqb k k = true.
Proof.
  destruct k as [[kx ky] kz]. unfold Tetra.Key_eqb.
  now rewrite !Fixed_eqb_refl.
Qed.

Lemma Fixed_eqb_negative (f g : Tetra.Fixed) :
  Tetra.Fixed_eqb f g = true -> Tetra.negative f = Tetra.negative g.
Proof.
  unfold Tetra.Fixed_eqb. intros H. apply andb_prop in H as [H _].
  now apply Bool.eqb_prop.
Qed.

(** Equal keys have equal minus signs. *)
Lemma Key_eqb_signs (a b : Vector3) :
  Tetra.Key_eqb (Tetra.vertexKey a) (Tetra.vertexKey b) = true -> signs a = signs b.
Proof.
  unfold Tetra.Key_eqb, Tetra.vertexKey, signs. intros H.
  apply andb_prop in H as [H Hz]. apply andb_prop in H as [Hx Hy].
  apply Fixed_eqb_negative in Hx, Hy, Hz.
  rewrite !toFixed6_negative in Hx, Hy, Hz. now rewrite Hx, Hy, Hz.
Qed.

(** ** The vertex-sphere loop *)

Section Dedup.

Variable table : list Vector3.

Let keyAt (i : nat) : Tetra.Key := Tetra.vertexKey (nth i table zero).

Hypothesis table_keys :
  forall i j, (i < List.length table)%nat -> (j < List.length table)%nat ->
  Tetra.Key_eqb (keyAt i) (keyAt j) = Nat.eqb i j.

Lemma has_seen (seen : list nat) (i : nat) :
  (i < List.length table)%nat ->
  Forall (fun j => (j < List.length table)%nat) seen ->
  Tetra.has (map keyAt seen) (keyAt i) = existsb (Nat.eqb i) seen.
Proof.
  intros Hi Hseen. unfold Tetra.has.
  induction Hseen as [|j seen Hj _ IH]; [reflexivity|].
  cbn [map existsb]. now rewrite table_keys, IH.
Qed.

(** On instances of the table the loop adds one sphere for every index at
    its first occurrence. *)
Lemma dedup_table (indices : list nat) :
  Forall (fun j => (j < List.length table)%nat) indices ->
  forall (group : list Tetra.Object3D) (seen : list nat),
  Forall (fun j => (j < List.length table)%nat) seen ->
  fold_left Tetra.addVertexSphere
    (map (fun i => nth i table zero) indices) (group, map keyAt seen) =
  (group ++ map (fun i => Tetra.VertexSphere (nth i table zero)) (fresh indices seen),
   map keyAt (seen ++ fresh indices seen)).
Proof.
  intros Hall. induction Hall as [|i rest Hi _ IH]; intros group seen Hseen.
  - simpl. now rewrite !app_nil_r.
  - cbn [map fold_left fresh Tetra.addVertexSphere].
    fold (keyAt i). rewrite has_seen by assumption.
    destruct (existsb (Nat.eqb i) seen) eqn:E; cbn [negb].
    + now apply IH.
    + replace (map keyAt seen ++ [keyAt i]) with (map keyAt (seen ++ [i]))
        by (now rewrite map_app).
      rewrite IH by (apply Forall_app; split; [assumption | now constructor]).
      cbn [map]. now rewrite <- !app_assoc.
Qed.

Lemma table_keys_NoDup : NoDup (map Tetra.vertexKey table).
Proof.
  apply (NoDup_nth _ (Tetra.vertexKey zero)).
  intros i j Hi Hj E. rewrite length_map in Hi, Hj.
  rewrite !map_nth in E. fold (keyAt i) (keyAt j) in E.
  pose proof (table_keys i j Hi Hj) as K.
  rewrite E, Key_eqb_refl in K. symmetry in K. now apply Nat.eqb_eq.
Qed.

End Dedup.

Lemma fold_vertices (ts : list Tetra.Tetrahedron) (st : list Tetra.Object3D * list Tetra.Key) :
  fold_left (fun st tetra => fold_left Tetra.addVertexSphere (Tetra.vertices tetra) st)
    ts st =
  fold_left Tetra.addVertexSphere (flat_map Tetra.vertices ts) st.
Proof.
  revert st. induction ts as [|t ts IH]; intros st; [reflexivity|].
  cbn [fold_left flat_map]. now rewrite fold_left_app, IH.
Qed.

Lemma vertexSpheres_meshes (ts : list Tetra.Tetrahedron) (group : list Tetra.Object3D) :
  Tetra.vertexSpheres
    (fold_left (fun tetraGroup tetra =>
       tetraGroup ++ [Tetra.TetraMesh (Tetra.geometry tetra);
                      Tetra.TetraEdges (Tetra.geometry tetra);
                      Tetra.CenterSphere (Tetra.center tetra)]) ts group) =
  Tetra.vertexSpheres group.
Proof.
  revert group. induction ts as [|t ts IH]; intros group; [reflexivity|].
  cbn [fold_left]. rewrite IH. unfold Tetra.vertexSpheres.
  rewrite flat_map_app. simpl. now rewrite app_nil_r.
Qed.

Lemma vertexSpheres_added (group : list Tetra.Object3D) (ps : list Vector3) :
  Tetra.vertexSpheres (group ++ map Tetra.VertexSphere ps) =
  Tetra.vertexSpheres group ++ ps.
Proof.
  unfold Tetra.vertexSpheres. rewrite flat_map_app. f_equal.
  induction ps as [|p ps IH]; [reflexivity|]. simpl. now rewrite IH.
Qed.

(** ** The eight vertices of the cluster *)

Lemma vertexTable_closed (scale : R) :
  0 < scale ->
  vertexTable scale =
  [ mkVector3 scale scale scale; mkVector3 scale (- scale) (- scale);
    mkVector3 (- scale) scale (- scale); mkVector3 (- scale) (- scale) scale;
    multiplyScalar (mkVector3 (- scale) (- scale) scale) (- (1 / 3 + 1.63 * sqrt 3 / 3));
    multiplyScalar (mkVector3 scale scale scale) (- (1 / 3 + 1.63 * sqrt 3 / 3));
    multiplyScalar (mkVector3 scale (- scale) (- scale)) (- (1 / 3 + 1.63 * sqrt 3 / 3));
    multiplyScalar (mkVector3 (- scale) scale (- scale)) (- (1 / 3 + 1.63 * sqrt 3 / 3)) ].
Proof.
  intros Hs. unfold vertexTable. rewrite central_vertices. cbn [map app].
  rewrite !newVertex_closed by (lra || lia).
  destruct (centralVertex_cases scale) as (E0 & E1 & E2 & E3).
  unfold oppositeVertex. mod4. now rewrite E0, E1, E2, E3.
Qed.

(** The minus signs of the eight vertices: the eight sign patterns. *)
Lemma vertexTable_signs (scale : R) :
  0 < scale ->
  map signs (vertexTable scale) =
  [ (false, false, false); (false, true, true); (true, false, true);
    (true, true, false); (false, false, true); (true, true, true);
    (true, false, false); (false, true, false) ].
Proof.
  intros Hs. rewrite vertexTable_closed by exact Hs.
  pose proof sqrt3_bounds as Hr.
  assert (Hc : 1 < 1 / 3 + 1.63 * sqrt 3 / 3 < 2) by lra.
  revert Hc. generalize (1 / 3 + 1.63 * sqrt 3 / 3). intros c Hc.
  unfold signs, multiplyScalar. cbn [map x y z].
  repeat match goal with
  | |- context [isNegative ?e] =>
      first [ rewrite (isNegative_neg e) by nra
            | rewrite (isNegative_pos e) by nra ]
  end.
  reflexivity.
Qed.

Lemma vertexTable_length (scale : R) : List.length (vertexTable scale) = 8%nat.
Proof. reflexivity. Qed.

(** Two of the eight vertices have the same key only if they are the same
    entry of the table. *)
Lemma vertexTable_keys (scale : R) :
  0 < scale ->
  forall i j, (i < List.length (vertexTable scale))%nat ->
              (j < List.length (vertexTable scale))%nat ->
  Tetra.Key_eqb (Tetra.vertexKey (nth i (vertexTable scale) zero))
                (Tetra.vertexKey (nth j (vertexTable scale) zero)) = Nat.eqb i j.
Proof.
  intros Hs i j Hi Hj. rewrite vertexTable_length in Hi, Hj.
  destruct (Nat.eqb_spec i j) as [->|Hne]; [apply Key_eqb_refl|].
  destruct (Tetra.Key_eqb _ _) eqn:E; [exfalso | reflexivity].
  apply Key_eqb_signs in E.
  rewrite <- !(map_nth signs) in E. rewrite vertexTable_signs in E by exact Hs.
  apply Hne.
  do 8 (destruct i as [|i]; [do 8 (destruct j as [|j]; [simpl in E; congruence|]); lia|]).
  lia.
Qed.

Lemma instances_in_table (scale : R) :
  flat_map Tetra.vertices (Tetra.tetrahedrons (Tetra.createMultipleTetrahedrons scale)) =
  map (fun i => nth i (vertexTable scale) zero) instanceIndices.
Proof. rewrite cluster_tetrahedrons. reflexivity. Qed.

Lemma instanceIndices_fresh : fresh instanceIndices [] = [0; 1; 2; 3; 4; 5; 6; 7]%nat.
Proof. reflexivity. Qed.

(** The group of the cluster ends with one vertex sphere for each of the
    eight vertices, and the set holds their eight keys. *)
Lemma cluster_spheres (scale : R) :
  0 < scale ->
  let c := Tetra.createMultipleTetrahedrons scale in
  Tetra.vertexSpheres (Tetra.tetraGroup c) = vertexTable scale /\
  Tetra.addedVertices c = map Tetra.vertexKey (vertexTable scale).
Proof.
  intros Hs c.
  pose proof (instances_in_table scale) as I.
  rewrite cluster_tetrahedrons in I.
  unfold c, Tetra.createMultipleTetrahedrons. cbv zeta.
  rewrite fold_vertices.
  change (for_lt 4 (fun i newVertices => newVertices ++ [Tetra.newVertex _ scale i]) [])
    with (map (Tetra.newVertex (central scale) scale) [0; 1; 2; 3]%Z).
  change (for_lt 4 _ _)
    with (central scale ::
          map (Tetra.additionalTetrahedron (central scale)
                 (map (Tetra.newVertex (central scale) scale) [0; 1; 2; 3]%Z))
              [0; 1; 2; 3]%Z).
  rewrite I.
  pose proof (dedup_table (vertexTable scale) (vertexTable_keys scale Hs)
                instanceIndices) as D.
  match goal with
  | |- context [fold_left Tetra.addVertexSphere _ (?g, [])] =>
      specialize (D ltac:(repeat constructor) g [] (Forall_nil _));
      rewrite instanceIndices_fresh in D;
      change (map (fun i => Tetra.vertexKey (nth i (vertexTable scale) zero)) [])
        with (@nil Tetra.Key) in D;
      rewrite D
  end.
  cbn [Tetra.tetraGroup Tetra.addedVertices app].
  split.
  - rewrite <- (map_map (fun i => nth i (vertexTable scale) zero) Tetra.VertexSphere).
    rewrite vertexSpheres_added, vertexSpheres_meshes. reflexivity.
  - reflexivity.
Qed.

(** C2.  For [scale > 0] the cluster has exactly 5 tetrahedra with 20 vertex
    instances; deduplicating the instances by their [toFixed(6)] keys leaves
    exactly 8 keys, pairwise different, with one sphere each: those of the 4
    central vertices and of the 4 new vertices, which are pairwise distinct
    points, none of them a central vertex; 8 is fewer than 20. *)
Theorem cluster_has_eight_vertices (scale : R) :
  0 < scale ->
  let c := Tetra.createMultipleTetrahedrons scale in
  let instances := flat_map Tetra.vertices (Tetra.tetrahedrons c) in
  let spheres := Tetra.vertexSpheres (Tetra.tetraGroup c) in
  List.length (Tetra.tetrahedrons c) = 5%nat /\
  List.length instances = 20%nat /\
  Tetra.addedVertices c = map Tetra.vertexKey spheres /\
  (forall v, In v instances -> In (Tetra.vertexKey v) (Tetra.addedVertices c)) /\
  NoDup (Tetra.addedVertices c) /\
  List.length (Tetra.addedVertices c) = 8%nat /\
  spheres =
    map (centralVertex scale) [0; 1; 2; 3]%Z ++ map (derivedVertex c) [0; 1; 2; 3]%Z /\
  NoDup spheres /\
  List.length spheres = 8%nat /\
  (List.length spheres < List.length instances)%nat.
Proof.
  intros Hs c instances spheres.
  destruct (cluster_spheres scale Hs) as [Hsph Hkeys].
  fold c in Hsph, Hkeys. fold spheres in Hsph.
  assert (Hlen : List.length (Tetra.tetrahedrons c) = 5%nat)
    by (unfold c; now rewrite cluster_tetrahedrons).
  assert (Hinst : instances = map (fun i => nth i (vertexTable scale) zero) instanceIndices)
    by apply instances_in_table.
  assert (Hnodup : NoDup (map Tetra.vertexKey (vertexTable scale)))
    by (apply table_keys_NoDup, vertexTable_keys; exact Hs).
  split; [exact Hlen|].
  split; [now rewrite Hinst|].
  split; [now rewrite Hkeys, Hsph|].
  split.
  { intros v Hv. rewrite Hkeys. apply in_map.
    rewrite Hinst in Hv. apply in_map_iff in Hv as (i & <- & Hi).
    apply nth_In. rewrite vertexTable_length.
    unfold instanceIndices in Hi. simpl in Hi.
    repeat (destruct Hi as [<-|Hi]; [lia|]). contradiction. }
  split; [now rewrite Hkeys|].
  split; [now rewrite Hkeys|].
  split.
  { rewrite Hsph. unfold vertexTable, c. cbn [map].
    rewrite !derivedVertex_newVertex by lia. reflexivity. }
  split; [rewrite Hsph; now apply NoDup_map_inv with (f := Tetra.vertexKey)|].
  split; [now rewrite Hsph|].
  rewrite Hsph, Hinst. simpl. lia.
Qed.

Lemma cluster_has_eight_vertices_witness :
  let c := Tetra.createMultipleTetrahedrons 1 in
  let instances := flat_map Tetra.vertices (Tetra.tetrahedrons c) in
  let spheres := Tetra.vertexSpheres (Tetra.tetraGroup c) in
  List.length (Tetra.tetrahedrons c) = 5%nat /\
  List.length instances = 20%nat /\
  Tetra.addedVertices c = map Tetra.vertexKey spheres /\
  (forall v, In v instances -> In (Tetra.vertexKey v) (Tetra.addedVertices c)) /\
  NoDup (Tetra.addedVertices c) /\
  List.length (Tetra.addedVertices c) = 8%nat /\
  spheres =
    map (centralVertex 1) [0; 1; 2; 3]%Z ++ map (derivedVertex c) [0; 1; 2; 3]%Z /\
  NoDup spheres /\
  List.length spheres = 8%nat /\
  (List.length spheres < List.length instances)%nat.
Proof.
  apply (cluster_has_eight_vertices 1); lra.
Defined.

(** ** Arguments that are not positive *)

Lemma prism_empty (width height depth : Z) (cubeSize spacing : R) :
  (width <= 0 \/ height <= 0 \/ depth <= 0)%Z ->
  Prism.createRectangularPrismWithCubes width height depth cubeSize spacing = [].
Proof.
  intros H. apply length_zero_iff_nil. rewrite prism_length.
  assert (E : Z.to_nat width = 0%nat \/ Z.to_nat height = 0%nat
              \/ Z.to_nat depth = 0%nat) by lia.
  destruct E as [E | [E | E]]; rewrite E; lia.
Qed.

Lemma diamond_empty (cellsX cellsY cellsZ : Z) (unitCellSize : R) :
  (cellsX <= 0 \/ cellsY <= 0 \/ cellsZ <= 0)%Z ->
  Diamond.createDiamondStructure cellsX cellsY cellsZ unitCellSize =
  Diamond.mkBuild [] [].
Proof.
  intros H.
  assert (E : latticeAtoms cellsX cellsY cellsZ unitCellSize = []).
  { apply length_zero_iff_nil. rewrite latticeAtoms_length.
    assert (N : Z.to_nat cellsX = 0%nat \/ Z.to_nat cellsY = 0%nat
                \/ Z.to_nat cellsZ = 0%nat) by lia.
    destruct N as [N | [N | N]]; rewrite N; lia. }
  pose proof (diamond_group cellsX cellsY cellsZ unitCellSize) as G.
  pose proof (diamond_atomPositions cellsX cellsY cellsZ unitCellSize) as P.
  rewrite E in G, P.
  destruct (Diamond.createDiamondStructure cellsX cellsY cellsZ unitCellSize)
    as [group atoms].
  simpl in G, P. now rewrite G, P.
Qed.

(** At [scale = 0] all eight vertices of the cluster are the origin. *)
Lemma vertexTable_collapses (v : Vector3) : In v (vertexTable 0) -> v = zero.
Proof.
  unfold vertexTable. rewrite central_vertices. cbn [map app].
  destruct (centralVertex_cases 0) as (E0 & E1 & E2 & E3).
  intros H.
  do 4 (destruct H as [<-|H]; [unfold zero; f_equal; lra|]).
  do 4 (destruct H as [<-|H];
    [ rewrite newVertex_code, sharedCentroid_code; unfold oppositeVertex; mod4;
      rewrite ?E0, ?E1, ?E2, ?E3;
      unfold subVectors, divideScalar, add, zero; cbn [multiplyScalar x y z];
      f_equal; lra | ]).
  contradiction.
Qed.

(** C9, refuted.  With [scale = 0], with all grid dimensions [0] and with
    all cell counts [0] the builders complete normally: the first with a
    cluster whose 20 vertex instances all lie at the origin, the other two
    with an empty model. *)
Lemma builders_accept_nonpositive_arguments :
  (exists c, call_createMultipleTetrahedrons 0 = Normal c /\
     List.length (flat_map Tetra.vertices (Tetra.tetrahedrons c)) = 20%nat /\
     forall v, In v (flat_map Tetra.vertices (Tetra.tetrahedrons c)) -> v = zero) /\
  call_createRectangularPrismWithCubes 0 0 0 1 0.2 = Normal [] /\
  call_createDiamondStructure 0 0 0 3.57 = Normal (Diamond.mkBuild [] []) /\
  call_createMultipleTetrahedrons 0 <> Throw /\
  call_createRectangularPrismWithCubes 0 0 0 1 0.2 <> Throw /\
  call_createDiamondStructure 0 0 0 3.57 <> Throw.
Proof.
  split; [|repeat split; discriminate].
  exists (Tetra.createMultipleTetrahedrons 0). split; [reflexivity|].
  rewrite instances_in_table. split; [reflexivity|].
  intros v Hv. apply in_map_iff in Hv as (i & <- & Hi).
  apply vertexTable_collapses. apply nth_In.
  unfold instanceIndices in Hi. simpl in Hi. rewrite vertexTable_length.
  repeat (destruct Hi as [<-|Hi]; [lia|]). contradiction.
Qed.

(** C9, amended.  No builder checks its arguments; every call completes
    normally with the value the loops compute.  A grid dimension or cell
    count that is not positive makes the model empty: no cubes, or no atoms
    and no bonds.  The scale, the cube size, the spacing and the lattice
    constant enter the arithmetic whatever their sign: the cluster always has
    5 tetrahedra, and the prism and the lattice have one cube and eight atoms
    per cell. *)
Theorem builders_never_reject :
  (forall scale,
     call_createMultipleTetrahedrons scale =
       Normal (Tetra.createMultipleTetrahedrons scale) /\
     List.length (Tetra.tetrahedrons (Tetra.createMultipleTetrahedrons scale)) = 5%nat) /\
  (forall width height depth cubeSize spacing,
     call_createRectangularPrismWithCubes width height depth cubeSize spacing =
       Normal (Prism.createRectangularPrismWithCubes width height depth cubeSize spacing) /\
     List.length (Prism.createRectangularPrismWithCubes width height depth cubeSize spacing)
       = (Z.to_nat width * (Z.to_nat height * Z.to_nat depth))%nat /\
     ((width <= 0 \/ height <= 0 \/ depth <= 0)%Z ->
      call_createRectangularPrismWithCubes width height depth cubeSize spacing
        = Normal [])) /\
  (forall cellsX cellsY cellsZ unitCellSize,
     call_createDiamondStructure cellsX cellsY cellsZ unitCellSize =
       Normal (Diamond.createDiamondStructure cellsX cellsY cellsZ unitCellSize) /\
     List.length (Diamond.atomPositions
                    (Diamond.createDiamondStructure cellsX cellsY cellsZ unitCellSize))
       = (Z.to_nat cellsX * (Z.to_nat cellsY * (Z.to_nat cellsZ * 8)))%nat /\
     ((cellsX <= 0 \/ cellsY <= 0 \/ cellsZ <= 0)%Z ->
      call_createDiamondStructure cellsX cellsY cellsZ unitCellSize
        = Normal (Diamond.mkBuild [] []))).
Proof.
  split; [|split].
  - intros scale. split; [reflexivity|]. now rewrite cluster_tetrahedrons.
  - intros w h d cs sp. split; [reflexivity|]. split; [apply prism_length|].
    intros H. unfold call_createRectangularPrismWithCubes.
    now rewrite prism_empty.
  - intros cx cy cz a. split; [reflexivity|].
    split; [now rewrite diamond_atomPositions, latticeAtoms_length|].
    intros H. unfold call_createDiamondStructure. now rewrite diamond_empty.
Qed.

(** * Further properties of the builders *)

(** ** [createRegularTetrahedron] at any centre and scale *)

Lemma sqrt_sq_abs (k s : R) :
  0 <= k -> sqrt (k * k * (s * s)) = k * Rabs s.
Proof.
  intros Hk.
  replace (k * k * (s * s)) with ((k * Rabs s) * (k * Rabs s)).
  - apply sqrt_square. pose proof (Rabs_pos s). nra.
  - pose proof (Rsqr_abs s) as H. unfold Rsqr in H. rewrite H. ring.
Qed.

Lemma sqrt_8_abs (s : R) : sqrt (8 * (s * s)) = 2 * sqrt 2 * Rabs s.
Proof.
  pose proof (Rsqr_abs s) as H. unfold Rsqr in H. rewrite H.
  apply sqrt_8_sq. apply Rabs_pos.
Qed.

Lemma sqrt_3_abs (s : R) : sqrt (3 * (s * s)) = sqrt 3 * Rabs s.
Proof.
  pose proof (Rsqr_abs s) as H. unfold Rsqr in H. rewrite H.
  rewrite sqrt_mult by (try lra; pose proof (Rabs_pos s); nra).
  rewrite sqrt_square by apply Rabs_pos. reflexivity.
Qed.

(** X1.  Whatever the centre and the scale (zero and negative included),
    [createRegularTetrahedron] returns four vertices whose six mutual
    distances are all [2 * sqrt 2 * |scale|], each at distance
    [sqrt 3 * |scale|] from the centre; the arithmetic mean of the vertices
    is the centre, which is also the [center] it returns. *)
Theorem regular_tetrahedron_any_center (center : Vector3) (scale : R) :
  let t := Tetra.createRegularTetrahedron center scale in
  List.length (Tetra.vertices t) = 4%nat /\
  (forall a b, (0 <= a < b)%Z -> (b < 4)%Z ->
     distanceTo (Tetra.item (Tetra.vertices t) a) (Tetra.item (Tetra.vertices t) b)
     = 2 * sqrt 2 * Rabs scale) /\
  (forall a, (0 <= a < 4)%Z ->
     distanceTo (Tetra.item (Tetra.vertices t) a) center = sqrt 3 * Rabs scale) /\
  mean (Tetra.vertices t) = center /\
  Tetra.center t = center.
Proof.
  intros t. destruct center as [cx cy cz].
  split; [reflexivity|]. split; [|split; [|split; [|reflexivity]]].
  - intros a b Hab Hb. rewrite <- sqrt_8_abs. unfold distanceTo. f_equal.
    assert (C : (a = 0 /\ b = 1 \/ a = 0 /\ b = 2 \/ a = 0 /\ b = 3 \/
                 a = 1 /\ b = 2 \/ a = 1 /\ b = 3 \/ a = 2 /\ b = 3)%Z) by lia.
    destruct C as [[-> ->] | [[-> ->] | [[-> ->] | [[-> ->] | [[-> ->] | [-> ->]]]]]];
      unfold distanceToSquared; simpl; ring.
  - intros a Ha. rewrite <- sqrt_3_abs. unfold distanceTo. f_equal.
    assert (C : (a = 0 \/ a = 1 \/ a = 2 \/ a = 3)%Z) by lia.
    destruct C as [-> | [-> | [-> | ->]]];
      unfold distanceToSquared; simpl; ring.
  - unfold mean. simpl. f_equal; field.
Qed.

(** ** The position and index buffers of a geometry *)




Lemma cluster_tetrahedron_cases (scale : R) (t : Tetra.Tetrahedron) :
  In t (Tetra.tetrahedrons (Tetra.createMultipleTetrahedrons scale)) ->
  t = central scale \/
  exists i, (0 <= i < 4)%Z /\
    t = Tetra.additionalTetrahedron (central scale)
          (map (Tetra.newVertex (central scale) scale) [0; 1; 2; 3]%Z) i.
Proof.
  rewrite cluster_tetrahedrons. cbn [map]. intros H.
  destruct H as [<-|H]; [now left|]. right.
  repeat (destruct H as [<-|H]; [eexists; split; [|reflexivity]; lia|]).
  contradiction.
Qed.



(** ** The vertex-sphere loop on any vertices *)

Lemma Fixed_eqb_eq (f g : Tetra.Fixed) : Tetra.Fixed_eqb f g = true -> f = g.
Proof.
  destruct f as [s d], g as [s' d']. unfold Tetra.Fixed_eqb. simpl.
  intros H. apply andb_prop in H as [Hs Hd]. apply Bool.eqb_prop in Hs. subst s'.
  destruct d as [n|m], d' as [n'|m']; simpl in Hd; try discriminate.
  - apply Z.eqb_eq in Hd. now subst.
  - destruct (Req_dec_T m m'); [now subst | discriminate].
Qed.

Lemma Key_eqb_eq (a b : Tetra.Key) : Tetra.Key_eqb a b = true -> a = b.
Proof.
  destruct a as [[ax ay] az], b as [[bx by_] bz]. unfold Tetra.Key_eqb.
  intros H. apply andb_prop in H as [H Hz]. apply andb_prop in H as [Hx Hy].
  apply Fixed_eqb_eq in Hx, Hy, Hz. now subst.
Qed.

Lemma has_In (ks : list Tetra.Key) (k : Tetra.Key) :
  Tetra.has ks k = true <-> In k ks.
Proof.
  unfold Tetra.has. rewrite existsb_exists. split.
  - intros (k' & Hin & E). apply Key_eqb_eq in E. now subst.
  - intros H. exists k. split; [exact H | apply Key_eqb_refl].
Qed.

(** What the loop keeps, whatever the vertices: it adds spheres at some of
    the vertices it visits, the set grows by exactly their keys, stays free
    of repetitions, and ends up holding the key of every vertex visited. *)
Lemma addVertexSphere_fold (vs : list Vector3) :
  forall (group : list Tetra.Object3D) (ks : list Tetra.Key),
  NoDup ks ->
  exists spheres,
    fold_left Tetra.addVertexSphere vs (group, ks) =
      (group ++ map Tetra.VertexSphere spheres, ks ++ map Tetra.vertexKey spheres) /\
    NoDup (ks ++ map Tetra.vertexKey spheres) /\
    incl spheres vs /\
    (forall v, In v vs -> In (Tetra.vertexKey v) (ks ++ map Tetra.vertexKey spheres)).
Proof.
  induction vs as [|v vs IH]; intros group ks Hks.
  - exists []. simpl. rewrite !app_nil_r. repeat split; try assumption.
    + apply incl_refl.
    + intros v [].
  - cbn [fold_left Tetra.addVertexSphere].
    destruct (Tetra.has ks (Tetra.vertexKey v)) eqn:E; cbn [negb].
    + destruct (IH group ks Hks) as (spheres & Heq & Hnd & Hincl & Hall).
      exists spheres. repeat split; try assumption.
      * now apply incl_tl.
      * intros v' [<-|Hv']; [|now apply Hall].
        apply in_or_app. left. now apply has_In.
    + assert (Hks' : NoDup (ks ++ [Tetra.vertexKey v])).
      { apply NoDup_app; [exact Hks | repeat constructor; intros [] |].
        intros k Hk [<-|[]]. apply has_In in Hk. congruence. }
      destruct (IH (group ++ [Tetra.VertexSphere v]) _ Hks')
        as (spheres & Heq & Hnd & Hincl & Hall).
      exists (v :: spheres). cbn [map].
      assert (A1 : (group ++ [Tetra.VertexSphere v]) ++ map Tetra.VertexSphere spheres
                   = group ++ Tetra.VertexSphere v :: map Tetra.VertexSphere spheres)
        by (now rewrite <- app_assoc).
      assert (A2 : (ks ++ [Tetra.vertexKey v]) ++ map Tetra.vertexKey spheres
                   = ks ++ Tetra.vertexKey v :: map Tetra.vertexKey spheres)
        by (now rewrite <- app_assoc).
      rewrite A1, A2 in Heq. rewrite A2 in Hnd, Hall.
      split; [exact Heq|]. split; [exact Hnd|]. split.
      * intros u [<-|Hu]; [now left | right; now apply Hincl].
      * intros v' [<-|Hv'].
        -- apply in_or_app. right. now left.
        -- now apply Hall.
Qed.

Lemma centerSpheres_added (group : list Tetra.Object3D) (ps : list Vector3) :
  centerSpheres (group ++ map Tetra.VertexSphere ps) = centerSpheres group.
Proof.
  unfold centerSpheres. rewrite flat_map_app.
  replace (flat_map _ (map Tetra.VertexSphere ps)) with (@nil Vector3);
    [apply app_nil_r|].
  induction ps as [|p ps IH]; [reflexivity | exact IH].
Qed.

(** The cluster in terms of its vertex spheres, for every scale. *)
Lemma cluster_layout (scale : R) :
  let c := Tetra.createMultipleTetrahedrons scale in
  exists meshes spheres,
    Tetra.tetraGroup c = meshes ++ map Tetra.VertexSphere spheres /\
    List.length meshes = 15%nat /\
    Tetra.vertexSpheres meshes = [] /\
    centerSpheres meshes = map Tetra.center (Tetra.tetrahedrons c) /\
    Tetra.addedVertices c = map Tetra.vertexKey spheres /\
    NoDup (map Tetra.vertexKey spheres) /\
    incl spheres (flat_map Tetra.vertices (Tetra.tetrahedrons c)) /\
    (forall v, In v (flat_map Tetra.vertices (Tetra.tetrahedrons c)) ->
       In (Tetra.vertexKey v) (map Tetra.vertexKey spheres)).
Proof.
  intros c. pose proof (cluster_tetrahedrons scale) as T. fold c in T.
  unfold c in *. unfold Tetra.createMultipleTetrahedrons in *. cbv zeta in *.
  rewrite fold_vertices in *.
  match goal with
  | |- context [fold_left Tetra.addVertexSphere ?vs (?g, [])] =>
      destruct (addVertexSphere_fold vs g [] (NoDup_nil _))
        as (spheres & Heq & Hnd & Hincl & Hall);
      rewrite Heq in *; exists g, spheres
  end.
  cbn [Tetra.tetraGroup Tetra.addedVertices Tetra.tetrahedrons app] in *.
  repeat split; try assumption; reflexivity.
Qed.

(** X3.  For every scale, zero and negative included, the last loop leaves
    the 15 meshes, edges and centre spheres of the five tetrahedra in the
    group and adds after them one sphere for each distinct key: the set
    [addedVertices] is the list of the keys of the vertex spheres, without
    repetition; the key of each of the 20 vertex instances is in it; every
    sphere sits at a vertex instance; and there are between 1 and 20
    spheres. *)
Theorem vertex_spheres_one_per_key (scale : R) :
  let c := Tetra.createMultipleTetrahedrons scale in
  let instances := flat_map Tetra.vertices (Tetra.tetrahedrons c) in
  let spheres := Tetra.vertexSpheres (Tetra.tetraGroup c) in
  Tetra.addedVertices c = map Tetra.vertexKey spheres /\
  NoDup (Tetra.addedVertices c) /\
  (forall v, In v instances -> In (Tetra.vertexKey v) (Tetra.addedVertices c)) /\
  incl spheres instances /\
  (1 <= List.length spheres <= 20)%nat /\
  List.length (Tetra.tetraGroup c) = (15 + List.length spheres)%nat /\
  skipn 15 (Tetra.tetraGroup c) = map Tetra.VertexSphere spheres.
Proof.
  intros c instances spheres.
  destruct (cluster_layout scale)
    as (meshes & sph & Hg & Hlen & Hvs & _ & Hadd & Hnd & Hincl & Hall).
  fold c in Hg, Hadd, Hincl, Hall. fold instances in Hincl, Hall.
  assert (Es : spheres = sph).
  { unfold spheres. now rewrite Hg, vertexSpheres_added, Hvs. }
  assert (Li : List.length instances = 20%nat).
  { unfold instances, c. now rewrite instances_in_table. }
  rewrite Es, Hadd.
  split; [reflexivity|]. split; [exact Hnd|]. split; [exact Hall|].
  split; [exact Hincl|].
  split.
  { split.
    - destruct sph as [|s0 sph']; [|simpl; lia]. exfalso.
      assert (Hne : exists v, In v instances).
      { unfold instances, c. rewrite instances_in_table. eexists. now left. }
      destruct Hne as (v & Hv). exact (Hall v Hv).
    - rewrite <- Li. apply NoDup_incl_length; [|exact Hincl].
      now apply NoDup_map_inv with (f := Tetra.vertexKey). }
  split.
  - rewrite Hg, length_app, length_map, Hlen. reflexivity.
  - rewrite Hg. rewrite skipn_app, Hlen, Nat.sub_diag.
    rewrite <- Hlen at 1. now rewrite skipn_all.
Qed.

(** ** Centres, new vertices and shared vertices of the cluster *)

Lemma mean_of_four (a b c d : Vector3) :
  divideScalar (fold_left add [a; b; c; d] zero) 4 = mean [a; b; c; d].
Proof.
  unfold mean, divideScalar, multiplyScalar, add, zero. simpl. f_equal; field.
Qed.

(** X4.  For every scale, the [center] of each of the five tetrahedra is
    the arithmetic mean of its four vertices (for the central one, whose
    centre is passed in rather than computed, this is the origin), and the
    centre spheres of the group sit at these centres, in the order of the
    tetrahedra. *)
Theorem centres_are_means (scale : R) :
  let c := Tetra.createMultipleTetrahedrons scale in
  (forall t, In t (Tetra.tetrahedrons c) ->
     Tetra.center t = mean (Tetra.vertices t)) /\
  Tetra.center (nth 0 (Tetra.tetrahedrons c) (central 0)) = mkVector3 0 0 0 /\
  centerSpheres (Tetra.tetraGroup c) = map Tetra.center (Tetra.tetrahedrons c).
Proof.
  intros c. split; [|split].
  - intros t Ht. apply cluster_tetrahedron_cases in Ht as [-> | (i & _ & ->)].
    + unfold mean. simpl. f_equal; field.
    + apply mean_of_four.
  - unfold c. now rewrite cluster_tetrahedrons.
  - destruct (cluster_layout scale) as (meshes & sph & Hg & _ & _ & Hc & _).
    fold c in Hg, Hc. now rewrite Hg, centerSpheres_added.
Qed.

Lemma distanceTo_multiplyScalar (p q : Vector3) (k : R) :
  distanceTo (multiplyScalar p k) (multiplyScalar q k) = Rabs k * distanceTo p q.
Proof.
  unfold distanceTo.
  replace (distanceToSquared (multiplyScalar p k) (multiplyScalar q k))
    with (Rabs k * Rabs k * distanceToSquared p q).
  - rewrite sqrt_mult.
    + now rewrite sqrt_square by apply Rabs_pos.
    + pose proof (Rabs_pos k). nra.
    + unfold distanceToSquared. cbv zeta.
      pose proof (Rle_0_sqr (x p - x q)). pose proof (Rle_0_sqr (y p - y q)).
      pose proof (Rle_0_sqr (z p - z q)). unfold Rsqr in *. lra.
  - pose proof (Rsqr_abs k) as H. unfold Rsqr in H. rewrite <- H.
    unfold distanceToSquared, multiplyScalar. simpl. ring.
Qed.

(** X5.  For [scale > 0] each new vertex is the opposite central vertex
    reflected through the origin and stretched by
    [1/3 + 1.63 * sqrt 3 / 3]; so any two of the four new vertices are
    [(1/3 + 1.63 * sqrt 3 / 3) * 2 * sqrt 2 * scale] apart: they are the
    corners of a regular tetrahedron of their own. *)
Theorem new_vertices_regular (scale : R) (a b : Z) :
  0 < scale -> (0 <= a < b)%Z -> (b < 4)%Z ->
  let c := Tetra.createMultipleTetrahedrons scale in
  derivedVertex c a =
    multiplyScalar (oppositeVertex scale a) (- (1 / 3 + 1.63 * sqrt 3 / 3)) /\
  derivedVertex c b =
    multiplyScalar (oppositeVertex scale b) (- (1 / 3 + 1.63 * sqrt 3 / 3)) /\
  distanceTo (derivedVertex c a) (derivedVertex c b)
    = (1 / 3 + 1.63 * sqrt 3 / 3) * (2 * sqrt 2 * scale).
Proof.
  intros Hs Hab Hb c. pose proof sqrt3_bounds as Hr.
  assert (Ea : derivedVertex c a =
    multiplyScalar (oppositeVertex scale a) (- (1 / 3 + 1.63 * sqrt 3 / 3))).
  { unfold c. rewrite derivedVertex_newVertex by lia. apply newVertex_closed; (lra || lia). }
  assert (Eb : derivedVertex c b =
    multiplyScalar (oppositeVertex scale b) (- (1 / 3 + 1.63 * sqrt 3 / 3))).
  { unfold c. rewrite derivedVertex_newVertex by lia. apply newVertex_closed; (lra || lia). }
  split; [exact Ea|]. split; [exact Eb|].
  rewrite Ea, Eb, distanceTo_multiplyScalar.
  rewrite Rabs_left by lra. rewrite Ropp_involutive. f_equal.
  unfold oppositeVertex.
  assert (C : (a = 0 /\ b = 1 \/ a = 0 /\ b = 2 \/ a = 0 /\ b = 3 \/
               a = 1 /\ b = 2 \/ a = 1 /\ b = 3 \/ a = 2 /\ b = 3)%Z) by lia.
  destruct C as [[-> ->] | [[-> ->] | [[-> ->] | [[-> ->] | [[-> ->] | [-> ->]]]]]];
    mod4;
    first [ apply central_edges; (lra || lia)
          | rewrite distanceTo_sym; apply central_edges; (lra || lia) ].
Qed.

Lemma new_vertices_regular_witness :
  let c := Tetra.createMultipleTetrahedrons 1 in
  derivedVertex c 0 =
    multiplyScalar (oppositeVertex 1 0) (- (1 / 3 + 1.63 * sqrt 3 / 3)) /\
  derivedVertex c 1 =
    multiplyScalar (oppositeVertex 1 1) (- (1 / 3 + 1.63 * sqrt 3 / 3)) /\
  distanceTo (derivedVertex c 0) (derivedVertex c 1)
    = (1 / 3 + 1.63 * sqrt 3 / 3) * (2 * sqrt 2 * 1).
Proof.
  apply (new_vertices_regular 1 0 1); (lra || lia).
Defined.

(** Selecting the vertex lists that hold entry [i] of a table of vertices
    with pairwise different keys is selecting the index lists that hold
    [i]. *)
Lemma vertexListsWith_indices (table : list Vector3) (i : nat)
    (lists : list (list nat)) :
  (forall i j, (i < List.length table)%nat -> (j < List.length table)%nat ->
     Tetra.Key_eqb (Tetra.vertexKey (nth i table zero))
                   (Tetra.vertexKey (nth j table zero)) = Nat.eqb i j) ->
  (i < List.length table)%nat ->
  Forall (Forall (fun j => (j < List.length table)%nat)) lists ->
  List.length
    (vertexListsWith (nth i table zero)
       (map (map (fun j => nth j table zero)) lists)) =
  List.length (filter (fun indices => existsb (Nat.eqb i) indices) lists).
Proof.
  intros Hkeys Hi Hall. unfold vertexListsWith.
  induction Hall as [|indices lists Hin _ IH]; [reflexivity|].
  cbn [map filter]. rewrite map_map.
  rewrite (has_seen table Hkeys indices i Hi Hin).
  destruct (existsb (Nat.eqb i) indices); cbn [List.length]; now rewrite IH.
Qed.

(** X6.  For [scale > 0], counting by key, each of the four central
    vertices is a corner of exactly 4 of the 5 tetrahedra (the central one
    and three additional ones), and each new vertex is a corner of exactly
    one: the new vertices are not shared between tetrahedra. *)
Theorem vertex_sharing (scale : R) (k : Z) :
  0 < scale -> (0 <= k < 4)%Z ->
  let c := Tetra.createMultipleTetrahedrons scale in
  let lists := map Tetra.vertices (Tetra.tetrahedrons c) in
  List.length lists = 5%nat /\
  List.length (vertexListsWith (centralVertex scale k) lists) = 4%nat /\
  List.length (vertexListsWith (derivedVertex c k) lists) = 1%nat.
Proof.
  intros Hs Hk c lists.
  assert (M : lists =
    map (map (fun j => nth j (vertexTable scale) zero))
        [ [0; 1; 2; 3]; [0; 1; 2; 4]; [1; 2; 3; 5]; [2; 3; 0; 6]; [3; 0; 1; 7] ]%nat).
  { unfold lists, c. rewrite cluster_tetrahedrons. reflexivity. }
  assert (F : Forall (Forall (fun j => (j < List.length (vertexTable scale))%nat))
    [ [0; 1; 2; 3]; [0; 1; 2; 4]; [1; 2; 3; 5]; [2; 3; 0; 6]; [3; 0; 1; 7] ]%nat).
  { rewrite vertexTable_length. repeat constructor. }
  split; [now rewrite M|].
  assert (C : (k = 0 \/ k = 1 \/ k = 2 \/ k = 3)%Z) by lia.
  unfold c. rewrite derivedVertex_newVertex by exact Hk. rewrite M.
  destruct C as [-> | [-> | [-> | ->]]].
  - change (centralVertex scale 0) with (nth 0 (vertexTable scale) zero).
    change (Tetra.newVertex (central scale) scale 0) with (nth 4 (vertexTable scale) zero).
    rewrite !vertexListsWith_indices;
      try (apply vertexTable_keys; exact Hs); try exact F;
      try (rewrite vertexTable_length; lia).
    split; reflexivity.
  - change (centralVertex scale 1) with (nth 1 (vertexTable scale) zero).
    change (Tetra.newVertex (central scale) scale 1) with (nth 5 (vertexTable scale) zero).
    rewrite !vertexListsWith_indices;
      try (apply vertexTable_keys; exact Hs); try exact F;
      try (rewrite vertexTable_length; lia).
    split; reflexivity.
  - change (centralVertex scale 2) with (nth 2 (vertexTable scale) zero).
    change (Tetra.newVertex (central scale) scale 2) with (nth 6 (vertexTable scale) zero).
    rewrite !vertexListsWith_indices;
      try (apply vertexTable_keys; exact Hs); try exact F;
      try (rewrite vertexTable_length; lia).
    split; reflexivity.
  - change (centralVertex scale 3) with (nth 3 (vertexTable scale) zero).
    change (Tetra.newVertex (central scale) scale 3) with (nth 7 (vertexTable scale) zero).
    rewrite !vertexListsWith_indices;
      try (apply vertexTable_keys; exact Hs); try exact F;
      try (rewrite vertexTable_length; lia).
    split; reflexivity.
Qed.

Lemma vertex_sharing_witness :
  let c := Tetra.createMultipleTetrahedrons 1 in
  let lists := map Tetra.vertices (Tetra.tetrahedrons c) in
  List.length lists = 5%nat /\
  List.length (vertexListsWith (centralVertex 1 0) lists) = 4%nat /\
  List.length (vertexListsWith (derivedVertex c 0) lists) = 1%nat.
Proof.
  apply (vertex_sharing 1 0); (lra || lia).
Defined.

(** ** Census of the prism grid *)

Lemma length_filter_Rsum {A : Type} (P : A -> bool) (l : list A) :
  INR (List.length (filter P l)) = Rsum (map (fun a => indicator (P a)) l).
Proof.
  induction l as [|a l IH]; [reflexivity|].
  cbn [filter map Rsum fold_right]. fold (Rsum (map (fun a => indicator (P a)) l)).
  rewrite <- IH. destruct (P a); unfold indicator.
  - cbn [List.length]. rewrite S_INR. lra.
  - lra.
Qed.

Lemma Rsum_plus {A : Type} (f g : A -> R) (l : list A) :
  Rsum (map (fun a => f a + g a) l) = Rsum (map f l) + Rsum (map g l).
Proof.
  induction l as [|a l IH]; simpl; [lra|].
  fold (Rsum (map (fun a => f a + g a) l)) (Rsum (map f l)) (Rsum (map g l)).
  rewrite IH. lra.
Qed.

Lemma Rsum_scale_r (a : R) (f : Z -> R) (ks : list Z) :
  Rsum (map (fun k => f k * a) ks) = Rsum (map f ks) * a.
Proof.
  rewrite (map_ext _ (fun k => a * f k)) by (intros; ring).
  rewrite Rsum_scale. ring.
Qed.

Lemma Rsum_indicator_eq (c : Z) (count : nat) (i : Z) :
  Rsum (map (fun k => indicator (k =? c)%Z) (zrange i count)) =
  indicator ((i <=? c)%Z && (c <? i + Z.of_nat count)%Z).
Proof.
  revert i. induction count as [|n IH]; intros i.
  - simpl. unfold indicator. zcases.
  - cbn [zrange map Rsum fold_right].
    fold (Rsum (map (fun k => indicator (k =? c)%Z) (zrange (i + 1) n))).
    rewrite IH. unfold indicator. zcases; lra.
Qed.

(** Along an axis of at least 2 cells, 2 coordinates are on the boundary. *)
Lemma boundary_sum (dim : Z) :
  (2 <= dim)%Z ->
  Rsum (map (fun k => IZR (onBoundary k dim)) (zrange 0 (Z.to_nat dim))) = 2.
Proof.
  intros Hd.
  rewrite (map_ext _ (fun k => indicator (k =? 0)%Z + indicator (k =? dim - 1)%Z)).
  - rewrite Rsum_plus, !Rsum_indicator_eq. unfold indicator. zcases; lra.
  - intros k. unfold onBoundary, indicator. zcases; lra.
Qed.

Lemma inner_sum (dim : Z) :
  (2 <= dim)%Z ->
  Rsum (map (fun k => 1 - IZR (onBoundary k dim)) (zrange 0 (Z.to_nat dim)))
  = IZR dim - 2.
Proof.
  intros Hd.
  rewrite (map_ext _ (fun k => 1 + (-1) * IZR (onBoundary k dim))) by (intros; ring).
  rewrite Rsum_plus, Rsum_const, Rsum_scale, boundary_sum, zrange_length by exact Hd.
  rewrite INR_IZR_INZ, Z2Nat.id by lia. ring.
Qed.

Section PrismCensus.

Variables (width height depth : Z) (cubeSize spacing : R).

Let group := Prism.createRectangularPrismWithCubes width height depth cubeSize spacing.

(** A sum over the cubes of a product of one factor per axis is the product
    of the sums along the axes. *)
Lemma prism_Rsum_product (f g h : Z -> R) :
  Rsum (map (fun c => f (Prism.gx c) * g (Prism.gy c) * h (Prism.gz c)) group) =
  Rsum (map f (zrange 0 (Z.to_nat width)))
  * Rsum (map g (zrange 0 (Z.to_nat height)))
  * Rsum (map h (zrange 0 (Z.to_nat depth))).
Proof.
  unfold group. rewrite prism_Rsum. cbn [Prism.makeCube Prism.gx Prism.gy Prism.gz].
  rewrite (map_ext _ (fun cx => f cx *
     (Rsum (map g (zrange 0 (Z.to_nat height)))
      * Rsum (map h (zrange 0 (Z.to_nat depth)))))).
  - rewrite Rsum_scale_r. ring.
  - intros cx.
    rewrite (map_ext _ (fun cy => (f cx * Rsum (map h (zrange 0 (Z.to_nat depth)))) * g cy)).
    + rewrite Rsum_scale. ring.
    + intros cy. rewrite (Rsum_scale (f cx * g cy) h). ring.
Qed.

(** The exposure of a cube of the grid, in terms of the boundary tests of
    its three coordinates. *)
Lemma exposure_indicators (c : Prism.Cube) :
  In c group ->
  let bx := IZR (onBoundary (Prism.gx c) width) in
  let by_ := IZR (onBoundary (Prism.gy c) height) in
  let bz := IZR (onBoundary (Prism.gz c) depth) in
  indicator (Prism.exposedFaces c =? 3)%Z = bx * by_ * bz /\
  indicator (Prism.exposedFaces c =? 2)%Z =
    bx * by_ * (1 - bz) + bx * (1 - by_) * bz + (1 - bx) * by_ * bz /\
  indicator (Prism.exposedFaces c =? 1)%Z =
    bx * (1 - by_) * (1 - bz) + (1 - bx) * by_ * (1 - bz) + (1 - bx) * (1 - by_) * bz /\
  indicator (Prism.exposedFaces c =? 0)%Z = (1 - bx) * (1 - by_) * (1 - bz).
Proof.
  intros Hc. apply prism_In in Hc as (cx & cy & cz & _ & _ & _ & ->).
  cbn [Prism.makeCube Prism.gx Prism.gy Prism.gz Prism.exposedFaces].
  unfold Prism.countExposedFaces. rewrite !bump_onBoundary.
  unfold onBoundary.
  destruct ((cx =? 0)%Z || (cx =? width - 1)%Z);
  destruct ((cy =? 0)%Z || (cy =? height - 1)%Z);
  destruct ((cz =? 0)%Z || (cz =? depth - 1)%Z);
    simpl; repeat split; lra.
Qed.

Let onX : R := Rsum (map (fun k => IZR (onBoundary k width)) (zrange 0 (Z.to_nat width))).
Let onY : R := Rsum (map (fun k => IZR (onBoundary k height)) (zrange 0 (Z.to_nat height))).
Let onZ : R := Rsum (map (fun k => IZR (onBoundary k depth)) (zrange 0 (Z.to_nat depth))).
Let offX : R := Rsum (map (fun k => 1 - IZR (onBoundary k width)) (zrange 0 (Z.to_nat width))).
Let offY : R := Rsum (map (fun k => 1 - IZR (onBoundary k height)) (zrange 0 (Z.to_nat height))).
Let offZ : R := Rsum (map (fun k => 1 - IZR (onBoundary k depth)) (zrange 0 (Z.to_nat depth))).

(** The four counts, in terms of the numbers of boundary and of inner
    coordinates along the three axes. *)
Lemma census_by_axes :
  INR (List.length (cubesExposing 3 group)) = onX * onY * onZ /\
  INR (List.length (cubesExposing 2 group)) =
    onX * onY * offZ + onX * offY * onZ + offX * onY * onZ /\
  INR (List.length (cubesExposing 1 group)) =
    onX * offY * offZ + offX * onY * offZ + offX * offY * onZ /\
  INR (List.length (cubesExposing 0 group)) = offX * offY * offZ.
Proof.
  unfold cubesExposing. rewrite !length_filter_Rsum.
  split; [|split; [|split]].
  - rewrite (map_ext_in _ (fun c =>
      IZR (onBoundary (Prism.gx c) width) * IZR (onBoundary (Prism.gy c) height)
      * IZR (onBoundary (Prism.gz c) depth))).
    + apply (prism_Rsum_product (fun k => IZR (onBoundary k width))
               (fun k => IZR (onBoundary k height)) (fun k => IZR (onBoundary k depth))).
    + intros c Hc. now destruct (exposure_indicators c Hc) as (E & _).
  - rewrite (map_ext_in _ (fun c =>
      (IZR (onBoundary (Prism.gx c) width) * IZR (onBoundary (Prism.gy c) height)
         * (1 - IZR (onBoundary (Prism.gz c) depth))
       + IZR (onBoundary (Prism.gx c) width) * (1 - IZR (onBoundary (Prism.gy c) height))
         * IZR (onBoundary (Prism.gz c) depth))
      + (1 - IZR (onBoundary (Prism.gx c) width)) * IZR (onBoundary (Prism.gy c) height)
         * IZR (onBoundary (Prism.gz c) depth))).
    + rewrite !Rsum_plus.
      rewrite (prism_Rsum_product (fun k => IZR (onBoundary k width))
                (fun k => IZR (onBoundary k height)) (fun k => 1 - IZR (onBoundary k depth))).
      rewrite (prism_Rsum_product (fun k => IZR (onBoundary k width))
                (fun k => 1 - IZR (onBoundary k height)) (fun k => IZR (onBoundary k depth))).
      rewrite (prism_Rsum_product (fun k => 1 - IZR (onBoundary k width))
                (fun k => IZR (onBoundary k height)) (fun k => IZR (onBoundary k depth))).
      reflexivity.
    + intros c Hc. destruct (exposure_indicators c Hc) as (_ & E & _). rewrite E. ring.
  - rewrite (map_ext_in _ (fun c =>
      (IZR (onBoundary (Prism.gx c) width) * (1 - IZR (onBoundary (Prism.gy c) height))
         * (1 - IZR (onBoundary (Prism.gz c) depth))
       + (1 - IZR (onBoundary (Prism.gx c) width)) * IZR (onBoundary (Prism.gy c) height)
         * (1 - IZR (onBoundary (Prism.gz c) depth)))
      + (1 - IZR (onBoundary (Prism.gx c) width)) * (1 - IZR (onBoundary (Prism.gy c) height))
         * IZR (onBoundary (Prism.gz c) depth))).
    + rewrite !Rsum_plus.
      rewrite (prism_Rsum_product (fun k => IZR (onBoundary k width))
                (fun k => 1 - IZR (onBoundary k height)) (fun k => 1 - IZR (onBoundary k depth))).
      rewrite (prism_Rsum_product (fun k => 1 - IZR (onBoundary k width))
                (fun k => IZR (onBoundary k height)) (fun k => 1 - IZR (onBoundary k depth))).
      rewrite (prism_Rsum_product (fun k => 1 - IZR (onBoundary k width))
                (fun k => 1 - IZR (onBoundary k height)) (fun k => IZR (onBoundary k depth))).
      reflexivity.
    + intros c Hc. destruct (exposure_indicators c Hc) as (_ & _ & E & _). rewrite E. ring.
  - rewrite (map_ext_in _ (fun c =>
      (1 - IZR (onBoundary (Prism.gx c) width)) * (1 - IZR (onBoundary (Prism.gy c) height))
      * (1 - IZR (onBoundary (Prism.gz c) depth)))).
    + apply (prism_Rsum_product (fun k => 1 - IZR (onBoundary k width))
               (fun k => 1 - IZR (onBoundary k height))
               (fun k => 1 - IZR (onBoundary k depth))).
    + intros c Hc. now destruct (exposure_indicators c Hc) as (_ & _ & _ & E).
Qed.

End PrismCensus.

(** Along an axis of at least one cell, [min dim 2] coordinates are on the
    boundary. *)
Lemma boundary_sum_any (dim : Z) :
  (1 <= dim)%Z ->
  Rsum (map (fun k => IZR (onBoundary k dim)) (zrange 0 (Z.to_nat dim)))
  = IZR (Z.min dim 2).
Proof.
  intros Hd. destruct (Z.eq_dec dim 1) as [->|Hne].
  - change (Z.to_nat 1) with 1%nat. cbn [zrange map Rsum fold_right].
    change (onBoundary 0 1) with 1%Z. change (Z.min 1 2) with 1%Z. lra.
  - rewrite boundary_sum by lia. now rewrite Z.min_r by lia.
Qed.

Lemma inner_sum_any (dim : Z) :
  (1 <= dim)%Z ->
  Rsum (map (fun k => 1 - IZR (onBoundary k dim)) (zrange 0 (Z.to_nat dim)))
  = IZR (dim - Z.min dim 2).
Proof.
  intros Hd. destruct (Z.eq_dec dim 1) as [->|Hne].
  - change (Z.to_nat 1) with 1%nat. cbn [zrange map Rsum fold_right].
    change (onBoundary 0 1) with 1%Z. change (1 - Z.min 1 2)%Z with 0%Z. lra.
  - rewrite inner_sum by lia. rewrite Z.min_r by lia. now rewrite minus_IZR.
Qed.

Lemma INR_to_Z (n : nat) (v : Z) : INR n = IZR v -> Z.of_nat n = v.
Proof. intros H. rewrite INR_IZR_INZ in H. now apply eq_IZR. Qed.

(** X7.  In a grid with every dimension at least 2, whatever the cube size
    and spacing: exactly 8 cubes have three exposed faces,
    [4 * ((w-2) + (h-2) + (d-2))] have two,
    [2 * ((w-2)(h-2) + (w-2)(d-2) + (h-2)(d-2))] have one and
    [(w-2)(h-2)(d-2)] have none. *)
Theorem prism_census (w h d : Z) (cubeSize spacing : R) :
  (2 <= w)%Z -> (2 <= h)%Z -> (2 <= d)%Z ->
  let group := Prism.createRectangularPrismWithCubes w h d cubeSize spacing in
  Z.of_nat (List.length (cubesExposing 3 group)) = 8%Z /\
  Z.of_nat (List.length (cubesExposing 2 group)) =
    (4 * ((w - 2) + (h - 2) + (d - 2)))%Z /\
  Z.of_nat (List.length (cubesExposing 1 group)) =
    (2 * ((w - 2) * (h - 2) + (w - 2) * (d - 2) + (h - 2) * (d - 2)))%Z /\
  Z.of_nat (List.length (cubesExposing 0 group)) = ((w - 2) * (h - 2) * (d - 2))%Z.
Proof.
  intros Hw Hh Hd group. unfold group.
  destruct (census_by_axes w h d cubeSize spacing) as (E3 & E2 & E1 & E0).
  rewrite (boundary_sum w Hw), (boundary_sum h Hh), (boundary_sum d Hd) in E3, E2, E1.
  rewrite (inner_sum w Hw), (inner_sum h Hh), (inner_sum d Hd) in E2, E1, E0.
  repeat split; apply INR_to_Z.
  - rewrite E3. lra.
  - rewrite E2, !mult_IZR, !plus_IZR, !minus_IZR. lra.
  - rewrite E1, !mult_IZR, !plus_IZR, !mult_IZR, !minus_IZR. lra.
  - rewrite E0, !mult_IZR, !minus_IZR. reflexivity.
Qed.

Lemma prism_census_witness :
  let group := Prism.createRectangularPrismWithCubes 3 4 5 1 0.2 in
  Z.of_nat (List.length (cubesExposing 3 group)) = 8%Z /\
  Z.of_nat (List.length (cubesExposing 2 group)) =
    (4 * ((3 - 2) + (4 - 2) + (5 - 2)))%Z /\
  Z.of_nat (List.length (cubesExposing 1 group)) =
    (2 * ((3 - 2) * (4 - 2) + (3 - 2) * (5 - 2) + (4 - 2) * (5 - 2)))%Z /\
  Z.of_nat (List.length (cubesExposing 0 group)) = ((3 - 2) * (4 - 2) * (5 - 2))%Z.
Proof.
  apply (prism_census 3 4 5 1 0.2); lia.
Defined.

(** ** Symmetry and separation of the prism grid *)

Lemma place_mirror (c dim : Z) (cubeSize spacing : R) :
  Prism.place (dim - 1 - c) dim cubeSize spacing = - Prism.place c dim cubeSize spacing.
Proof. unfold Prism.place. rewrite !minus_IZR. field. Qed.

Lemma onBoundary_mirror (c dim : Z) : onBoundary (dim - 1 - c) dim = onBoundary c dim.
Proof. unfold onBoundary. zcases. Qed.

Lemma cubesAt_in_range (w h d : Z) (cubeSize spacing : R) (cx cy cz : Z) :
  (0 <= cx < w)%Z -> (0 <= cy < h)%Z -> (0 <= cz < d)%Z ->
  cubesAt cx cy cz (Prism.createRectangularPrismWithCubes w h d cubeSize spacing)
  = [Prism.makeCube w h d cubeSize spacing cx cy cz].
Proof.
  intros Hx Hy Hz. rewrite prism_cubesAt. unfold below.
  replace ((0 <=? cx)%Z && (cx <? w)%Z) with true by zcases.
  replace ((0 <=? cy)%Z && (cy <? h)%Z) with true by zcases.
  replace ((0 <=? cz)%Z && (cz <? d)%Z) with true by zcases.
  reflexivity.
Qed.

(** X8.  The grid is symmetric about the origin: the cube at the mirrored
    coordinate [(w-1-x, h-1-y, d-1-z)] sits at the negated position and has
    the same number of exposed faces and the same material. *)
Theorem prism_point_symmetry (w h d : Z) (cubeSize spacing : R) (cx cy cz : Z) :
  (0 <= cx < w)%Z -> (0 <= cy < h)%Z -> (0 <= cz < d)%Z ->
  let group := Prism.createRectangularPrismWithCubes w h d cubeSize spacing in
  exists c c',
    cubesAt cx cy cz group = [c] /\
    cubesAt (w - 1 - cx) (h - 1 - cy) (d - 1 - cz) group = [c'] /\
    Prism.position c' =
      mkVector3 (- x (Prism.position c)) (- y (Prism.position c))
                (- z (Prism.position c)) /\
    Prism.exposedFaces c' = Prism.exposedFaces c /\
    Prism.material c' = Prism.material c.
Proof.
  intros Hx Hy Hz group.
  exists (Prism.makeCube w h d cubeSize spacing cx cy cz),
         (Prism.makeCube w h d cubeSize spacing (w - 1 - cx) (h - 1 - cy) (d - 1 - cz)).
  unfold group. rewrite !cubesAt_in_range by lia.
  assert (E : Prism.countExposedFaces w h d (w - 1 - cx) (h - 1 - cy) (d - 1 - cz)
              = Prism.countExposedFaces w h d cx cy cz).
  { unfold Prism.countExposedFaces. rewrite !bump_onBoundary, !onBoundary_mirror.
    reflexivity. }
  split; [reflexivity|]. split; [reflexivity|].
  cbn [Prism.makeCube Prism.position Prism.exposedFaces Prism.material x y z].
  rewrite !place_mirror, E. repeat split.
Qed.

Lemma prism_point_symmetry_witness :
  let group := Prism.createRectangularPrismWithCubes 2 5 11 1 0.2 in
  exists c c',
    cubesAt 0 1 3 group = [c] /\
    cubesAt (2 - 1 - 0) (5 - 1 - 1) (11 - 1 - 3) group = [c'] /\
    Prism.position c' =
      mkVector3 (- x (Prism.position c)) (- y (Prism.position c))
                (- z (Prism.position c)) /\
    Prism.exposedFaces c' = Prism.exposedFaces c /\
    Prism.material c' = Prism.material c.
Proof.
  apply (prism_point_symmetry 2 5 11 1 0.2 0 1 3); lia.
Defined.

Lemma place_difference (c1 c2 dim : Z) (cubeSize spacing : R) :
  Prism.place c1 dim cubeSize spacing - Prism.place c2 dim cubeSize spacing
  = IZR (c1 - c2) * (cubeSize + spacing).
Proof. unfold Prism.place. rewrite minus_IZR. field. Qed.

Lemma steps_apart (k : Z) (pitch : R) :
  0 <= pitch -> k <> 0%Z -> pitch <= Rabs (IZR k * pitch).
Proof.
  intros Hp Hk. rewrite Rabs_mult, (Rabs_right pitch) by lra.
  assert (1 <= Rabs (IZR k)).
  { destruct (Z_lt_le_dec k 0) as [Hn|Hn].
    - rewrite Rabs_left by (apply IZR_lt; lia).
      rewrite <- opp_IZR. apply IZR_le. lia.
    - rewrite Rabs_right by (apply Rle_ge, IZR_le; lia).
      apply IZR_le. lia. }
  nra.
Qed.

Lemma place_extent (c dim : Z) (cubeSize spacing : R) :
  (0 <= c < dim)%Z -> 0 <= cubeSize + spacing ->
  Rabs (Prism.place c dim cubeSize spacing) <= (IZR dim - 1) * (cubeSize + spacing) / 2.
Proof.
  intros Hc Hp. unfold Prism.place.
  assert (0 <= IZR c <= IZR dim - 1).
  { split; [apply IZR_le; lia|].
    replace (IZR dim - 1) with (IZR (dim - 1)) by (rewrite minus_IZR; reflexivity).
    apply IZR_le. lia. }
  apply Rabs_le. nra.
Qed.

(** X9.  With a cube size above zero and a spacing that is not negative,
    the positions of two cubes differ on each axis by the difference of the
    grid coordinates times [cubeSize + spacing]; two cubes at different grid
    coordinates are at least [cubeSize + spacing] apart on some axis, so cubes
    of edge [cubeSize] do not overlap; and every cube centre lies within
    [(dimension - 1) * (cubeSize + spacing) / 2] of the origin on each
    axis. *)
Theorem prism_cubes_apart (w h d : Z) (cubeSize spacing : R)
    (x1 y1 z1 x2 y2 z2 : Z) :
  0 < cubeSize -> 0 <= spacing ->
  (0 <= x1 < w)%Z -> (0 <= y1 < h)%Z -> (0 <= z1 < d)%Z ->
  (0 <= x2 < w)%Z -> (0 <= y2 < h)%Z -> (0 <= z2 < d)%Z ->
  (x1, y1, z1) <> (x2, y2, z2) ->
  let group := Prism.createRectangularPrismWithCubes w h d cubeSize spacing in
  exists c1 c2,
    cubesAt x1 y1 z1 group = [c1] /\ cubesAt x2 y2 z2 group = [c2] /\
    x (Prism.position c1) - x (Prism.position c2) = IZR (x1 - x2) * (cubeSize + spacing) /\
    y (Prism.position c1) - y (Prism.position c2) = IZR (y1 - y2) * (cubeSize + spacing) /\
    z (Prism.position c1) - z (Prism.position c2) = IZR (z1 - z2) * (cubeSize + spacing) /\
    (cubeSize + spacing <= Rabs (x (Prism.position c1) - x (Prism.position c2)) \/
     cubeSize + spacing <= Rabs (y (Prism.position c1) - y (Prism.position c2)) \/
     cubeSize + spacing <= Rabs (z (Prism.position c1) - z (Prism.position c2))) /\
    Rabs (x (Prism.position c1)) <= (IZR w - 1) * (cubeSize + spacing) / 2 /\
    Rabs (y (Prism.position c1)) <= (IZR h - 1) * (cubeSize + spacing) / 2 /\
    Rabs (z (Prism.position c1)) <= (IZR d - 1) * (cubeSize + spacing) / 2.
Proof.
  intros Hcs Hsp Hx1 Hy1 Hz1 Hx2 Hy2 Hz2 Hne group.
  exists (Prism.makeCube w h d cubeSize spacing x1 y1 z1),
         (Prism.makeCube w h d cubeSize spacing x2 y2 z2).
  unfold group. rewrite !cubesAt_in_range by lia.
  cbn [Prism.makeCube Prism.position x y z].
  rewrite !place_difference.
  split; [reflexivity|]. split; [reflexivity|].
  split; [reflexivity|]. split; [reflexivity|]. split; [reflexivity|].
  split.
  - destruct (Z.eq_dec x1 x2) as [Ex|Nx].
    + destruct (Z.eq_dec y1 y2) as [Ey|Ny].
      * destruct (Z.eq_dec z1 z2) as [Ez|Nz]; [congruence|].
        right. right. apply steps_apart; [lra | lia].
      * right. left. apply steps_apart; [lra | lia].
    + left. apply steps_apart; [lra | lia].
  - repeat split; apply place_extent; (lia || lra).
Qed.

Lemma prism_cubes_apart_witness :
  let group := Prism.createRectangularPrismWithCubes 2 5 11 1 0.2 in
  exists c1 c2,
    cubesAt 0 0 0 group = [c1] /\ cubesAt 0 0 1 group = [c2] /\
    x (Prism.position c1) - x (Prism.position c2) = IZR (0 - 0) * (1 + 0.2) /\
    y (Prism.position c1) - y (Prism.position c2) = IZR (0 - 0) * (1 + 0.2) /\
    z (Prism.position c1) - z (Prism.position c2) = IZR (0 - 1) * (1 + 0.2) /\
    (1 + 0.2 <= Rabs (x (Prism.position c1) - x (Prism.position c2)) \/
     1 + 0.2 <= Rabs (y (Prism.position c1) - y (Prism.position c2)) \/
     1 + 0.2 <= Rabs (z (Prism.position c1) - z (Prism.position c2))) /\
    Rabs (x (Prism.position c1)) <= (IZR 2 - 1) * (1 + 0.2) / 2 /\
    Rabs (y (Prism.position c1)) <= (IZR 5 - 1) * (1 + 0.2) / 2 /\
    Rabs (z (Prism.position c1)) <= (IZR 11 - 1) * (1 + 0.2) / 2.
Proof.
  apply (prism_cubes_apart 2 5 11 1 0.2 0 0 0 0 0 1); try lia; try lra.
  intros E. discriminate E.
Defined.

(** ** The geometry of a bond *)

Lemma lengthSq_zero (v : Vector3) : lengthSq v = 0 -> v = zero.
Proof.
  destruct v as [vx vy vz]. unfold lengthSq, zero. simpl. intros H.
  assert (vx = 0) by nra. assert (vy = 0) by nra. assert (vz = 0) by nra.
  now subst.
Qed.

Lemma length_pos_distinct (p q : Vector3) : p <> q -> 0 < length (subVectors q p).
Proof.
  intros Hne. unfold length. apply sqrt_lt_R0.
  destruct (Rle_lt_or_eq_dec 0 _ (lengthSq_nonneg (subVectors q p))) as [H|H];
    [exact H|exfalso].
  symmetry in H. apply lengthSq_zero in H. apply Hne.
  destruct p as [px py pz], q as [qx qy qz]. unfold subVectors, zero in H.
  simpl in H. injection H as Hx Hy Hz. f_equal; lra.
Qed.

Lemma half_length (p q : Vector3) :
  distanceTo (multiplyScalar (addVectors p q) 0.5) p = length (subVectors q p) / 2 /\
  distanceTo (multiplyScalar (addVectors p q) 0.5) q = length (subVectors q p) / 2.
Proof.
  assert (H : forall u, sqrt (/ 2 * / 2 * lengthSq u) = length u / 2).
  { intros u. rewrite sqrt_mult by (try apply lengthSq_nonneg; lra).
    rewrite sqrt_square by lra. unfold length. lra. }
  split; rewrite <- H; unfold distanceTo; f_equal;
    unfold distanceToSquared, lengthSq, multiplyScalar, addVectors, add, subVectors;
    simpl; replace 0.5 with (/ 2) by lra; field.
Qed.

(** X10.  [createBond] adds exactly one mesh to the group.  Its midpoint is
    half the bond length from either atom.  For two atoms at different
    positions the direction is a unit vector, and the two atoms are the
    midpoint moved by half the bond length against and along the direction,
    so the cylinder spans exactly from [atom1] to [atom2].  For two atoms at
    the same position the bond length is 0 and the direction is the zero
    vector. *)
Theorem createBond_spans (i j : Z) (atom1 atom2 : Vector3)
    (group : list Diamond.Object3D) :
  exists b,
    Diamond.createBond i j atom1 atom2 group = group ++ [Diamond.BondMesh b] /\
    Diamond.bondLength b = distanceTo atom1 atom2 /\
    distanceTo (Diamond.midpoint b) atom1 = Diamond.bondLength b / 2 /\
    distanceTo (Diamond.midpoint b) atom2 = Diamond.bondLength b / 2 /\
    (atom1 <> atom2 ->
       0 < Diamond.bondLength b /\
       length (Diamond.direction b) = 1 /\
       atom2 = add (Diamond.midpoint b)
                   (multiplyScalar (Diamond.direction b) (Diamond.bondLength b / 2)) /\
       atom1 = subVectors (Diamond.midpoint b)
                   (multiplyScalar (Diamond.direction b) (Diamond.bondLength b / 2))) /\
    (atom1 = atom2 ->
       Diamond.bondLength b = 0 /\ Diamond.direction b = mkVector3 0 0 0).
Proof.
  eexists. split; [reflexivity|].
  cbn [Diamond.bondLength Diamond.midpoint Diamond.direction].
  destruct (half_length atom1 atom2) as [H1 H2].
  split; [apply length_subVectors|]. split; [exact H1|]. split; [exact H2|].
  split.
  - intros Hne. pose proof (length_pos_distinct atom1 atom2 Hne) as Hpos.
    split; [exact Hpos|]. split; [now apply normalize_unit|].
    rewrite normalize_nonzero by exact Hpos.
    revert Hpos. generalize (length (subVectors atom2 atom1)). intros l Hl.
    destruct atom1 as [px py pz], atom2 as [qx qy qz].
    unfold add, subVectors, multiplyScalar, addVectors, add. simpl.
    replace 0.5 with (/ 2) by lra.
    split; f_equal; field; lra.
  - intros <-.
    assert (E : subVectors atom1 atom1 = zero).
    { unfold subVectors, zero. f_equal; ring. }
    rewrite E.
    assert (L : length zero = 0).
    { unfold length, lengthSq, zero. simpl.
      replace (0 * 0 + 0 * 0 + 0 * 0) with 0 by ring. apply sqrt_0. }
    split; [exact L|].
    unfold normalize, divideScalar, multiplyScalar, zero. simpl. f_equal; ring.
Qed.

(** ** The pair scan under translation, and its size *)

Lemma distanceTo_translate (p q t : Vector3) :
  distanceTo (add p t) (add q t) = distanceTo p q.
Proof.
  unfold distanceTo, distanceToSquared, add. simpl. f_equal. ring.
Qed.

Lemma item_map (f : Vector3 -> Vector3) (ps : list Vector3) (k : Z) :
  (0 <= k < Z.of_nat (List.length ps))%Z ->
  Diamond.item (map f ps) k = f (Diamond.item ps k).
Proof.
  intros Hk. unfold Diamond.item.
  rewrite (nth_indep _ zero (f zero)) by (rewrite length_map; lia).
  apply map_nth.
Qed.

Lemma flat_map_ext_In {A B : Type} (f g : A -> list B) (l : list A) :
  (forall a, In a l -> f a = g a) -> flat_map f l = flat_map g l.
Proof.
  induction l as [|a l IH]; intros H; [reflexivity|].
  cbn [flat_map]. rewrite (H a (or_introl eq_refl)), IH; [reflexivity|].
  intros b Hb. apply H. now right.
Qed.

(** The index pairs of the bonds of a scan. *)
Lemma bondEnds_scan (ps : list Vector3) :
  map bondEnds (Diamond.bonds (bondScan ps)) =
  flat_map (fun i =>
    flat_map (fun j =>
      if Rlt_dec (distanceTo (Diamond.item ps i) (Diamond.item ps j))
                 Diamond.maxBondDistance
      then [(i, j)] else [])
      (zrange (i + 1) (Z.to_nat (Z.of_nat (List.length ps) - (i + 1)))))
    (zrange 0 (Z.to_nat (Z.of_nat (List.length ps)))).
Proof.
  rewrite bonds_bondScan, map_flat_map_zrange.
  apply flat_map_ext. intros i. rewrite map_flat_map_zrange.
  apply flat_map_ext. intros j. rewrite bonds_bondIf.
  destruct (Rlt_dec _ _); reflexivity.
Qed.

(** X11.  Which pairs of atoms [createBonds] joins depends only on the
    relative positions: moving every atom by the same vector leaves the list
    of bonded index pairs, in order, unchanged. *)
Theorem createBonds_translation (ps : list Vector3) (t : Vector3)
    (unitCellSize : R) :
  map bondEnds
    (Diamond.bonds (Diamond.createBonds (map (fun p => add p t) ps) unitCellSize []))
  = map bondEnds (Diamond.bonds (Diamond.createBonds ps unitCellSize [])).
Proof.
  rewrite !createBonds_unfold. cbn [app]. rewrite !bondEnds_scan.
  rewrite length_map.
  apply flat_map_ext_In. intros i Hi. apply zrange_In in Hi.
  apply flat_map_ext_In. intros j Hj. apply zrange_In in Hj.
  rewrite !item_map by lia. now rewrite distanceTo_translate.
Qed.

Lemma bondScan_only_bonds (ps : list Vector3) :
  bondScan ps = map Diamond.BondMesh (Diamond.bonds (bondScan ps)).
Proof.
  rewrite bonds_bondScan. unfold bondScan. cbv zeta.
  rewrite map_flat_map_zrange. apply flat_map_ext. intros i.
  rewrite map_flat_map_zrange. apply flat_map_ext. intros j.
  unfold bondIf. cbv zeta. destruct (Rlt_dec _ _); reflexivity.
Qed.

Lemma scan_row_bound (ps : list Vector3) (i : Z) (js : list Z) :
  (List.length (flat_map (fun j => Diamond.bonds (bondIf ps i j)) js)
   <= List.length js)%nat.
Proof.
  induction js as [|j js IH]; [simpl; lia|].
  cbn [flat_map]. rewrite length_app, bonds_bondIf.
  destruct (Rlt_dec _ _); simpl; lia.
Qed.

Lemma scan_rows_bound (ps : list Vector3) (m : nat) (i : Z) :
  (0 <= i)%Z -> (i + Z.of_nat m <= Z.of_nat (List.length ps))%Z ->
  (2 * Z.of_nat (List.length
     (flat_map (fun i =>
        flat_map (fun j => Diamond.bonds (bondIf ps i j))
          (zrange (i + 1) (Z.to_nat (Z.of_nat (List.length ps) - (i + 1)))))
        (zrange i m)))
   <= Z.of_nat m * (2 * Z.of_nat (List.length ps) - 2 * i - Z.of_nat m - 1))%Z.
Proof.
  revert i. induction m as [|m IH]; intros i Hi Hm; [simpl; lia|].
  cbn [zrange flat_map]. rewrite length_app.
  pose proof (scan_row_bound ps i
    (zrange (i + 1) (Z.to_nat (Z.of_nat (List.length ps) - (i + 1))))) as Hrow.
  rewrite zrange_length in Hrow.
  specialize (IH (i + 1)%Z ltac:(lia) ltac:(lia)).
  nia.
Qed.

(** X12.  [createBonds] only appends bond meshes: the objects already in
    the group stay in front, in order, and the atom meshes of the group are
    unchanged.  A scan over [n] atoms adds at most [n * (n - 1) / 2] bonds,
    and over fewer than two atoms it adds nothing. *)
Theorem createBonds_appends (ps : list Vector3) (unitCellSize : R)
    (group : list Diamond.Object3D) :
  let n := Z.of_nat (List.length ps) in
  exists added : list Diamond.Bond,
    Diamond.createBonds ps unitCellSize group =
      group ++ map Diamond.BondMesh added /\
    Diamond.atoms (Diamond.createBonds ps unitCellSize group) = Diamond.atoms group /\
    Diamond.bonds (Diamond.createBonds ps unitCellSize group) =
      Diamond.bonds group ++ added /\
    (2 * Z.of_nat (List.length added) <= n * (n - 1))%Z /\
    ((n <= 1)%Z -> Diamond.createBonds ps unitCellSize group = group).
Proof.
  intros n. exists (Diamond.bonds (bondScan ps)).
  rewrite createBonds_unfold.
  assert (Hb : (2 * Z.of_nat (List.length (Diamond.bonds (bondScan ps))) <= n * (n - 1))%Z).
  { rewrite bonds_bondScan.
    pose proof (scan_rows_bound ps (List.length ps) 0 ltac:(lia) ltac:(lia)) as H.
    rewrite Nat2Z.id. unfold n. lia. }
  split; [now rewrite <- bondScan_only_bonds|].
  split.
  { unfold Diamond.atoms. rewrite flat_map_app.
    fold (Diamond.atoms group) (Diamond.atoms (bondScan ps)).
    now rewrite atoms_of_scan, app_nil_r. }
  split.
  { unfold Diamond.bonds at 1. now rewrite flat_map_app. }
  split; [exact Hb|].
  intros Hn.
  assert (E : Diamond.bonds (bondScan ps) = []).
  { apply length_zero_iff_nil. nia. }
  rewrite bondScan_only_bonds, E. apply app_nil_r.
Qed.

(** ** The sites of a lattice of any size *)

Lemma latticeSites_In (cellsX cellsY cellsZ : Z) (s : Site) :
  In s (latticeSites cellsX cellsY cellsZ) <->
  exists cx cy cz,
    (0 <= cx < cellsX)%Z /\ (0 <= cy < cellsY)%Z /\ (0 <= cz < cellsZ)%Z /\
    In s (cellSites cellsX cellsY cellsZ cx cy cz).
Proof.
  unfold latticeSites. split.
  - intros H. apply in_flat_map in H as (cx & Hx & H).
    apply in_flat_map in H as (cy & Hy & H).
    apply in_flat_map in H as (cz & Hz & H).
    apply zrange_In in Hx, Hy, Hz.
    exists cx, cy, cz. repeat split; try lia. exact H.
  - intros (cx & cy & cz & Hx & Hy & Hz & H).
    apply in_flat_map. exists cx. split; [apply zrange_In; lia|].
    apply in_flat_map. exists cy. split; [apply zrange_In; lia|].
    apply in_flat_map. exists cz. split; [apply zrange_In; lia|]. exact H.
Qed.

(** The eight sites of a cell, one by one. *)
Ltac cell_sites H :=
  unfold cellSites in H; cbn [flat_map app In] in H;
  repeat (destruct H as [H|H];
    [ symmetry in H;
      let Hx := fresh "Hx" in let Hy := fresh "Hy" in let Hz := fresh "Hz" in
      apply pair_equal_spec in H as [H Hz];
      apply pair_equal_spec in H as [Hx Hy] | ]);
  [ .. | contradiction ].

Lemma cellSites_onLattice (cellsX cellsY cellsZ cx cy cz : Z) (s : Site) :
  In s (cellSites cellsX cellsY cellsZ cx cy cz) ->
  onLattice (cellsX + cellsY + cellsZ) s.
Proof.
  intros H. destruct s as [[kx ky] kz]. unfold onLattice.
  cell_sites H; subst; Z.div_mod_to_equations; lia.
Qed.

Lemma cellSites_cell (cellsX cellsY cellsZ cx cy cz : Z) (s : Site) :
  In s (cellSites cellsX cellsY cellsZ cx cy cz) ->
  let '(kx, ky, kz) := s in
  ((kx + 2 * cellsX) / 4 = cx /\ (ky + 2 * cellsY) / 4 = cy /\
   (kz + 2 * cellsZ) / 4 = cz)%Z.
Proof.
  intros H. destruct s as [[kx ky] kz].
  cell_sites H; subst; Z.div_mod_to_equations; lia.
Qed.

Lemma cellSites_NoDup (cellsX cellsY cellsZ cx cy cz : Z) :
  NoDup (cellSites cellsX cellsY cellsZ cx cy cz).
Proof.
  unfold cellSites. cbn [flat_map app].
  repeat (constructor;
    [ cbn [In]; intros H;
      repeat (destruct H as [H|H];
        [ apply pair_equal_spec in H as [H ?];
          apply pair_equal_spec in H as [? ?]; lia | ]);
      contradiction | ]).
  constructor.
Qed.

Lemma NoDup_flat_map_zrange {A : Type} (F : Z -> list A) (key : A -> Z)
    (count : nat) (i : Z) :
  (forall k, NoDup (F k)) ->
  (forall k a, In a (F k) -> key a = k) ->
  NoDup (flat_map F (zrange i count)).
Proof.
  intros Hnd Hkey. revert i. induction count as [|n IH]; intros i; [constructor|].
  cbn [zrange flat_map]. apply NoDup_app; [apply Hnd | apply IH |].
  intros a Ha Hb. apply in_flat_map in Hb as (k & Hk & Hb).
  apply zrange_In in Hk. apply Hkey in Ha, Hb. lia.
Qed.

(** No site is produced twice. *)
Lemma latticeSites_NoDup (cellsX cellsY cellsZ : Z) :
  NoDup (latticeSites cellsX cellsY cellsZ).
Proof.
  unfold latticeSites.
  apply (NoDup_flat_map_zrange _ (fun s : Site => ((fst (fst s) + 2 * cellsX) / 4)%Z)).
  - intros cx.
    apply (NoDup_flat_map_zrange _ (fun s : Site => ((snd (fst s) + 2 * cellsY) / 4)%Z)).
    + intros cy.
      apply (NoDup_flat_map_zrange _ (fun s : Site => ((snd s + 2 * cellsZ) / 4)%Z)).
      * intros cz. apply cellSites_NoDup.
      * intros cz s Hs. apply cellSites_cell in Hs. destruct s as [[kx ky] kz].
        simpl. tauto.
    + intros cy s Hs. apply in_flat_map in Hs as (cz & _ & Hs).
      apply cellSites_cell in Hs. destruct s as [[kx ky] kz]. simpl. tauto.
  - intros cx s Hs. apply in_flat_map in Hs as (cy & _ & Hs).
    apply in_flat_map in Hs as (cz & _ & Hs).
    apply cellSites_cell in Hs. destruct s as [[kx ky] kz]. simpl. tauto.
Qed.

Lemma latticeSites_onLattice (cellsX cellsY cellsZ : Z) (s : Site) :
  In s (latticeSites cellsX cellsY cellsZ) ->
  onLattice (cellsX + cellsY + cellsZ) s.
Proof.
  intros H. apply latticeSites_In in H as (cx & cy & cz & _ & _ & _ & H).
  now apply cellSites_onLattice in H.
Qed.

Lemma latticeSites_bounds (cellsX cellsY cellsZ : Z) (s : Site) :
  In s (latticeSites cellsX cellsY cellsZ) ->
  let '(kx, ky, kz) := s in
  (- 2 * cellsX <= kx <= 2 * cellsX - 1 /\ - 2 * cellsY <= ky <= 2 * cellsY - 1 /\
   - 2 * cellsZ <= kz <= 2 * cellsZ - 1)%Z.
Proof.
  intros H. apply latticeSites_In in H as (cx & cy & cz & Hx & Hy & Hz & H).
  destruct s as [[kx ky] kz]. cell_sites H; subst; lia.
Qed.

Lemma small_square (d : Z) :
  (d * d < 8)%Z -> (d = -2 \/ d = -1 \/ d = 0 \/ d = 1 \/ d = 2)%Z.
Proof. intros H. assert (-3 < d < 3)%Z by nia. lia. Qed.

(** Two sites of a lattice closer than 8 squared quarter-cells are the same
    site or differ by one quarter-cell on every axis. *)
Lemma close_sites (S : Z) (p q : Site) :
  onLattice S p -> onLattice S q -> (siteDistSq p q < 8)%Z ->
  p = q \/
  (let '(kx, ky, kz) := p in
   let '(lx, ly, lz) := q in
   Z.abs (kx - lx) = 1 /\ Z.abs (ky - ly) = 1 /\ Z.abs (kz - lz) = 1)%Z.
Proof.
  destruct p as [[kx ky] kz], q as [[lx ly] lz]. unfold onLattice, siteDistSq.
  intros (A1 & A2 & A3) (B1 & B2 & B3) HD.
  remember (kx - lx)%Z as dx eqn:Ex. remember (ky - ly)%Z as dy eqn:Ey.
  remember (kz - lz)%Z as dz eqn:Ez.
  assert (Hx : (dx * dx < 8)%Z) by nia. assert (Hy : (dy * dy < 8)%Z) by nia.
  assert (Hz : (dz * dz < 8)%Z) by nia.
  apply small_square in Hx, Hy, Hz.
  assert (lx = kx - dx)%Z by lia. assert (ly = ky - dy)%Z by lia.
  assert (lz = kz - dz)%Z by lia.
  subst lx ly lz. clear Ex Ey Ez.
  destruct Hx as [-> | [-> | [-> | [-> | ->]]]];
  destruct Hy as [-> | [-> | [-> | [-> | ->]]]];
  destruct Hz as [-> | [-> | [-> | [-> | ->]]]];
  try (exfalso; lia);
  first [ right; lia
        | left; repeat f_equal; lia
        | exfalso; Z.div_mod_to_equations; lia ].
Qed.

Lemma distinct_sites_apart (S : Z) (p q : Site) :
  onLattice S p -> onLattice S q -> p <> q -> (3 <= siteDistSq p q)%Z.
Proof.
  intros Hp Hq Hne. destruct (Z_lt_le_dec (siteDistSq p q) 8) as [H|H]; [|lia].
  destruct (close_sites S p q Hp Hq H) as [E|E]; [contradiction|].
  destruct p as [[kx ky] kz], q as [[lx ly] lz]. unfold siteDistSq. nia.
Qed.

(** ** The atoms of a lattice of any size *)

Section AnyLattice.

Variables (cellsX cellsY cellsZ : Z) (a : R).

Let built := Diamond.createDiamondStructure cellsX cellsY cellsZ a.
Let ps := Diamond.atomPositions built.
Let sites := latticeSites cellsX cellsY cellsZ.

Lemma lattice_atoms_sites : ps = map (sitePoint a) sites.
Proof.
  unfold ps, built, sites. now rewrite diamond_atomPositions, latticeAtoms_sites.
Qed.

Lemma lattice_item (k : Z) :
  (0 <= k < Z.of_nat (List.length ps))%Z ->
  Diamond.item ps k = sitePoint a (siteAt sites k) /\ In (siteAt sites k) sites.
Proof.
  rewrite lattice_atoms_sites, length_map. intros Hk.
  unfold Diamond.item, siteAt. split.
  - rewrite (nth_indep _ zero (sitePoint a (0, 0, 0)%Z)) by (rewrite length_map; lia).
    apply map_nth.
  - apply nth_In. lia.
Qed.

Lemma lattice_items_differ (i j : Z) :
  (0 <= i < j)%Z -> (j < Z.of_nat (List.length ps))%Z ->
  siteAt sites i <> siteAt sites j.
Proof.
  rewrite lattice_atoms_sites, length_map. intros Hij Hj E.
  unfold siteAt in E.
  pose proof (latticeSites_NoDup cellsX cellsY cellsZ) as N. fold sites in N.
  rewrite (NoDup_nth sites (0, 0, 0)%Z) in N.
  specialize (N (Z.to_nat i) (Z.to_nat j) ltac:(lia) ltac:(lia) E). lia.
Qed.

Lemma lattice_distance (i j : Z) :
  (0 <= i < Z.of_nat (List.length ps))%Z -> (0 <= j < Z.of_nat (List.length ps))%Z ->
  distanceTo (Diamond.item ps i) (Diamond.item ps j) =
  sqrt (IZR (siteDistSq (siteAt sites i) (siteAt sites j)) * (a / 4 * (a / 4))).
Proof.
  intros Hi Hj.
  destruct (lattice_item i Hi) as [-> _]. destruct (lattice_item j Hj) as [-> _].
  unfold distanceTo. now rewrite sitePoint_distanceToSquared.
Qed.

(** Two different entries of [atomPositions] are at least 3 squared
    quarter-cells apart. *)
Lemma lattice_pairs_apart (i j : Z) :
  (0 <= i < j)%Z -> (j < Z.of_nat (List.length ps))%Z ->
  (3 <= siteDistSq (siteAt sites i) (siteAt sites j))%Z.
Proof.
  intros Hij Hj.
  destruct (lattice_item i ltac:(lia)) as [_ Hi'].
  destruct (lattice_item j ltac:(lia)) as [_ Hj'].
  apply (distinct_sites_apart (cellsX + cellsY + cellsZ)).
  - now apply latticeSites_onLattice.
  - now apply latticeSites_onLattice.
  - now apply lattice_items_differ.
Qed.

Lemma lattice_min_distance (i j : Z) :
  (0 <= i < j)%Z -> (j < Z.of_nat (List.length ps))%Z ->
  sqrt 3 / 4 * Rabs a <= distanceTo (Diamond.item ps i) (Diamond.item ps j).
Proof.
  intros Hij Hj. rewrite lattice_distance by lia.
  pose proof (lattice_pairs_apart i j Hij Hj) as H3. apply IZR_le in H3.
  replace (sqrt 3 / 4 * Rabs a) with (sqrt (3 * (a / 4 * (a / 4)))).
  - apply sqrt_le_1_alt. nra.
  - rewrite sqrt_3_abs. unfold Rdiv. rewrite Rabs_mult.
    rewrite (Rabs_right (/ 4)) by lra. ring.
Qed.

End AnyLattice.

(** X13.  For every lattice constant that is not negative, every atom lies
    in the box from [- cells * a / 2] to [cells * a / 2 - a / 4] on each
    axis: the lattice is never wider than the cell grid, and its far side
    stops a quarter cell short. *)
Theorem diamond_atoms_in_box (cellsX cellsY cellsZ : Z) (a : R) (p : Vector3) :
  0 <= a ->
  In p (Diamond.atomPositions (Diamond.createDiamondStructure cellsX cellsY cellsZ a)) ->
  - (IZR cellsX * a / 2) <= x p <= IZR cellsX * a / 2 - a / 4 /\
  - (IZR cellsY * a / 2) <= y p <= IZR cellsY * a / 2 - a / 4 /\
  - (IZR cellsZ * a / 2) <= z p <= IZR cellsZ * a / 2 - a / 4.
Proof.
  intros Ha Hp. rewrite lattice_atoms_sites in Hp.
  apply in_map_iff in Hp as (s & <- & Hs).
  apply latticeSites_bounds in Hs. destruct s as [[kx ky] kz].
  destruct Hs as ((Hx1 & Hx2) & (Hy1 & Hy2) & (Hz1 & Hz2)).
  apply IZR_le in Hx1, Hx2, Hy1, Hy2, Hz1, Hz2.
  rewrite ?minus_IZR, ?mult_IZR, ?opp_IZR in *.
  unfold sitePoint. cbn [x y z]. repeat split; nra.
Qed.

Lemma diamond_atoms_in_box_witness :
  - (IZR 2 * 3.57 / 2) <= x (mkVector3 (-3.57) (-3.57) (-3.57))
     <= IZR 2 * 3.57 / 2 - 3.57 / 4 /\
  - (IZR 2 * 3.57 / 2) <= y (mkVector3 (-3.57) (-3.57) (-3.57))
     <= IZR 2 * 3.57 / 2 - 3.57 / 4 /\
  - (IZR 2 * 3.57 / 2) <= z (mkVector3 (-3.57) (-3.57) (-3.57))
     <= IZR 2 * 3.57 / 2 - 3.57 / 4.
Proof.
  apply (diamond_atoms_in_box 2 2 2 3.57 (mkVector3 (-3.57) (-3.57) (-3.57))).
  - lra.
  - rewrite diamond_atomPositions. left.
    unfold cellBase, add, multiplyScalar. simpl. f_equal; lra.
Defined.

Lemma sitePoint_injective (a : R) (p q : Site) :
  a <> 0 -> sitePoint a p = sitePoint a q -> p = q.
Proof.
  intros Ha E. destruct p as [[kx ky] kz], q as [[lx ly] lz].
  unfold sitePoint in E. injection E as Ex Ey Ez.
  assert (Hq : a / 4 <> 0) by lra.
  apply Rmult_eq_reg_r in Ex, Ey, Ez; try exact Hq.
  apply eq_IZR in Ex, Ey, Ez. now subst.
Qed.

Lemma NoDup_map_injective {A B : Type} (f : A -> B) (l : list A) :
  (forall u v, f u = f v -> u = v) -> NoDup l -> NoDup (map f l).
Proof.
  intros Hinj H. induction H as [|u l Hu _ IH]; [constructor|].
  cbn [map]. constructor; [|exact IH].
  intros Hin. apply in_map_iff in Hin as (v & E & Hv).
  apply Hinj in E. now subst.
Qed.

(** X14.  For every cell count and every lattice constant other than 0, no
    two entries of [atomPositions] are the same point: the two sublattices
    and the neighbouring cells never put two atoms in one place. *)
Theorem diamond_atoms_distinct (cellsX cellsY cellsZ : Z) (a : R) :
  a <> 0 ->
  NoDup (Diamond.atomPositions (Diamond.createDiamondStructure cellsX cellsY cellsZ a)).
Proof.
  intros Ha. rewrite lattice_atoms_sites.
  apply NoDup_map_injective.
  - intros p q. now apply sitePoint_injective.
  - apply latticeSites_NoDup.
Qed.

Lemma diamond_atoms_distinct_witness :
  NoDup (Diamond.atomPositions (Diamond.createDiamondStructure 2 2 2 3.57)).
Proof.
  apply (diamond_atoms_distinct 2 2 2 3.57). lra.
Defined.

(** X15.  In a lattice of any size, two different atoms are never closer
    than [sqrt 3 / 4 * |a|], the length of a quarter of the cell diagonal.
    The threshold 1.8 does not follow the lattice constant: as soon as
    [sqrt 3 / 4 * |a|] reaches 1.8 (from [a] about 4.16 on) the builder
    creates no bond at all. *)
Theorem diamond_nearest_neighbours (cellsX cellsY cellsZ : Z) (a : R) :
  let built := Diamond.createDiamondStructure cellsX cellsY cellsZ a in
  let ps := Diamond.atomPositions built in
  (forall i j, (0 <= i < j)%Z -> (j < Z.of_nat (List.length ps))%Z ->
     sqrt 3 / 4 * Rabs a <= distanceTo (Diamond.item ps i) (Diamond.item ps j)) /\
  (1.8 <= sqrt 3 / 4 * Rabs a -> Diamond.bonds (Diamond.diamondGroup built) = []).
Proof.
  cbv zeta. split.
  - intros i j Hij Hj. now apply lattice_min_distance.
  - intros Hfar.
    pose proof (diamond_bonds_scan cellsX cellsY cellsZ a) as E. cbv zeta in E.
    rewrite E. clear E.
    destruct (Diamond.bonds (bondScan _)) as [|b bs] eqn:Eb; [reflexivity|exfalso].
    assert (Hb : In b (b :: bs)) by now left.
    rewrite <- Eb in Hb.
    apply bondScan_In in Hb as (i & j & Hij & Hj & Hd & _).
    pose proof (lattice_min_distance cellsX cellsY cellsZ a i j Hij Hj) as Hmin.
    unfold Diamond.maxBondDistance in Hd. lra.
Qed.

Lemma half_diagonal_any (a : R) :
  0 <= a -> a / sqrt 2 = sqrt (8 * (a / 4 * (a / 4))).
Proof.
  intros Ha. replace (8 * (a / 4 * (a / 4))) with (a * a / 2) by field.
  rewrite sqrt_div_alt by lra. now rewrite sqrt_square.
Qed.

(** X16.  In a lattice of any size with a lattice constant [a > 0] for
    which same-sublattice neighbours are out of reach
    ([1.8 <= a / sqrt 2]), every bond joins two atoms that differ by exactly
    [a / 4] on each of the three axes, and has length [sqrt 3 / 4 * a]; and
    when [sqrt 3 / 4 * a < 1.8], every pair of atoms that differ by [a / 4]
    on each axis is bonded. *)
Theorem diamond_bonds_quarter_diagonal (cellsX cellsY cellsZ : Z) (a : R) :
  0 < a -> 1.8 <= a / sqrt 2 ->
  let built := Diamond.createDiamondStructure cellsX cellsY cellsZ a in
  let ps := Diamond.atomPositions built in
  let bs := Diamond.bonds (Diamond.diamondGroup built) in
  (forall b, In b bs ->
     let p := Diamond.item ps (Diamond.end1 b) in
     let q := Diamond.item ps (Diamond.end2 b) in
     Rabs (x p - x q) = a / 4 /\ Rabs (y p - y q) = a / 4 /\
     Rabs (z p - z q) = a / 4 /\
     Diamond.bondLength b = sqrt 3 / 4 * a) /\
  (sqrt 3 / 4 * a < 1.8 ->
   forall i j, (0 <= i < j)%Z -> (j < Z.of_nat (List.length ps))%Z ->
     let p := Diamond.item ps i in
     let q := Diamond.item ps j in
     Rabs (x p - x q) = a / 4 -> Rabs (y p - y q) = a / 4 ->
     Rabs (z p - z q) = a / 4 ->
     exists b, In b bs /\ Diamond.end1 b = i /\ Diamond.end2 b = j).
Proof.
  intros Ha Hfar. cbv zeta.
  pose proof (diamond_bonds_scan cellsX cellsY cellsZ a) as E. cbv zeta in E.
  rewrite E. clear E.
  split.
  - intros b Hb.
    apply bondScan_In in Hb as (i & j & Hij & Hj & Hd & ->).
    cbn [bondOf Diamond.end1 Diamond.end2 Diamond.bondLength].
    rewrite length_subVectors.
    pose proof (lattice_distance cellsX cellsY cellsZ a i j ltac:(lia) ltac:(lia)) as Hdist.
    destruct (lattice_item cellsX cellsY cellsZ a i ltac:(lia)) as [Ei Hi].
    destruct (lattice_item cellsX cellsY cellsZ a j ltac:(lia)) as [Ej Hj'].
    pose proof (lattice_items_differ cellsX cellsY cellsZ a i j Hij Hj) as Hne.
    apply latticeSites_onLattice in Hi, Hj'.
    set (si := siteAt (latticeSites cellsX cellsY cellsZ) i) in *.
    set (sj := siteAt (latticeSites cellsX cellsY cellsZ) j) in *.
    assert (HD : (siteDistSq si sj < 8)%Z).
    { apply lt_IZR. unfold Diamond.maxBondDistance in Hd.
      rewrite Hdist in Hd. rewrite half_diagonal_any in Hfar by lra.
      assert (Hlt : sqrt (IZR (siteDistSq si sj) * (a / 4 * (a / 4)))
                    < sqrt (8 * (a / 4 * (a / 4)))) by lra.
      apply sqrt_lt_0_alt in Hlt. nra. }
    destruct (close_sites _ si sj Hi Hj' HD) as [Eq|Hq]; [contradiction|].
    rewrite Hdist, Ei, Ej.
    destruct si as [[kx ky] kz], sj as [[lx ly] lz].
    destruct Hq as (Qx & Qy & Qz).
    assert (A : forall k l : Z, Z.abs (k - l) = 1%Z ->
                Rabs (IZR k * (a / 4) - IZR l * (a / 4)) = a / 4).
    { intros k l H.
      replace (IZR k * (a / 4) - IZR l * (a / 4)) with (IZR (k - l) * (a / 4))
        by (rewrite minus_IZR; ring).
      rewrite Rabs_mult, (Rabs_right (a / 4)) by lra.
      rewrite <- abs_IZR, H. lra. }
    unfold sitePoint. cbn [x y z].
    split; [now apply A|]. split; [now apply A|]. split; [now apply A|].
    replace (siteDistSq (kx, ky, kz) (lx, ly, lz)) with 3%Z
      by (unfold siteDistSq; nia).
    rewrite sqrt_mult by nra. rewrite sqrt_square by lra. lra.
  - intros Hnear i j Hij Hj Hx Hy Hz.
    exists (bondOf (Diamond.atomPositions
                      (Diamond.createDiamondStructure cellsX cellsY cellsZ a)) i j).
    split; [|split; reflexivity].
    apply bondScan_In. exists i, j.
    split; [lia|]. split; [lia|]. split; [|reflexivity].
    unfold Diamond.maxBondDistance.
    unfold distanceTo, distanceToSquared. cbv zeta.
    assert (S : forall u, Rabs u = a / 4 -> u * u = a / 4 * (a / 4)).
    { intros u Hu. pose proof (Rsqr_abs u) as H. unfold Rsqr in H.
      now rewrite H, Hu. }
    rewrite (S _ Hx), (S _ Hy), (S _ Hz).
    replace (a / 4 * (a / 4) + a / 4 * (a / 4) + a / 4 * (a / 4))
      with (3 * (a / 4 * (a / 4))) by ring.
    rewrite sqrt_mult by nra. rewrite sqrt_square by lra. lra.
Qed.

Lemma diamond_bonds_quarter_diagonal_witness :
  let built := Diamond.createDiamondStructure 2 2 2 3.57 in
  let ps := Diamond.atomPositions built in
  let bs := Diamond.bonds (Diamond.diamondGroup built) in
  (forall b, In b bs ->
     let p := Diamond.item ps (Diamond.end1 b) in
     let q := Diamond.item ps (Diamond.end2 b) in
     Rabs (x p - x q) = 3.57 / 4 /\ Rabs (y p - y q) = 3.57 / 4 /\
     Rabs (z p - z q) = 3.57 / 4 /\
     Diamond.bondLength b = sqrt 3 / 4 * 3.57) /\
  (sqrt 3 / 4 * 3.57 < 1.8 ->
   forall i j, (0 <= i < j)%Z -> (j < Z.of_nat (List.length ps))%Z ->
     let p := Diamond.item ps i in
     let q := Diamond.item ps j in
     Rabs (x p - x q) = 3.57 / 4 -> Rabs (y p - y q) = 3.57 / 4 ->
     Rabs (z p - z q) = 3.57 / 4 ->
     exists b, In b bs /\ Diamond.end1 b = i /\ Diamond.end2 b = j).
Proof.
  apply (diamond_bonds_quarter_diagonal 2 2 2 3.57).
  - lra.
  - pose proof threshold_below_half_diagonal as H. cbv zeta in H. lra.
Defined.

(** ** The centroid of the lattice *)

Lemma axis_offset_sum (cells : Z) (a : R) :
  (0 <= cells)%Z ->
  Rsum (map (fun k => 8 * ((IZR k - IZR cells / 2) * a) + 3 * a)
            (zrange 0 (Z.to_nat cells))) = - a * IZR cells.
Proof.
  intros Hc.
  rewrite (map_ext _ (fun k => IZR k * (8 * a) + (3 * a - 4 * IZR cells * a)))
    by (intros; field).
  rewrite Rsum_affine, INR_IZR_INZ, Z2Nat.id by exact Hc. simpl. field.
Qed.

Section LatticeCentroid.

Variables (cellsX cellsY cellsZ : Z) (a : R).

Hypotheses (Hx : (0 <= cellsX)%Z) (Hy : (0 <= cellsY)%Z) (Hz : (0 <= cellsZ)%Z).

Lemma cell_sums (cx cy cz : Z) :
  Rsum (map x (cellAtoms cellsX cellsY cellsZ a cx cy cz))
    = 8 * ((IZR cx - IZR cellsX / 2) * a) + 3 * a /\
  Rsum (map y (cellAtoms cellsX cellsY cellsZ a cx cy cz))
    = 8 * ((IZR cy - IZR cellsY / 2) * a) + 3 * a /\
  Rsum (map z (cellAtoms cellsX cellsY cellsZ a cx cy cz))
    = 8 * ((IZR cz - IZR cellsZ / 2) * a) + 3 * a.
Proof.
  unfold cellAtoms, fccOffsets, cellBase, add, multiplyScalar.
  cbn [flat_map app map Rsum fold_right x y z]. repeat split; lra.
Qed.

Lemma lattice_Rsum (g : Vector3 -> R) :
  Rsum (map g (latticeAtoms cellsX cellsY cellsZ a)) =
  Rsum (map (fun cx =>
    Rsum (map (fun cy =>
      Rsum (map (fun cz => Rsum (map g (cellAtoms cellsX cellsY cellsZ a cx cy cz)))
        (zrange 0 (Z.to_nat cellsZ))))
      (zrange 0 (Z.to_nat cellsY))))
    (zrange 0 (Z.to_nat cellsX))).
Proof.
  unfold latticeAtoms. rewrite Rsum_flat_map.
  f_equal. apply map_ext. intros cx. rewrite Rsum_flat_map.
  f_equal. apply map_ext. intros cy. now rewrite Rsum_flat_map.
Qed.

Lemma lattice_sum_x :
  Rsum (map x (latticeAtoms cellsX cellsY cellsZ a)) =
  - a * (IZR cellsX * IZR cellsY * IZR cellsZ).
Proof.
  rewrite lattice_Rsum.
  rewrite (map_ext _ (fun cx =>
    (INR (Z.to_nat cellsY) * INR (Z.to_nat cellsZ))
    * (8 * ((IZR cx - IZR cellsX / 2) * a) + 3 * a))).
  - rewrite Rsum_scale, axis_offset_sum, !INR_IZR_INZ, !Z2Nat.id by assumption. ring.
  - intros cx.
    rewrite (map_ext _ (fun cy =>
      INR (Z.to_nat cellsZ) * (8 * ((IZR cx - IZR cellsX / 2) * a) + 3 * a))).
    + rewrite Rsum_const, zrange_length. ring.
    + intros cy.
      rewrite (map_ext _ (fun _ => 8 * ((IZR cx - IZR cellsX / 2) * a) + 3 * a)).
      * now rewrite Rsum_const, zrange_length.
      * intros cz. now destruct (cell_sums cx cy cz) as (E & _).
Qed.

Lemma lattice_sum_y :
  Rsum (map y (latticeAtoms cellsX cellsY cellsZ a)) =
  - a * (IZR cellsX * IZR cellsY * IZR cellsZ).
Proof.
  rewrite lattice_Rsum.
  rewrite (map_ext _ (fun _ => INR (Z.to_nat cellsZ) * (- a * IZR cellsY))).
  - rewrite Rsum_const, zrange_length, !INR_IZR_INZ, !Z2Nat.id by assumption. ring.
  - intros cx.
    rewrite (map_ext _ (fun cy =>
      INR (Z.to_nat cellsZ) * (8 * ((IZR cy - IZR cellsY / 2) * a) + 3 * a))).
    + now rewrite Rsum_scale, axis_offset_sum.
    + intros cy.
      rewrite (map_ext _ (fun _ => 8 * ((IZR cy - IZR cellsY / 2) * a) + 3 * a)).
      * now rewrite Rsum_const, zrange_length.
      * intros cz. now destruct (cell_sums cx cy cz) as (_ & E & _).
Qed.

Lemma lattice_sum_z :
  Rsum (map z (latticeAtoms cellsX cellsY cellsZ a)) =
  - a * (IZR cellsX * IZR cellsY * IZR cellsZ).
Proof.
  rewrite lattice_Rsum.
  rewrite (map_ext _ (fun _ => INR (Z.to_nat cellsY) * (- a * IZR cellsZ))).
  - rewrite Rsum_const, zrange_length, !INR_IZR_INZ, !Z2Nat.id by assumption. ring.
  - intros cx.
    rewrite (map_ext _ (fun _ => - a * IZR cellsZ)).
    + now rewrite Rsum_const, zrange_length.
    + intros cy.
      rewrite (map_ext _ (fun cz => 8 * ((IZR cz - IZR cellsZ / 2) * a) + 3 * a)).
      * now apply axis_offset_sum.
      * intros cz. now destruct (cell_sums cx cy cz) as (_ & _ & E).
Qed.

End LatticeCentroid.

(** X17.  For positive cell counts the arithmetic mean of all atom positions
    is [(-a/8, -a/8, -a/8)], whatever the cell counts: the cell grid is
    centred on the origin, but the atoms fill only the near three quarters of
    each cell, so the lattice as a whole sits an eighth of the lattice
    constant off the origin on every axis. *)
Theorem diamond_centroid (cellsX cellsY cellsZ : Z) (a : R) :
  (0 < cellsX)%Z -> (0 < cellsY)%Z -> (0 < cellsZ)%Z ->
  mean (Diamond.atomPositions (Diamond.createDiamondStructure cellsX cellsY cellsZ a))
  = mkVector3 (- a / 8) (- a / 8) (- a / 8).
Proof.
  intros Hx Hy Hz. rewrite diamond_atomPositions. unfold mean.
  rewrite lattice_sum_x, lattice_sum_y, lattice_sum_z by lia.
  rewrite latticeAtoms_length.
  rewrite !mult_INR, !INR_IZR_INZ, !Z2Nat.id by lia.
  assert (IZR cellsX <> 0) by (apply not_0_IZR; lia).
  assert (IZR cellsY <> 0) by (apply not_0_IZR; lia).
  assert (IZR cellsZ <> 0) by (apply not_0_IZR; lia).
  change (Z.of_nat 8) with 8%Z.
  f_equal; field; repeat split; assumption.
Qed.

Lemma diamond_centroid_witness :
  mean (Diamond.atomPositions (Diamond.createDiamondStructure 2 2 2 3.57))
  = mkVector3 (- (3.57) / 8) (- (3.57) / 8) (- (3.57) / 8).
Proof.
  apply (diamond_centroid 2 2 2 3.57); lia.
Defined.

(** ** Grids with a dimension of one cube *)

(** X18.  In a grid of any dimensions [w, h, d >= 1] an axis has
    [min dim 2] boundary coordinates, and the census is the product rule on
    these numbers: [min w 2 * min h 2 * min d 2] cubes have three exposed
    faces and [(w - min w 2) * (h - min h 2) * (d - min d 2)] have none.  So
    a grid with a dimension of 1 or 2 has no interior cube, and the single
    cube of a [1 x 1 x 1] grid counts three exposed faces: the count is of
    axes, a cube that touches both ends of an axis counts that axis once. *)
Theorem prism_census_thin (w h d : Z) (cubeSize spacing : R) :
  (1 <= w)%Z -> (1 <= h)%Z -> (1 <= d)%Z ->
  let group := Prism.createRectangularPrismWithCubes w h d cubeSize spacing in
  Z.of_nat (List.length (cubesExposing 3 group)) =
    (Z.min w 2 * Z.min h 2 * Z.min d 2)%Z /\
  Z.of_nat (List.length (cubesExposing 0 group)) =
    ((w - Z.min w 2) * (h - Z.min h 2) * (d - Z.min d 2))%Z /\
  ((w <= 2 \/ h <= 2 \/ d <= 2)%Z -> cubesExposing 0 group = []) /\
  List.length (cubesExposing 3
    (Prism.createRectangularPrismWithCubes 1 1 1 cubeSize spacing)) = 1%nat.
Proof.
  intros Hw Hh Hd group. unfold group.
  destruct (census_by_axes w h d cubeSize spacing) as (E3 & _ & _ & E0).
  rewrite !boundary_sum_any in E3 by assumption.
  rewrite !inner_sum_any in E0 by assumption.
  rewrite <- !mult_IZR in E3, E0. apply INR_to_Z in E3, E0.
  split; [exact E3|]. split; [exact E0|]. split.
  - intros Hthin. apply length_zero_iff_nil.
    assert (Z0 : ((w - Z.min w 2) * (h - Z.min h 2) * (d - Z.min d 2) = 0)%Z).
    { destruct Hthin as [H | [H | H]].
      - replace (w - Z.min w 2)%Z with 0%Z by lia. lia.
      - replace (h - Z.min h 2)%Z with 0%Z by lia. lia.
      - replace (d - Z.min d 2)%Z with 0%Z by lia. lia. }
    lia.
  - reflexivity.
Qed.

Lemma prism_census_thin_witness :
  let group := Prism.createRectangularPrismWithCubes 1 3 4 1 0.2 in
  Z.of_nat (List.length (cubesExposing 3 group)) =
    (Z.min 1 2 * Z.min 3 2 * Z.min 4 2)%Z /\
  Z.of_nat (List.length (cubesExposing 0 group)) =
    ((1 - Z.min 1 2) * (3 - Z.min 3 2) * (4 - Z.min 4 2))%Z /\
  ((1 <= 2 \/ 3 <= 2 \/ 4 <= 2)%Z -> cubesExposing 0 group = []) /\
  List.length (cubesExposing 3
    (Prism.createRectangularPrismWithCubes 1 1 1 1 0.2)) = 1%nat.
Proof.
  apply (prism_census_thin 1 3 4 1 0.2); lia.
Defined.

(** ** The order of the diamond group *)

(** X19.  For every cell count and lattice constant the group of the
    diamond holds first the atom meshes, one per entry of [atomPositions] and
    in the same order, and after them the bond meshes: no bond is added
    before the last atom, and the group has as many objects as there are
    atoms and bonds together. *)
Theorem diamond_group_order (cellsX cellsY cellsZ : Z) (unitCellSize : R) :
  let built := Diamond.createDiamondStructure cellsX cellsY cellsZ unitCellSize in
  let group := Diamond.diamondGroup built in
  group = map Diamond.AtomMesh (Diamond.atomPositions built)
          ++ map Diamond.BondMesh (Diamond.bonds group) /\
  firstn (List.length (Diamond.atomPositions built)) group
    = map Diamond.AtomMesh (Diamond.atomPositions built) /\
  List.length group =
    (List.length (Diamond.atomPositions built) + List.length (Diamond.bonds group))%nat.
Proof.
  cbv zeta.
  pose proof (diamond_bonds_scan cellsX cellsY cellsZ unitCellSize) as E.
  cbv zeta in E. rewrite E.
  rewrite diamond_group, diamond_atomPositions.
  rewrite <- bondScan_only_bonds.
  split; [reflexivity|]. split.
  - rewrite <- (length_map Diamond.AtomMesh). rewrite firstn_app, Nat.sub_diag.
    rewrite firstn_all. cbn [firstn]. apply app_nil_r.
  - rewrite length_app, length_map.
    rewrite bondScan_only_bonds at 1. now rewrite length_map.
Qed.

(** ** How far a key lets two vertices differ *)

Lemma toFixed6_tolerance (u v : R) :
  Tetra.toFixed6 u = Tetra.toFixed6 v -> Rabs (u - v) < 1 / 10 ^ 6.
Proof.
  assert (P : 0 < 10 ^ 6) by (simpl; lra).
  assert (Q : 0 < 1 / 10 ^ 6) by (apply Rdiv_lt_0_compat; lra).
  assert (D : forall r s : R, 0 <= r -> 0 <= s ->
            Int_part (r * 10 ^ 6 + / 2) = Int_part (s * 10 ^ 6 + / 2) ->
            Rabs (r - s) < 1 / 10 ^ 6).
  { intros r s Hr Hs E.
    destruct (base_Int_part (r * 10 ^ 6 + / 2)) as [R1 R2].
    destruct (base_Int_part (s * 10 ^ 6 + / 2)) as [S1 S2].
    rewrite E in R1, R2.
    apply Rabs_def1.
    - apply Rmult_lt_reg_r with (10 ^ 6); [exact P|].
      replace (1 / 10 ^ 6 * 10 ^ 6) with 1 by (field; lra). lra.
    - apply Rmult_lt_reg_r with (10 ^ 6); [exact P|].
      replace (- (1 / 10 ^ 6) * 10 ^ 6) with (- 1) by (field; lra). lra. }
  unfold Tetra.toFixed6. cbn [pow] in *.
  destruct (Rlt_dec u 0) as [Hu|Hu]; destruct (Rlt_dec v 0) as [Hv|Hv];
    destruct (Rle_dec _ _) as [Bu|Bu];
    destruct (Rle_dec _ _) as [Bv|Bv];
    intros E; try discriminate E; injection E as E.
  - replace (u - v) with 0 by lra. now rewrite Rabs_R0.
  - replace (u - v) with (- (- u - - v)) by ring. rewrite Rabs_Ropp.
    apply D; [lra | lra | exact E].
  - replace (u - v) with 0 by lra. now rewrite Rabs_R0.
  - apply D; [lra | lra | exact E].
Qed.

(** X20.  Two vertices with the same key agree within [10^-6] on every
    axis, so, for every scale, the last loop never drops a vertex that is
    [10^-6] or more away, on some axis, from all the vertices that got a
    sphere: each of the 20 vertex instances has a sphere within [10^-6] of it
    on each axis. *)
Theorem vertex_spheres_cover (scale : R) :
  let c := Tetra.createMultipleTetrahedrons scale in
  (forall u v, Tetra.vertexKey u = Tetra.vertexKey v ->
     Rabs (x u - x v) < 1 / 10 ^ 6 /\ Rabs (y u - y v) < 1 / 10 ^ 6 /\
     Rabs (z u - z v) < 1 / 10 ^ 6) /\
  (forall v, In v (flat_map Tetra.vertices (Tetra.tetrahedrons c)) ->
     exists s, In s (Tetra.vertexSpheres (Tetra.tetraGroup c)) /\
       Tetra.vertexKey s = Tetra.vertexKey v /\
       Rabs (x s - x v) < 1 / 10 ^ 6 /\ Rabs (y s - y v) < 1 / 10 ^ 6 /\
       Rabs (z s - z v) < 1 / 10 ^ 6).
Proof.
  intros c.
  assert (T : forall u v, Tetra.vertexKey u = Tetra.vertexKey v ->
     Rabs (x u - x v) < 1 / 10 ^ 6 /\ Rabs (y u - y v) < 1 / 10 ^ 6 /\
     Rabs (z u - z v) < 1 / 10 ^ 6).
  { intros u v E. unfold Tetra.vertexKey in E.
    apply pair_equal_spec in E as [E Ez]. apply pair_equal_spec in E as [Ex Ey].
    split; [|split]; apply toFixed6_tolerance; assumption. }
  split; [exact T|].
  intros v Hv.
  destruct (cluster_layout scale)
    as (meshes & sph & Hg & _ & Hvs & _ & _ & _ & _ & Hall).
  fold c in Hg, Hall.
  specialize (Hall v Hv). apply in_map_iff in Hall as (s & Es & Hs).
  exists s. split.
  - rewrite Hg, vertexSpheres_added, Hvs. exact Hs.
  - split; [exact Es|]. apply T. exact Es.
Qed.

(** ** A negative scale *)

Lemma opposite_height_abs (scale : R) (i : Z) :
  (0 <= i < 4)%Z ->
  length (subVectors (oppositeVertex scale i) (sharedCentroid scale i))
  = 4 * Rabs scale / sqrt 3.
Proof.
  intros Hi. pose proof sqrt3_bounds as Hr. pose proof sqrt3_sq as Hq.
  pose proof (Rabs_pos scale) as Hp.
  destruct (centralVertex_cases scale) as (E0 & E1 & E2 & E3).
  unfold length. apply sqrt_lem_1.
  - apply lengthSq_nonneg.
  - apply Rmult_le_pos; [lra|]. apply Rlt_le, Rinv_0_lt_compat. lra.
  - replace (4 * Rabs scale / sqrt 3 * (4 * Rabs scale / sqrt 3))
      with (16 * (Rabs scale * Rabs scale) / (sqrt 3 * sqrt 3)) by (field; lra).
    pose proof (Rsqr_abs scale) as Ha. unfold Rsqr in Ha. rewrite <- Ha, Hq.
    assert (C : (i = 0 \/ i = 1 \/ i = 2 \/ i = 3)%Z) by lia.
    destruct C as [-> | [-> | [-> | ->]]];
      unfold oppositeVertex; rewrite sharedCentroid_code; mod4;
      rewrite ?E0, ?E1, ?E2, ?E3;
      unfold lengthSq, subVectors, divideScalar, multiplyScalar, add, zero;
      simpl; field.
Qed.

Lemma step_forward (m w : Vector3) (k l : R) :
  l <> 0 ->
  subVectors m (multiplyScalar (multiplyScalar w (1 / l)) k) =
  add m (multiplyScalar w (- (k / l))).
Proof.
  intros Hl. destruct m as [mx my mz], w as [wx wy wz].
  unfold subVectors, add, multiplyScalar. simpl. f_equal; field; exact Hl.
Qed.

(** X21.  A negative scale is not rejected and turns the construction
    inside out: the new vertex of additional tetrahedron [i] is then
    [mid + t * (opposite - mid)] with [t = 1.63 * sqrt 3 / 4], between 0 and
    1, so it lies strictly between the centroid of the shared face and the
    opposite vertex, inside the central tetrahedron, instead of outside
    it. *)
Theorem negative_scale_folds_inwards (scale : R) (i : Z) :
  scale < 0 -> (0 <= i < 4)%Z ->
  let c := Tetra.createMultipleTetrahedrons scale in
  let mid := sharedCentroid scale i in
  let opposite := oppositeVertex scale i in
  derivedVertex c i =
    add mid (multiplyScalar (subVectors opposite mid) (1.63 * sqrt 3 / 4)) /\
  0 < 1.63 * sqrt 3 / 4 < 1 /\
  distanceTo (derivedVertex c i) mid = 1.63 * sqrt 3 / 4 * distanceTo opposite mid.
Proof.
  intros Hs Hi c mid opposite. pose proof sqrt3_bounds as Hr.
  pose proof (opposite_height_abs scale i Hi) as HL. fold mid opposite in HL.
  rewrite Rabs_left in HL by exact Hs.
  assert (Hpos : 0 < length (subVectors opposite mid)).
  { rewrite HL. apply Rdiv_lt_0_compat; lra. }
  assert (En : derivedVertex c i =
    add mid (multiplyScalar (subVectors opposite mid) (1.63 * sqrt 3 / 4))).
  { unfold c. rewrite derivedVertex_newVertex by exact Hi.
    rewrite newVertex_code. fold mid opposite.
    rewrite normalize_nonzero by exact Hpos.
    rewrite step_forward by lra. rewrite HL. do 2 f_equal. field. lra. }
  split; [exact En|]. split; [lra|].
  assert (Eo : distanceTo opposite mid = length (subVectors opposite mid)).
  { rewrite distanceTo_sym. symmetry. apply length_subVectors. }
  rewrite Eo, En. unfold distanceTo at 1.
  replace (distanceToSquared
             (add mid (multiplyScalar (subVectors opposite mid) (1.63 * sqrt 3 / 4))) mid)
    with ((1.63 * sqrt 3 / 4) * (1.63 * sqrt 3 / 4) * lengthSq (subVectors opposite mid)).
  - rewrite sqrt_mult by (try apply lengthSq_nonneg; nra).
    rewrite sqrt_square by lra. reflexivity.
  - unfold distanceToSquared, lengthSq, add, multiplyScalar. simpl. ring.
Qed.

Lemma negative_scale_folds_inwards_witness :
  let c := Tetra.createMultipleTetrahedrons (-1) in
  let mid := sharedCentroid (-1) 0 in
  let opposite := oppositeVertex (-1) 0 in
  derivedVertex c 0 =
    add mid (multiplyScalar (subVectors opposite mid) (1.63 * sqrt 3 / 4)) /\
  0 < 1.63 * sqrt 3 / 4 < 1 /\
  distanceTo (derivedVertex c 0) mid = 1.63 * sqrt 3 / 4 * distanceTo opposite mid.
Proof.
  apply (negative_scale_folds_inwards (-1) 0); [lra | lia].
Defined.

(** ** The two sublattices in [atomPositions] *)

Section Pairs.

Context {A : Type} (shift : A -> A).

Let pairOf (p : A) : list A := [p; shift p].

Lemma pairs_length (prim : list A) :
  List.length (flat_map pairOf prim) = (2 * List.length prim)%nat.
Proof. induction prim as [|p prim IH]; simpl; [reflexivity | rewrite IH; lia]. Qed.

Lemma pairs_nth (d : A) (prim : list A) (m : nat) :
  (m < List.length prim)%nat ->
  nth (2 * m) (flat_map pairOf prim) d = nth m prim d /\
  nth (2 * m + 1) (flat_map pairOf prim) d = shift (nth m prim d).
Proof.
  revert m. induction prim as [|p prim IH]; intros m Hm; [simpl in Hm; lia|].
  destruct m as [|m]; [split; reflexivity|].
  simpl in Hm. specialize (IH m ltac:(lia)).
  replace (2 * Datatypes.S m + 1)%nat with (2 + (2 * m + 1))%nat by lia.
  replace (2 * Datatypes.S m)%nat with (2 + 2 * m)%nat by lia.
  exact IH.
Qed.

Lemma pairs_flat_map (F : Z -> list A) (ks : list Z) :
  (forall k, exists prim, F k = flat_map pairOf prim) ->
  exists prim, flat_map F ks = flat_map pairOf prim.
Proof.
  intros H. induction ks as [|k ks (prim & IH)]; [now exists []|].
  destruct (H k) as (pk & Ek). exists (pk ++ prim).
  cbn [flat_map]. now rewrite Ek, IH, flat_map_app.
Qed.

End Pairs.

Lemma latticeAtoms_pairs (cellsX cellsY cellsZ : Z) (a : R) :
  exists prim,
    latticeAtoms cellsX cellsY cellsZ a =
    flat_map (fun p => [p; add p (multiplyScalar (mkVector3 0.25 0.25 0.25) a)]) prim.
Proof.
  unfold latticeAtoms.
  apply pairs_flat_map. intros cx. apply pairs_flat_map. intros cy.
  apply pairs_flat_map. intros cz.
  exists (map (fun offset =>
            add (cellBase cellsX cellsY cellsZ a cx cy cz) (multiplyScalar offset a))
          fccOffsets).
  reflexivity.
Qed.

(** X22.  For every cell count and lattice constant, [atomPositions] lists
    the atoms in pairs: the entry at an odd index is the entry before it
    moved by a quarter of the lattice constant on every axis.  The even
    entries are the first FCC sublattice, the odd entries the second. *)
Theorem diamond_atoms_in_pairs (cellsX cellsY cellsZ : Z) (a : R) (m : Z) :
  let ps := Diamond.atomPositions
              (Diamond.createDiamondStructure cellsX cellsY cellsZ a) in
  (0 <= m)%Z -> (2 * m + 1 < Z.of_nat (List.length ps))%Z ->
  Diamond.item ps (2 * m + 1) =
  add (Diamond.item ps (2 * m)) (multiplyScalar (mkVector3 0.25 0.25 0.25) a).
Proof.
  cbv zeta. rewrite diamond_atomPositions.
  destruct (latticeAtoms_pairs cellsX cellsY cellsZ a) as (prim & ->).
  rewrite pairs_length. intros Hm Hlen. unfold Diamond.item.
  destruct (pairs_nth (fun p => add p (multiplyScalar (mkVector3 0.25 0.25 0.25) a))
              zero prim (Z.to_nat m) ltac:(lia)) as [E0 E1].
  replace (Z.to_nat (2 * m + 1)) with (2 * Z.to_nat m + 1)%nat by lia.
  replace (Z.to_nat (2 * m)) with (2 * Z.to_nat m)%nat by lia.
  now rewrite E0, E1.
Qed.

Lemma diamond_atoms_in_pairs_witness :
  let ps := Diamond.atomPositions (Diamond.createDiamondStructure 2 2 2 3.57) in
  Diamond.item ps (2 * 5 + 1) =
  add (Diamond.item ps (2 * 5)) (multiplyScalar (mkVector3 0.25 0.25 0.25) 3.57).
Proof.
  apply (diamond_atoms_in_pairs 2 2 2 3.57 5).
  - lia.
  - rewrite diamond_atomPositions, latticeAtoms_length. simpl. lia.
Defined.
